(** * KaGen: chunked grid sampler, edge sink and binary edge-list writer

A shallow embedding of
  - [include/io/generator_io.h]        (class [GeneratorIO]),
  - [include/generators/grid/grid_3d.h] (class [Grid3D]),
  - [kagen/io/io.cpp]                   (binary edge-list output),
  - [library/kagen.h]                   ([BuildCSR], [BuildVertexDistribution]),
  - [kagen/tools/statistics.cpp]        (degree statistics, ghost nodes),
  - [interface/kagen_interface.h]       ([KaGen::Generate3DGrid]),
together with the properties of the specification that concern them.
What the code takes from outside the repository -- random variates, the
C library's [cbrt] and [log2], floating-point division, the allocator,
the [NDEBUG] switch -- is an interface it is parametric in.

[SInt] is [unsigned long long] and [SSInt] is [long long]
([interface/kagen_interface.h]); both are modelled as [Z] with the
wrap-around of 64-bit arithmetic written out. *)

From Stdlib Require Import ZArith Lia List Bool.
From stdpp Require Import base list.
From coqutil Require Import Z.PushPullMod Byte Word.LittleEndianList.
Import ListNotations.
Local Open Scope Z_scope.

(** ** 64-bit machine integers *)

Module SInt.

Definition modulus : Z := 2 ^ 64.

(** Reduction of a mathematical integer to an [unsigned long long]. *)
Definition wrap (z : Z) : Z := z mod modulus.

Definition add (a b : Z) : Z := wrap (a + b).
Definition sub (a b : Z) : Z := wrap (a - b).
Definition mul (a b : Z) : Z := wrap (a * b).

(** A C++ [bool] promoted to an integer. *)
Definition of_bool (b : bool) : Z := if b then 1 else 0.

(** The range of an [SInt] variable. *)
Definition in_range (z : Z) : Prop := 0 <= z < modulus.
End SInt.

Module SSInt.

(** Conversion of an [unsigned long long] bit pattern to [long long]
    (two's complement). *)
Definition of_SInt (z : Z) : Z :=
  if SInt.wrap z <? 2 ^ 63 then SInt.wrap z else SInt.wrap z - SInt.modulus.

(** Signed addition; the result is reduced to the [long long] range. *)
Definition add (a b : Z) : Z := of_SInt (a + b).
End SSInt.

(** ** The generator configuration

Only the fields of [PGeneratorConfig] read by the modelled code.
[LPFloat] is [double]; the probability is never inspected by the
modelled code, only handed to the variate generator, so its type is
left abstract. *)

Record PGeneratorConfig (LPFloat : Type) : Type := mkConfig {
  cfg_n : Z;
  cfg_p : LPFloat;
  cfg_k : Z;
  cfg_seed : Z;
  cfg_grid_x : Z;
  cfg_grid_y : Z;
  cfg_grid_z : Z;
  cfg_periodic : bool;
  cfg_self_loops : bool;
  cfg_dist_size : Z
}.

Arguments mkConfig {LPFloat}.
Arguments cfg_n {LPFloat}.
Arguments cfg_p {LPFloat}.
Arguments cfg_k {LPFloat}.
Arguments cfg_seed {LPFloat}.
Arguments cfg_grid_x {LPFloat}.
Arguments cfg_grid_y {LPFloat}.
Arguments cfg_grid_z {LPFloat}.
Arguments cfg_periodic {LPFloat}.
Arguments cfg_self_loops {LPFloat}.
Arguments cfg_dist_size {LPFloat}.

(** ** Memory

[dist_.resize(n)] throws [std::length_error] when [n] exceeds the
vector's [max_size()] and [std::bad_alloc] when the storage cannot be
obtained.  Whether a vector of [n] [SInt] can be had is a fact of the
platform and of the moment: an interface the constructors are
parametric in. *)

Class Memory : Type := {
  (** [std::vector<SInt>::resize(n)] returns normally *)
  resizable : Z -> bool
}.

(** ** The edge sink: [GeneratorIO<std::tuple<SInt, SInt>>] *)

Module GeneratorIO.

Record t : Type := mk {
  dist_ : list Z;
  edges_ : list (Z * Z);
  local_num_edges_ : Z
}.

(** The object that [GeneratorIO(config)] leaves when it returns:
    [local_num_edges_(0)], [dist_.resize(dist_size)]. *)
Definition create (dist_size : Z) : t :=
  mk (replicate (Z.to_nat dist_size) 0) [] 0.

(** [GeneratorIO(config) : config_(config), local_num_edges_(0)
      { dist_.resize(config_.dist_size); }]
    The body is the one statement that can fail: an exception of
    [resize] leaves the constructor, [None]. *)
Definition construct {M : Memory} (dist_size : Z) : option t :=
  if resizable dist_size then Some (create dist_size) else None.

(** [UpdateDist(node_id)]:
    [if (node_id < dist_.size()) dist_[node_id]++; local_num_edges_++;] *)
Definition UpdateDist (io : t) (node_id : Z) : t :=
  let dist' :=
    if node_id <? Z.of_nat (length (dist_ io))
    then alter (fun c => SInt.add c 1) (Z.to_nat node_id) (dist_ io)
    else dist_ io in
  mk dist' (edges_ io) (SInt.add (local_num_edges_ io) 1).

(** [PushEdge(u, v)]:
    [edges_.emplace_back(std::make_tuple(u, v)); local_num_edges_++;] *)
Definition PushEdge (io : t) (u v : Z) : t :=
  mk (dist_ io) (edges_ io ++ [(u, v)]) (SInt.add (local_num_edges_ io) 1).

(** [NumEdges()]:
    [edges_.size() > 0 ? edges_.size() : local_num_edges_ / 2] *)
Definition NumEdges (io : t) : Z :=
  if 0 <? Z.of_nat (length (edges_ io))
  then Z.of_nat (length (edges_ io))
  else local_num_edges_ io / 2.

(** A run of [UpdateDist] calls, one per listed vertex id. *)
Definition UpdateDist_all (io : t) (ids : list Z) : t :=
  fold_left UpdateDist ids io.

(** A run of [PushEdge] calls, one per listed edge. *)
Definition PushEdge_all (io : t) (es : list (Z * Z)) : t :=
  fold_left (fun s e => PushEdge s (fst e) (snd e)) es io.

End GeneratorIO.

(** ** Properties of the edge sink *)

Section SinkFacts.
  Import GeneratorIO.

Lemma wrap_small z : 0 <= z < SInt.modulus -> SInt.wrap z = z.
Proof. intros H. unfold SInt.wrap. apply Z.mod_small. exact H. Qed.

Lemma modulus_pos : 0 < SInt.modulus.
Proof. reflexivity. Qed.

Lemma wrap_range z : 0 <= SInt.wrap z < SInt.modulus.
Proof. unfold SInt.wrap. apply Z.mod_pos_bound. exact modulus_pos. Qed.

End SinkFacts.

(** ** Randomness

[sampling::Spooky::hash] ([hash.hpp]) and [RNGWrapper::GenerateBinomial]
([rng_wrapper.h]) are external to the modelled files.  Both are
deterministic in their arguments, so they are taken as functions: an
interface that the samplers are parametric in. *)

Class Randomness (LPFloat : Type) : Type := {
  (** [sampling::Spooky::hash(x)] *)
  Spooky_hash : Z -> Z;
  (** [rng_.GenerateBinomial(h, n, p)] *)
  GenerateBinomial : Z -> Z -> LPFloat -> Z
}.

(** ** The cube root

[chunks_per_dim_ = cbrt(total_chunks_)] converts the [SInt] to [double],
calls the C library's [cbrt] ([<cmath>]) and truncates the result on
assignment to an [SInt].  The value is the library's: it is close to the
real cube root, and for a perfect cube [d^3] it may come out just below
[d] and be truncated to [d - 1].  The composite is external to the
modelled files and taken as a function, which the sampler is parametric
in; nothing is assumed of it. *)

Class CubeRoot : Type := {
  (** [(SInt) cbrt((double) k)] *)
  cbrt : Z -> Z
}.

(** ** The 3D grid sampler: [Grid3D<EdgeCallback>] *)

Module Grid3D.

(** [enum Direction] ([definitions.h]). *)
Inductive Direction : Type := Up | Down | Left | Right | Front | Back.

Definition DirectionX (direction : Direction) : Z :=
  match direction with
  | Left => -1
  | Right => 1
  | _ => 0
  end.

Definition DirectionY (direction : Direction) : Z :=
  match direction with
  | Up => -1
  | Down => 1
  | _ => 0
  end.

Definition DirectionZ (direction : Direction) : Z :=
  match direction with
  | Front => -1
  | Back => 1
  | _ => 0
  end.

(** The data members set by [Generate()] before the chunk loop, with the
    two configuration fields the sampler reads afterwards. *)
Record t (LPFloat : Type) : Type := mk {
  config_n : Z;
  config_seed : Z;
  config_periodic : bool;
  start_node_ : Z;
  end_node_ : Z;
  num_nodes_ : Z;
  edge_probability_ : LPFloat;
  total_x_ : Z;
  total_y_ : Z;
  total_z_ : Z;
  total_chunks_ : Z;
  chunks_per_dim_ : Z;
  x_per_chunk_ : Z;
  y_per_chunk_ : Z;
  z_per_chunk_ : Z;
  remaining_x_ : Z;
  remaining_y_ : Z;
  remaining_z_ : Z;
  vertices_per_chunk_ : Z
}.

Arguments mk {LPFloat}.
Arguments config_n {LPFloat}.
Arguments config_seed {LPFloat}.
Arguments config_periodic {LPFloat}.
Arguments start_node_ {LPFloat}.
Arguments end_node_ {LPFloat}.
Arguments num_nodes_ {LPFloat}.
Arguments edge_probability_ {LPFloat}.
Arguments total_x_ {LPFloat}.
Arguments total_y_ {LPFloat}.
Arguments total_z_ {LPFloat}.
Arguments total_chunks_ {LPFloat}.
Arguments chunks_per_dim_ {LPFloat}.
Arguments x_per_chunk_ {LPFloat}.
Arguments y_per_chunk_ {LPFloat}.
Arguments z_per_chunk_ {LPFloat}.
Arguments remaining_x_ {LPFloat}.
Arguments remaining_y_ {LPFloat}.
Arguments remaining_z_ {LPFloat}.
Arguments vertices_per_chunk_ {LPFloat}.

(** The assignment of [start_node_], [end_node_] and [num_nodes_]. *)
Definition set_nodes {LPFloat : Type} (g : t LPFloat)
    (start_node end_node num_nodes : Z) : t LPFloat :=
  mk (config_n g) (config_seed g) (config_periodic g)
     start_node end_node num_nodes (edge_probability_ g)
     (total_x_ g) (total_y_ g) (total_z_ g) (total_chunks_ g) (chunks_per_dim_ g)
     (x_per_chunk_ g) (y_per_chunk_ g) (z_per_chunk_ g)
     (remaining_x_ g) (remaining_y_ g) (remaining_z_ g) (vertices_per_chunk_ g).

(** What a generator produces: the calls of the edge callback [cb_], in
    order, and the sink [io_]. *)
Record output : Type := mkOut {
  emitted : list (Z * Z);
  io_ : GeneratorIO.t
}.

Section Sampler.
  Context {LPFloat : Type} {R : Randomness LPFloat}.

(** The compile-time switch [#ifdef OUTPUT_EDGES]. *)
Variable OUTPUT_EDGES : bool.

Variable g : t LPFloat.

(** [Decode(id, x, y, z)] *)
Definition Decode (id : Z) : Z * Z * Z :=
  let d := chunks_per_dim_ g in
  (id mod d, (id / d) mod d, id / SInt.mul d d).

(** [Encode(x, y, z)] *)
Definition Encode (x y z : Z) : Z :=
  let d := chunks_per_dim_ g in
  SInt.add (SInt.add x (SInt.mul y d)) (SInt.mul z (SInt.mul d d)).

(** [OffsetForChunk(chunk)] *)
Definition OffsetForChunk (chunk : Z) : Z :=
  let '(chunk_x, chunk_y, chunk_z) := Decode chunk in
  let vertex_x :=
    SInt.add (SInt.mul chunk_x (x_per_chunk_ g)) (Z.min chunk_x (remaining_x_ g)) in
  let vertex_y :=
    SInt.add (SInt.mul chunk_y (y_per_chunk_ g)) (Z.min chunk_y (remaining_y_ g)) in
  let vertex_z :=
    SInt.add (SInt.mul chunk_z (z_per_chunk_ g)) (Z.min chunk_z (remaining_z_ g)) in
  let next_vertex_y :=
    SInt.add (SInt.mul (SInt.add chunk_y 1) (y_per_chunk_ g))
             (Z.min (SInt.add chunk_y 1) (remaining_y_ g)) in
  let next_vertex_z :=
    SInt.add (SInt.mul (SInt.add chunk_z 1) (z_per_chunk_ g))
             (Z.min (SInt.add chunk_z 1) (remaining_z_ g)) in
  let upper_cube := SInt.mul (SInt.mul (total_x_ g) vertex_y) next_vertex_z in
  let frontal_cube := SInt.mul (SInt.mul (total_x_ g) (total_y_ g)) vertex_z in
  let frontal_left_cube := SInt.mul (SInt.mul vertex_x next_vertex_y) next_vertex_z in
  let intersect_upper_frontal := SInt.mul (SInt.mul (total_x_ g) vertex_y) vertex_z in
  let intersect_upper_frontal_left := SInt.mul (SInt.mul vertex_x vertex_y) next_vertex_z in
  let intersect_frontal_frontal_left := SInt.mul (SInt.mul vertex_x next_vertex_y) vertex_z in
  let intersect_all := SInt.mul (SInt.mul vertex_x vertex_y) vertex_z in
  SInt.add
    (SInt.sub
       (SInt.add (SInt.add upper_cube frontal_cube) frontal_left_cube)
       (SInt.add (SInt.add intersect_upper_frontal intersect_upper_frontal_left)
                 intersect_frontal_frontal_left))
    intersect_all.

(** The extents [xs], [ys], [zs] of a chunk, as computed at the head of
    [QueryInDirection] and of [LocateVertexInChunk]:
    [x_per_chunk_ + (chunk_x < remaining_x_)] and so on. *)
Definition chunk_extents (chunk : Z) : Z * Z * Z :=
  let '(chunk_x, chunk_y, chunk_z) := Decode chunk in
  (SInt.add (x_per_chunk_ g) (SInt.of_bool (chunk_x <? remaining_x_ g)),
   SInt.add (y_per_chunk_ g) (SInt.of_bool (chunk_y <? remaining_y_ g)),
   SInt.add (z_per_chunk_ g) (SInt.of_bool (chunk_z <? remaining_z_ g))).

(** [IsLocalVertex(local_x, local_y, local_z, xs, ys, zs)]: the first
    three arguments are signed; [local_x >= xs] compares after the
    conversion of [local_x] to unsigned. *)
Definition IsLocalVertex (local_x local_y local_z xs ys zs : Z) : bool :=
  if (local_x <? 0) || (xs <=? SInt.wrap local_x) then false
  else if (local_y <? 0) || (ys <=? SInt.wrap local_y) then false
  else if (local_z <? 0) || (zs <=? SInt.wrap local_z) then false
  else true.

(** [IsValidChunk(chunk_x, chunk_y, chunk_z)], signed arguments. *)
Definition IsValidChunk (chunk_x chunk_y chunk_z : Z) : bool :=
  let d := chunks_per_dim_ g in
  if (chunk_x <? 0) || (d <=? SInt.wrap chunk_x) then false
  else if (chunk_y <? 0) || (d <=? SInt.wrap chunk_y) then false
  else if (chunk_z <? 0) || (d <=? SInt.wrap chunk_z) then false
  else true.

(** [LocateVertexInChunk(chunk, local_x, local_y, local_z, direction)] *)
Definition LocateVertexInChunk
    (chunk local_x local_y local_z : Z) (direction : Direction) : Z :=
  let offset := OffsetForChunk chunk in
  let '(xs, ys, zs) := chunk_extents chunk in
  let '(local_neighbor_x, local_neighbor_y, local_neighbor_z) :=
    match direction with
    | Right => (0, local_y, local_z)
    | Left => (SInt.sub xs 1, local_y, local_z)
    | Up => (local_x, SInt.sub ys 1, local_z)
    | Down => (local_x, 0, local_z)
    | Front => (local_x, local_y, SInt.sub zs 1)
    | Back => (local_x, local_y, 0)
    end in
  SInt.add offset
    (SInt.add (SInt.add local_neighbor_x (SInt.mul local_neighbor_y xs))
              (SInt.mul local_neighbor_z (SInt.mul xs ys))).

(** The coin of [GenerateEdge]:
    [edge_seed = min(s,t) * total_y_ * total_x_ * total_z_ + max(s,t)],
    [h = Spooky::hash(config_.seed + edge_seed)]. *)
Definition edge_seed (source target : Z) : Z :=
  SInt.add
    (SInt.mul (SInt.mul (SInt.mul (Z.min source target) (total_y_ g)) (total_x_ g))
              (total_z_ g))
    (Z.max source target).

Definition edge_hash (source target : Z) : Z :=
  Spooky_hash (SInt.add (config_seed g) (edge_seed source target)).

(** The condition of the [if] in [GenerateEdge]. *)
Definition edge_accepted (source target : Z) : bool :=
  negb (GenerateBinomial (edge_hash source target) 1 (edge_probability_ g) =? 0).

(** [GenerateEdge(source, target)] *)
Definition GenerateEdge (out : output) (source target : Z) : output :=
  if edge_accepted source target
  then
    mkOut (emitted out ++ [(source, target)])
          (if OUTPUT_EDGES
           then GeneratorIO.PushEdge (io_ out) source target
           else GeneratorIO.UpdateDist
                  (GeneratorIO.UpdateDist (io_ out) source) target)
  else out.

(** [QueryInDirection(chunk, vertex, direction)] *)
Definition QueryInDirection
    (out : output) (chunk vertex : Z) (direction : Direction) : output :=
  let offset := OffsetForChunk chunk in
  let local_vertex := SInt.sub vertex offset in
  let '(chunk_x, chunk_y, chunk_z) := Decode chunk in
  let '(xs, ys, zs) := chunk_extents chunk in
  let local_x := local_vertex mod xs in
  let local_y := (local_vertex / xs) mod ys in
  let local_z := local_vertex / SInt.mul xs ys in
  let local_neighbor_x := SSInt.add (SSInt.of_SInt local_x) (DirectionX direction) in
  let local_neighbor_y := SSInt.add (SSInt.of_SInt local_y) (DirectionY direction) in
  let local_neighbor_z := SSInt.add (SSInt.of_SInt local_z) (DirectionZ direction) in
  if IsLocalVertex local_neighbor_x local_neighbor_y local_neighbor_z xs ys zs
  then
    let neighbor_vertex :=
      SInt.add offset
        (SInt.add (SInt.add local_neighbor_x (SInt.mul local_neighbor_y xs))
                  (SInt.mul local_neighbor_z (SInt.mul xs ys))) in
    GenerateEdge out vertex neighbor_vertex
  else
    let d := chunks_per_dim_ g in
    let neighbor_chunk_x := SSInt.add (SSInt.of_SInt chunk_x) (DirectionX direction) in
    let neighbor_chunk_y := SSInt.add (SSInt.of_SInt chunk_y) (DirectionY direction) in
    let neighbor_chunk_z := SSInt.add (SSInt.of_SInt chunk_z) (DirectionZ direction) in
    let wrap_chunk c :=
      if config_periodic g then SSInt.of_SInt (SInt.add c d mod d) else c in
    let neighbor_chunk_x := wrap_chunk neighbor_chunk_x in
    let neighbor_chunk_y := wrap_chunk neighbor_chunk_y in
    let neighbor_chunk_z := wrap_chunk neighbor_chunk_z in
    if negb (IsValidChunk neighbor_chunk_x neighbor_chunk_y neighbor_chunk_z)
    then out
    else
      let neighbor_chunk :=
        Encode (SInt.wrap neighbor_chunk_x) (SInt.wrap neighbor_chunk_y)
               (SInt.wrap neighbor_chunk_z) in
      let neighbor_vertex :=
        LocateVertexInChunk neighbor_chunk local_x local_y local_z direction in
      GenerateEdge out vertex neighbor_vertex.

(** [GenerateEdges(chunk, vertex)] *)
Definition GenerateEdges (out : output) (chunk vertex : Z) : output :=
  let out := QueryInDirection out chunk vertex Right in
  let out := QueryInDirection out chunk vertex Left in
  let out := QueryInDirection out chunk vertex Up in
  let out := QueryInDirection out chunk vertex Down in
  let out := QueryInDirection out chunk vertex Front in
  QueryInDirection out chunk vertex Back.

(** The values taken by the counter of
    [for (SInt i = first; i < last; i++)]. *)
Definition loop_range (first last : Z) : list Z :=
  map (fun j => first + Z.of_nat j) (seq 0 (Z.to_nat (last - first))).

(** [GenerateChunk(chunk)] *)
Definition GenerateChunk (out : output) (chunk : Z) : output :=
  let start_vertex := OffsetForChunk chunk in
  let end_vertex := OffsetForChunk (SInt.add chunk 1) in
  fold_left (fun o i => GenerateEdges o chunk i)
            (loop_range start_vertex end_vertex) out.

(** [GetVertexRange()] *)
Definition GetVertexRange : Z * Z :=
  (start_node_ g, SInt.sub (SInt.add (start_node_ g) (num_nodes_ g)) 1).

End Sampler.

Section Driver.
  Context {LPFloat : Type} {R : Randomness LPFloat} {C : CubeRoot} {M : Memory}.
  Variable OUTPUT_EDGES : bool.

(** A generator between construction and [Generate()]: the reference
    to the configuration and the sink built from it. *)
Record unstarted : Type := mkUnstarted {
  config_ : PGeneratorConfig LPFloat;
  initial_io_ : GeneratorIO.t
}.

(** How a constructor call ends: with an object, or with a fatal error
    (an exception that leaves the constructor ends the program). *)
Inductive outcome (A : Type) : Type :=
| Constructed (a : A)
| Fatal.

(** [Grid3D(config, rank, cb) : config_(config), rng_(config),
    io_(config), cb_(cb) { }] -- the body is empty; [config_] binds a
    reference, [rng_] and [cb_] keep their argument, and [io_(config)]
    runs the constructor of [GeneratorIO], the one member initialiser
    with a statement that can fail. *)
Definition construct (config : PGeneratorConfig LPFloat) : outcome unstarted :=
  match GeneratorIO.construct (cfg_dist_size config) with
  | Some io => Constructed unstarted (mkUnstarted config io)
  | None => Fatal unstarted
  end.

(** The chunks of a participant, [Generate()] lines 48-52:
    [(num_chunks, start_chunk, end_chunk)]. *)
Definition owned_chunks (total_chunks rank size : Z) : Z * Z * Z :=
  let leftover_chunks := total_chunks mod size in
  let num_chunks :=
    SInt.add (total_chunks / size) (SInt.of_bool (rank <? leftover_chunks)) in
  let start_chunk :=
    SInt.add (SInt.mul rank num_chunks)
             (if leftover_chunks <=? rank then leftover_chunks else 0) in
  let end_chunk := SInt.add start_chunk num_chunks in
  (num_chunks, start_chunk, end_chunk).

(** [Generate()] up to the chunk loop (lines 36-68).  The first integer
    division by [chunks_per_dim_] faults when it is zero: [None].  The
    members are assigned in source order: [g0] is the object when
    [OffsetForChunk] is first called, the node range still unset. *)
Definition Init (config : PGeneratorConfig LPFloat) (rank size : Z)
  : option (t LPFloat) :=
  let total_x := cfg_grid_x config in
  let total_y := cfg_grid_y config in
  let total_z := cfg_grid_z config in
  let n := SInt.mul (SInt.mul total_x total_y) total_z in
  let total_chunks := cfg_k config in
  let chunks_per_dim := cbrt total_chunks in
  let '(num_chunks, start_chunk, end_chunk) :=
    owned_chunks total_chunks rank size in
  if chunks_per_dim =? 0 then None
  else
    let y_per_chunk := total_y / chunks_per_dim in
    let remaining_y := total_y mod chunks_per_dim in
    let x_per_chunk := total_x / chunks_per_dim in
    let remaining_x := total_x mod chunks_per_dim in
    let z_per_chunk := total_z / chunks_per_dim in
    let remaining_z := total_z mod chunks_per_dim in
    let vertices_per_chunk :=
      SInt.mul (SInt.mul x_per_chunk y_per_chunk) z_per_chunk in
    let g0 :=
      mk n (cfg_seed config) (cfg_periodic config) 0 0 0 (cfg_p config)
         total_x total_y total_z total_chunks chunks_per_dim
         x_per_chunk y_per_chunk z_per_chunk
         remaining_x remaining_y remaining_z vertices_per_chunk in
    let start_node := OffsetForChunk g0 start_chunk in
    let end_node := OffsetForChunk g0 end_chunk in
    let num_nodes := SInt.sub end_node start_node in
    Some (set_nodes g0 start_node end_node num_nodes).

(** [Generate()]: the initialisation, then
    [for (SInt i = 0; i < num_chunks; i++) GenerateChunk(start_chunk + i)]. *)
Definition Generate (gen : unstarted) (rank size : Z)
  : option (t LPFloat * output) :=
  match Init (config_ gen) rank size with
  | None => None
  | Some g =>
      let '(num_chunks, start_chunk, _) :=
        owned_chunks (cfg_k (config_ gen)) rank size in
      Some
        (g,
         fold_left
           (fun o i => GenerateChunk OUTPUT_EDGES g o (SInt.add start_chunk i))
           (loop_range 0 num_chunks)
           (mkOut [] (initial_io_ gen)))
  end.

(** The edges handed to the callback by participant [rank] of [size]:
    none when the constructor fails or [Generate()] faults. *)
Definition emitted_by (config : PGeneratorConfig LPFloat) (rank size : Z)
  : list (Z * Z) :=
  match construct config with
  | Constructed _ gen =>
      match Generate gen rank size with
      | Some (_, out) => emitted out
      | None => []
      end
  | Fatal _ => []
  end.

(** The aggregated result: the lists of all participants, by rank. *)
Definition aggregated (config : PGeneratorConfig LPFloat) (size : Z)
  : list (Z * Z) :=
  flat_map (fun r => emitted_by config r size) (loop_range 0 size).

(** The pair returned by [GetVertexRange()] on participant [rank] once
    [Generate()] has run; [None] when the constructor fails or
    [Generate()] faults. *)
Definition vertex_range_of (config : PGeneratorConfig LPFloat) (rank size : Z)
  : option (Z * Z) :=
  match construct config with
  | Constructed _ gen =>
      match Generate gen rank size with
      | Some (g, _) => Some (GetVertexRange g)
      | None => None
      end
  | Fatal _ => None
  end.

End Driver.

End Grid3D.

(** ** Binary edge-list output ([kagen/io/io.cpp])

A file is the list of its bytes.  [fwrite(&x, sizeof(SInt), 1, fout)]
appends the eight bytes of the object representation of [x], least
significant first (the little-endian layout the file format names).
The participants of a run are listed by rank, each with its edge list
and its vertex range; the collectives read that list. *)

Module BinaryIO.

Definition EdgeList : Type := list (Z * Z).
Definition VertexRange : Type := (Z * Z)%type.

(** What each participant passes to [WriteBinaryEdgeList], by rank. *)
Definition World : Type := list (EdgeList * VertexRange).

(** [fwrite] of [count] consecutive [SInt] objects. *)
Definition fwrite_SInt (file : list byte) (objects : list Z) : list byte :=
  file ++ flat_map (le_split 8) objects.

(** [FindNumberOfGlobalNodes(vertex_range)]: the [second] of the last
    participant's range, broadcast to all. *)
Definition FindNumberOfGlobalNodes (world : World) : Z :=
  snd (snd (List.last world ([], (0, 0)))).

(** [FindNumberOfGlobalEdges(edges)]: the sum of the list lengths. *)
Definition FindNumberOfGlobalEdges (world : World) : Z :=
  fold_left (fun acc pe => SInt.add acc (Z.of_nat (length (fst pe)))) world 0.

(** [CreateFile(filename)] leaves an empty file. *)
Definition CreateFile : list byte := [].

(** [AppendBinaryEdgeList(filename, edges)] *)
Definition AppendBinaryEdgeList (file : list byte) (edges : EdgeList) : list byte :=
  fold_left
    (fun fout e => fwrite_SInt fout [SInt.add (fst e) 1; SInt.add (snd e) 1])
    edges file.

(** [AppendBinaryEdgeListHeader(filename, single_file, edges, vertex_range)] *)
Definition AppendBinaryEdgeListHeader
    (file : list byte) (single_file : bool) (edges : EdgeList) (world : World)
  : list byte :=
  let number_of_nodes := FindNumberOfGlobalNodes world in
  let number_of_edges :=
    if single_file then FindNumberOfGlobalEdges world
    else Z.of_nat (length edges) in
  fwrite_SInt (fwrite_SInt file [number_of_nodes]) [number_of_edges].

(** [WriteBinaryEdgeList] with [single_file = false], on one participant:
    the contents of its file [filename_rank]. *)
Definition WriteBinaryEdgeList_own_file
    (omit_header : bool) (edges : EdgeList) (world : World) : list byte :=
  let file := CreateFile in
  let file :=
    if negb omit_header then AppendBinaryEdgeListHeader file false edges world
    else file in
  AppendBinaryEdgeList file edges.

(** [WriteBinaryEdgeList] with [single_file = true], over all
    participants: the root creates the file and writes the header, then
    the participants append their edges in rank order.  The header
    routine is entered by the root alone, and the two collectives inside
    it ([MPI_Bcast] from the last participant, [MPI_Allreduce]) are
    matched by no call of the other participants, which go on to
    [MPI_Barrier]: with more than one participant the run has no defined
    result, [None]. *)
Definition WriteBinaryEdgeList_single_file
    (omit_header : bool) (world : World) : option (list byte) :=
  let root_edges := fst (hd ([], (0, 0)) world) in
  let file := CreateFile in
  let header_written :=
    if negb omit_header
    then
      if (length world =? 1)%nat
      then Some (AppendBinaryEdgeListHeader file true root_edges world)
      else None
    else Some file in
  match header_written with
  | None => None
  | Some file =>
      Some (fold_left (fun fout pe => AppendBinaryEdgeList fout (fst pe)) world file)
  end.

(** Reading a file back as consecutive 64-bit little-endian words. *)
Fixpoint read_words (n : nat) (file : list byte) : list Z :=
  match n with
  | O => []
  | S n' => le_combine (firstn 8 file) :: read_words n' (skipn 8 file)
  end.

End BinaryIO.

(** ** Properties of the edge sink, continued *)

Section SinkCounting.
  Import GeneratorIO.

Lemma add_wrap_l a b : SInt.add (SInt.wrap a) b = SInt.add a b.
Proof. unfold SInt.add, SInt.wrap. apply Zplus_mod_idemp_l. Qed.

Lemma UpdateDist_all_edges ids : forall io,
  edges_ (UpdateDist_all io ids) = edges_ io.
Proof.
  induction ids as [|i ids IH]; intros io; [reflexivity|].
  change (UpdateDist_all io (i :: ids))
    with (UpdateDist_all (UpdateDist io i) ids).
  rewrite IH. reflexivity.
Qed.

Lemma UpdateDist_all_count ids : forall io,
  SInt.in_range (local_num_edges_ io) ->
  local_num_edges_ (UpdateDist_all io ids)
  = SInt.wrap (local_num_edges_ io + Z.of_nat (length ids)).
Proof.
  induction ids as [|i ids IH]; intros io Hio.
  - simpl. rewrite Z.add_0_r, wrap_small; [reflexivity | exact Hio].
  - change (UpdateDist_all io (i :: ids))
      with (UpdateDist_all (UpdateDist io i) ids).
    rewrite IH by (simpl; apply wrap_range).
    simpl local_num_edges_. fold (SInt.add (SInt.add (local_num_edges_ io) 1)
                                           (Z.of_nat (length ids))).
    unfold SInt.add at 2. rewrite add_wrap_l. unfold SInt.add.
    f_equal. simpl length. lia.
Qed.

Lemma PushEdge_all_edges es : forall io,
  edges_ (PushEdge_all io es) = edges_ io ++ es.
Proof.
  induction es as [|[u v] es IH]; intros io.
  - simpl. rewrite app_nil_r. reflexivity.
  - change (PushEdge_all io ((u, v) :: es))
      with (PushEdge_all (PushEdge io u v) es).
    rewrite IH. simpl. rewrite <- app_assoc. reflexivity.
Qed.

End SinkCounting.

(** C6. [NumEdges()] of a freshly constructed sink: after a run of
    [PushEdge] calls it is the number of calls (the size of the edge list);
    after a run of [2*e] [UpdateDist] calls and no [PushEdge] call it is [e],
    half the number of increments.  The counter is an [SInt], so the run of
    increments is taken to fit in 64 bits. *)
Theorem NumEdges_of_runs (dist_size : Z) (es : list (Z * Z)) (ids : list Z) (e : Z)
    (Hcalls : Z.of_nat (length ids) = 2 * e)
    (Hfits : 2 * e < SInt.modulus) :
  GeneratorIO.edges_ (GeneratorIO.PushEdge_all (GeneratorIO.create dist_size) es) = es
  /\ GeneratorIO.NumEdges (GeneratorIO.PushEdge_all (GeneratorIO.create dist_size) es)
     = Z.of_nat (length es)
  /\ GeneratorIO.edges_ (GeneratorIO.UpdateDist_all (GeneratorIO.create dist_size) ids) = []
  /\ GeneratorIO.NumEdges (GeneratorIO.UpdateDist_all (GeneratorIO.create dist_size) ids)
     = e.
Proof.
  assert (Hpush : GeneratorIO.edges_
            (GeneratorIO.PushEdge_all (GeneratorIO.create dist_size) es) = es)
    by (rewrite PushEdge_all_edges; reflexivity).
  assert (Hupd : GeneratorIO.edges_
            (GeneratorIO.UpdateDist_all (GeneratorIO.create dist_size) ids) = [])
    by (rewrite UpdateDist_all_edges; reflexivity).
  repeat split; try assumption.
  - unfold GeneratorIO.NumEdges. rewrite Hpush.
    destruct es as [|x es']; [reflexivity|].
    replace (0 <? Z.of_nat (length (x :: es'))) with true; [reflexivity|].
    symmetry. apply Z.ltb_lt. simpl length. lia.
  - unfold GeneratorIO.NumEdges. rewrite Hupd. simpl length.
    change (0 <? Z.of_nat 0) with false. cbv iota.
    rewrite UpdateDist_all_count by (simpl; unfold SInt.in_range, SInt.modulus; lia).
    simpl GeneratorIO.local_num_edges_. rewrite Z.add_0_l, Hcalls.
    rewrite wrap_small by lia.
    rewrite Z.mul_comm. apply Z.div_mul. lia.
Qed.

(** The run [PushEdge(4,5); PushEdge(5,4); PushEdge(7,8)] reports three
    edges; four [UpdateDist] calls report two. *)
Lemma NumEdges_of_runs_witness :
  GeneratorIO.NumEdges
    (GeneratorIO.PushEdge_all (GeneratorIO.create 10) [(4, 5); (5, 4); (7, 8)]) = 3
  /\ GeneratorIO.NumEdges
       (GeneratorIO.UpdateDist_all (GeneratorIO.create 10) [4; 5; 5; 12]) = 2.
Proof.
  pose proof (NumEdges_of_runs 10 [(4, 5); (5, 4); (7, 8)] [4; 5; 5; 12] 2
                eq_refl eq_refl) as H.
  split; [exact (proj1 (proj2 H)) | exact (proj2 (proj2 (proj2 H)))].
Defined.

(** C10. The effect of one [UpdateDist(node_id)] call on any sink: below
    [dist_.size()] the entry of [node_id] is incremented (by exactly one
    unless it was at the top of the 64-bit range) and every other entry is
    kept; at or beyond [dist_.size()] the histogram is kept whole; in both
    cases the edge list is kept and [local_num_edges_] is incremented, so
    the dropped contribution still counts in [NumEdges()]. *)
Theorem UpdateDist_frame (io : GeneratorIO.t) (node_id : Z)
    (Hid : 0 <= node_id) :
  let io' := GeneratorIO.UpdateDist io node_id in
  let size := Z.of_nat (length (GeneratorIO.dist_ io)) in
  (node_id < size ->
     exists c,
       GeneratorIO.dist_ io !! Z.to_nat node_id = Some c
       /\ GeneratorIO.dist_ io' !! Z.to_nat node_id = Some (SInt.add c 1)
       /\ (0 <= c -> c + 1 < SInt.modulus -> SInt.add c 1 = c + 1)
       /\ (forall j : nat, j <> Z.to_nat node_id ->
             GeneratorIO.dist_ io' !! j = GeneratorIO.dist_ io !! j))
  /\ (size <= node_id -> GeneratorIO.dist_ io' = GeneratorIO.dist_ io)
  /\ length (GeneratorIO.dist_ io') = length (GeneratorIO.dist_ io)
  /\ GeneratorIO.edges_ io' = GeneratorIO.edges_ io
  /\ GeneratorIO.local_num_edges_ io' = SInt.add (GeneratorIO.local_num_edges_ io) 1
  /\ (0 <= GeneratorIO.local_num_edges_ io ->
      GeneratorIO.local_num_edges_ io + 1 < SInt.modulus ->
      GeneratorIO.local_num_edges_ io' = GeneratorIO.local_num_edges_ io + 1)
  /\ (GeneratorIO.edges_ io = [] ->
      GeneratorIO.NumEdges io' = SInt.add (GeneratorIO.local_num_edges_ io) 1 / 2).
Proof.
  intros io' size. subst io' size. unfold GeneratorIO.UpdateDist. simpl.
  repeat split.
  - intros Hlt. apply Z.ltb_lt in Hlt as Hb. rewrite Hb.
    destruct (lookup_lt_is_Some_2 (GeneratorIO.dist_ io) (Z.to_nat node_id))
      as [c Hc]; [lia|].
    exists c. repeat split.
    + exact Hc.
    + rewrite list_lookup_alter_eq, Hc. reflexivity.
    + intros H0 H1. unfold SInt.add. apply wrap_small. lia.
    + intros j Hj. apply list_lookup_alter_ne. congruence.
  - intros Hge. apply Z.ltb_ge in Hge. rewrite Hge. reflexivity.
  - destruct (node_id <? _); [apply length_alter | reflexivity].
  - intros H0 H1. unfold SInt.add. apply wrap_small. lia.
  - intros Hnil. unfold GeneratorIO.NumEdges. simpl. rewrite Hnil. reflexivity.
Qed.

(** A histogram of three entries: vertex 1 is counted, vertex 3 is not. *)
Lemma UpdateDist_frame_witness :
  GeneratorIO.dist_ (GeneratorIO.UpdateDist (GeneratorIO.mk [0; 5; 2] [] 4) 1) = [0; 6; 2]
  /\ GeneratorIO.dist_ (GeneratorIO.UpdateDist (GeneratorIO.mk [0; 5; 2] [] 4) 3) = [0; 5; 2]
  /\ GeneratorIO.local_num_edges_ (GeneratorIO.UpdateDist (GeneratorIO.mk [0; 5; 2] [] 4) 3) = 5.
Proof.
  pose proof (UpdateDist_frame (GeneratorIO.mk [0; 5; 2] [] 4) 3 ltac:(lia)) as H3.
  pose proof (UpdateDist_frame (GeneratorIO.mk [0; 5; 2] [] 4) 1 ltac:(lia)) as H1.
  cbv zeta in H1, H3.
  split; [reflexivity|]. split.
  - apply H3. simpl. lia.
  - apply H3; simpl; unfold SInt.modulus; lia.
Defined.

(** ** The per-edge coin of the grid sampler *)

Section EdgeCoin.
  Context {LPFloat : Type} {R : Randomness LPFloat}.
  Variable g : Grid3D.t LPFloat.

Lemma edge_seed_closed_form (source target : Z) :
  Grid3D.edge_seed g source target
  = SInt.wrap
      (Z.min source target
       * (Grid3D.total_x_ g * Grid3D.total_y_ g * Grid3D.total_z_ g)
       + Z.max source target).
Proof.
  unfold Grid3D.edge_seed, SInt.add, SInt.mul, SInt.wrap.
  Z.mod_equality.
Qed.

Lemma GenerateEdge_emitted (OUTPUT_EDGES : bool) (out : Grid3D.output)
    (source target : Z) :
  Grid3D.emitted (Grid3D.GenerateEdge OUTPUT_EDGES g out source target)
  = Grid3D.emitted out
    ++ (if Grid3D.edge_accepted g source target then [(source, target)] else []).
Proof.
  unfold Grid3D.GenerateEdge.
  destruct (Grid3D.edge_accepted g source target); simpl.
  - reflexivity.
  - rewrite app_nil_r. reflexivity.
Qed.

End EdgeCoin.

(** C1. The emission decision of [GenerateEdge] is symmetric: for all
    vertex ids [u], [v] (in particular those below [X*Y*Z]), both orders
    give the same [edge_seed], which is [min(u,v)*X*Y*Z + max(u,v)] in
    64-bit arithmetic, hence the same hash of [seed + edge_seed] and the same
    outcome of the trial; [GenerateEdge(u,v)] hands [(u,v)] to the callback
    exactly when [GenerateEdge(v,u)] hands [(v,u)] to it.  The decision reads
    nothing but [(u,v)], the seed and the model parameters. *)
Theorem GenerateEdge_symmetric {LPFloat : Type} {R : Randomness LPFloat}
    (g : Grid3D.t LPFloat) (OUTPUT_EDGES : bool) (out out' : Grid3D.output) (u v : Z) :
  Grid3D.edge_seed g u v = Grid3D.edge_seed g v u
  /\ Grid3D.edge_seed g u v
     = SInt.wrap
         (Z.min u v * (Grid3D.total_x_ g * Grid3D.total_y_ g * Grid3D.total_z_ g)
          + Z.max u v)
  /\ Grid3D.edge_hash g u v
     = Spooky_hash (SInt.add (Grid3D.config_seed g) (Grid3D.edge_seed g u v))
  /\ Grid3D.edge_hash g u v = Grid3D.edge_hash g v u
  /\ Grid3D.edge_accepted g u v
     = negb (GenerateBinomial (Grid3D.edge_hash g u v) 1 (Grid3D.edge_probability_ g) =? 0)
  /\ Grid3D.edge_accepted g u v = Grid3D.edge_accepted g v u
  /\ Grid3D.emitted (Grid3D.GenerateEdge OUTPUT_EDGES g out u v)
     = Grid3D.emitted out ++ (if Grid3D.edge_accepted g u v then [(u, v)] else [])
  /\ Grid3D.emitted (Grid3D.GenerateEdge OUTPUT_EDGES g out' v u)
     = Grid3D.emitted out' ++ (if Grid3D.edge_accepted g u v then [(v, u)] else []).
Proof.
  assert (Hseed : Grid3D.edge_seed g u v = Grid3D.edge_seed g v u).
  { rewrite !edge_seed_closed_form, (Z.min_comm u v), (Z.max_comm u v). reflexivity. }
  assert (Hhash : Grid3D.edge_hash g u v = Grid3D.edge_hash g v u).
  { unfold Grid3D.edge_hash. rewrite Hseed. reflexivity. }
  assert (Hacc : Grid3D.edge_accepted g u v = Grid3D.edge_accepted g v u).
  { unfold Grid3D.edge_accepted. rewrite Hhash. reflexivity. }
  repeat split; try assumption; try reflexivity.
  - apply edge_seed_closed_form.
  - apply GenerateEdge_emitted.
  - rewrite Hacc. apply GenerateEdge_emitted.
Qed.

(** ** Assignment of chunks to participants *)

Section ChunkOwnership.

(** The mathematical values of the three results of [owned_chunks]. *)
Definition num_chunks_of (k rank size : Z) : Z :=
  k / size + (if rank <? k mod size then 1 else 0).

Definition start_chunk_of (k rank size : Z) : Z :=
  rank * (k / size) + Z.min rank (k mod size).

Lemma start_chunk_bounds (k rank size : Z) :
  1 <= size -> 0 <= k -> 0 <= rank <= size ->
  0 <= start_chunk_of k rank size <= k.
Proof.
  intros Hs Hk Hr. unfold start_chunk_of.
  pose proof (Z.div_mod k size ltac:(lia)) as Hdm.
  pose proof (Z.mod_pos_bound k size ltac:(lia)) as Hm.
  assert (0 <= k / size) by (apply Z.div_pos; lia).
  split; [nia|].
  destruct (Z.min_spec rank (k mod size)) as [[? ->]|[? ->]]; nia.
Qed.

Lemma start_chunk_next (k rank size : Z) :
  1 <= size -> 0 <= k -> 0 <= rank ->
  start_chunk_of k (rank + 1) size
  = start_chunk_of k rank size + num_chunks_of k rank size.
Proof.
  intros Hs Hk Hr. unfold start_chunk_of, num_chunks_of.
  pose proof (Z.mod_pos_bound k size ltac:(lia)) as Hm.
  destruct (Z.ltb_spec rank (k mod size)); lia.
Qed.

Lemma start_chunk_last (k size : Z) :
  1 <= size -> 0 <= k -> start_chunk_of k size size = k.
Proof.
  intros Hs Hk. unfold start_chunk_of.
  pose proof (Z.div_mod k size ltac:(lia)) as Hdm.
  pose proof (Z.mod_pos_bound k size ltac:(lia)) as Hm.
  rewrite Z.min_r by lia. lia.
Qed.

Lemma num_chunks_nonneg (k rank size : Z) :
  1 <= size -> 0 <= k -> 0 <= num_chunks_of k rank size.
Proof.
  intros Hs Hk. unfold num_chunks_of.
  assert (0 <= k / size) by (apply Z.div_pos; lia).
  destruct (rank <? k mod size); lia.
Qed.

Lemma owned_chunks_exact (k rank size : Z) :
  1 <= size -> 0 <= k < SInt.modulus -> 0 <= rank < size ->
  Grid3D.owned_chunks k rank size
  = (num_chunks_of k rank size,
     start_chunk_of k rank size,
     start_chunk_of k (rank + 1) size).
Proof.
  intros Hs Hk Hr.
  pose proof (start_chunk_bounds k rank size Hs ltac:(lia) ltac:(lia)) as Hb0.
  pose proof (start_chunk_bounds k (rank + 1) size Hs ltac:(lia) ltac:(lia)) as Hb1.
  pose proof (start_chunk_next k rank size Hs ltac:(lia) ltac:(lia)) as Hnext.
  pose proof (num_chunks_nonneg k rank size Hs ltac:(lia)) as Hn0.
  assert (Hnum : SInt.add (k / size) (SInt.of_bool (rank <? k mod size))
                 = num_chunks_of k rank size).
  { unfold SInt.add.
    change (k / size + SInt.of_bool (rank <? k mod size))
      with (num_chunks_of k rank size).
    apply wrap_small. lia. }
  assert (Hstart : SInt.add (SInt.mul rank (num_chunks_of k rank size))
                     (if k mod size <=? rank then k mod size else 0)
                   = start_chunk_of k rank size).
  { unfold SInt.add, SInt.mul, SInt.wrap. rewrite Zplus_mod_idemp_l.
    replace (rank * num_chunks_of k rank size
             + (if k mod size <=? rank then k mod size else 0))
      with (start_chunk_of k rank size).
    - apply Z.mod_small. lia.
    - unfold start_chunk_of, num_chunks_of.
      pose proof (Z.mod_pos_bound k size ltac:(lia)) as Hm.
      destruct (Z.ltb_spec rank (k mod size));
        destruct (Z.leb_spec (k mod size) rank); lia. }
  unfold Grid3D.owned_chunks. cbv zeta. rewrite Hnum, Hstart.
  repeat f_equal. rewrite Hnext. unfold SInt.add. apply wrap_small. lia.
Qed.

End ChunkOwnership.

(** C4, the claim as stated fails: with [k = 8] chunks on [P = 3]
    participants, rank 1 owns [num = 3] chunks starting at chunk 3, not at
    [rank*num + min(rank, k mod P) = 4]. *)
Lemma owned_chunks_start_not_as_claimed :
  exists num start end_,
    Grid3D.owned_chunks 8 1 3 = (num, start, end_)
    /\ num = 8 / 3 + (if 1 <? 8 mod 3 then 1 else 0)
    /\ start = 3
    /\ start <> 1 * num + Z.min 1 (8 mod 3).
Proof.
  exists 3, 3, 6. repeat split. discriminate.
Qed.

(** C4, amended. For [P >= 1] participants, [k >= 1] chunks and [rank] in
    [[0, P)], the participant owns [num = floor(k/P) + (rank < k mod P ? 1 : 0)]
    contiguous chunks; the first one is
    [rank*num + (rank >= k mod P ? k mod P : 0)], which is
    [rank*floor(k/P) + min(rank, k mod P)]; rank 0 starts at chunk 0, each
    next rank starts where the previous one ends, and the last ends at [k]. *)
Theorem owned_chunks_spec (k size rank : Z)
    (Hsize : 1 <= size) (Hk : 1 <= k < SInt.modulus) (Hrank : 0 <= rank < size) :
  exists num start end_,
    Grid3D.owned_chunks k rank size = (num, start, end_)
    /\ num = k / size + (if rank <? k mod size then 1 else 0)
    /\ start = rank * num + (if k mod size <=? rank then k mod size else 0)
    /\ start = rank * (k / size) + Z.min rank (k mod size)
    /\ end_ = start + num
    /\ (rank = 0 -> start = 0)
    /\ (rank + 1 < size ->
        snd (fst (Grid3D.owned_chunks k (rank + 1) size)) = end_)
    /\ (rank + 1 = size -> end_ = k).
Proof.
  exists (num_chunks_of k rank size), (start_chunk_of k rank size),
         (start_chunk_of k (rank + 1) size).
  pose proof (Z.mod_pos_bound k size ltac:(lia)) as Hm.
  split; [apply owned_chunks_exact; lia|].
  split; [reflexivity|].
  split.
  { unfold start_chunk_of, num_chunks_of.
    destruct (Z.ltb_spec rank (k mod size));
      destruct (Z.leb_spec (k mod size) rank); lia. }
  split; [reflexivity|].
  split; [apply start_chunk_next; lia|].
  split.
  { intros ->. unfold start_chunk_of. rewrite Z.min_l by lia. lia. }
  split.
  { intros Hnext. rewrite owned_chunks_exact by lia. reflexivity. }
  intros Hlast. rewrite Hlast. apply start_chunk_last; lia.
Qed.

(** Eight chunks on three participants: rank 1 owns chunks 3, 4 and 5. *)
Lemma owned_chunks_spec_witness :
  exists num start end_,
    Grid3D.owned_chunks 8 1 3 = (num, start, end_)
    /\ num = 3 /\ start = 3 /\ end_ = 6.
Proof.
  destruct (owned_chunks_spec 8 3 1 ltac:(lia) ltac:(unfold SInt.modulus; lia)
              ltac:(lia))
    as (num & start & end_ & Heq & Hnum & _ & Hstart & Hend & _).
  exists num, start, end_. split; [exact Heq|].
  inversion Heq. repeat split.
Defined.

(** ** Cube roots for concrete runs

A concrete run needs a concrete library.  [integer_cbrt] is the cube
root rounded down, computed bit by bit (a 64-bit argument has a cube
root below [2^22]): a library whose [cbrt] never falls below the root
of a perfect cube.  The runs below use it for 1, 2 and 8 chunks, where
the GNU C library returns the same values.  [short_cube_root] falls
short at one argument: it returns 14 for [k = 3375 = 15^3], as the GNU C
library does, whose [cbrt(3375.0)] is [14.999999999999998]. *)

Fixpoint cbrt_bits (i : nat) (r k : Z) : Z :=
  match i with
  | O => r
  | S i' =>
      let r' := r + 2 ^ Z.of_nat i' in
      cbrt_bits i' (if r' * r' * r' <=? k then r' else r) k
  end.

Definition integer_cbrt (k : Z) : Z := cbrt_bits 22 0 k.

Definition exact_cube_root : CubeRoot := {| cbrt := integer_cbrt |}.

Definition short_cube_root : CubeRoot :=
  {| cbrt := fun k => if k =? 3375 then 14 else integer_cbrt k |}.

(** A platform on which the histogram can always be allocated. *)
Definition ample : Memory := {| resizable := fun _ => true |}.

Section IntegerCubeRoot.

Lemma cube_le_mono (a b : Z) : 0 <= a <= b -> a * a * a <= b * b * b.
Proof.
  intros [Ha Hab].
  assert (a * a <= b * b) by (apply Z.mul_le_mono_nonneg; lia).
  apply Z.mul_le_mono_nonneg; nia.
Qed.

Lemma cube_lt_inv (a b : Z) : 0 <= a -> 0 <= b -> a * a * a < b * b * b -> a < b.
Proof.
  intros Ha Hb Hlt. destruct (Z.lt_ge_cases a b) as [|Hge]; [assumption|].
  pose proof (cube_le_mono b a ltac:(lia)). lia.
Qed.

(** The invariant of the bitwise search: the root lies in
    [[r, r + 2^i)]. *)
Lemma cbrt_bits_spec (i : nat) : forall r k,
  0 <= r -> r * r * r <= k ->
  k < (r + 2 ^ Z.of_nat i) * (r + 2 ^ Z.of_nat i) * (r + 2 ^ Z.of_nat i) ->
  let s := cbrt_bits i r k in
  0 <= s /\ s * s * s <= k < (s + 1) * (s + 1) * (s + 1).
Proof.
  induction i as [|i IH]; intros r k Hr Hlo Hhi.
  - simpl in *. lia.
  - cbn [cbrt_bits]. cbv zeta.
    assert (Hpow : 2 ^ Z.of_nat (S i) = 2 ^ Z.of_nat i + 2 ^ Z.of_nat i).
    { rewrite Nat2Z.inj_succ, Z.pow_succ_r by lia. lia. }
    assert (Hp : 0 < 2 ^ Z.of_nat i) by (apply Z.pow_pos_nonneg; lia).
    rewrite Hpow in Hhi.
    set (r' := r + 2 ^ Z.of_nat i) in *.
    destruct (Z.leb_spec (r' * r' * r') k) as [Hle|Hgt].
    + apply IH; [lia | exact Hle |].
      replace (r' + 2 ^ Z.of_nat i) with (r + (2 ^ Z.of_nat i + 2 ^ Z.of_nat i))
        by (subst r'; lia).
      exact Hhi.
    + apply IH; [exact Hr | exact Hlo | exact Hgt].
Qed.

Lemma integer_cbrt_spec (k : Z) :
  0 <= k < SInt.modulus ->
  0 <= integer_cbrt k
  /\ integer_cbrt k * integer_cbrt k * integer_cbrt k <= k
     < (integer_cbrt k + 1) * (integer_cbrt k + 1) * (integer_cbrt k + 1).
Proof.
  intros Hk. unfold integer_cbrt.
  apply (cbrt_bits_spec 22 0 k); [lia | lia |].
  unfold SInt.modulus in Hk. simpl. lia.
Qed.

Lemma integer_cbrt_cube (d : Z) :
  0 <= d -> d * d * d < SInt.modulus -> integer_cbrt (d * d * d) = d.
Proof.
  intros Hd Hfit.
  assert (0 <= d * d * d) by nia.
  destruct (integer_cbrt_spec (d * d * d) ltac:(lia)) as [Hs [Hlo Hhi]].
  set (s := integer_cbrt (d * d * d)) in *.
  assert (s < d + 1).
  { apply cube_lt_inv; [lia | lia |]. 
    pose proof (cube_le_mono d d ltac:(lia)). lia. }
  assert (d < s + 1) by (apply cube_lt_inv; lia).
  lia.
Qed.

End IntegerCubeRoot.

(** ** One axis of the chunk decomposition

Along an axis of [total] cells cut into [d] chunks, chunk [c] starts at
cell [c * per + min(c, rem)] and holds [per + (c < rem)] cells, where
[per = total / d] and [rem = total mod d]. *)

Section Axis.

Definition axis_start (per rem c : Z) : Z := c * per + Z.min c rem.

Definition axis_len (per rem c : Z) : Z := per + (if c <? rem then 1 else 0).

Variables total d : Z.
Hypothesis Hd : 1 <= d.
Hypothesis Htotal : 0 <= total.

Let per := total / d.
Let rem := total mod d.

Lemma axis_div_mod : total = d * per + rem /\ 0 <= rem < d /\ 0 <= per.
Proof.
  subst per rem. split; [apply Z.div_mod; lia|].
  split; [apply Z.mod_pos_bound; lia | apply Z.div_pos; lia].
Qed.

Lemma axis_start_0 : axis_start per rem 0 = 0.
Proof.
  destruct axis_div_mod as (_ & Hrem & _). unfold axis_start.
  rewrite Z.min_l by lia. lia.
Qed.

Lemma axis_start_succ (c : Z) :
  axis_start per rem (c + 1) = axis_start per rem c + axis_len per rem c.
Proof.
  unfold axis_start, axis_len. destruct (Z.ltb_spec c rem); lia.
Qed.

Lemma axis_start_top : axis_start per rem d = total.
Proof.
  destruct axis_div_mod as (Htot & Hrem & _). unfold axis_start.
  rewrite Z.min_r by lia. lia.
Qed.

Lemma axis_len_nonneg (c : Z) : 0 <= axis_len per rem c.
Proof.
  destruct axis_div_mod as (_ & _ & Hper). unfold axis_len.
  destruct (c <? rem); lia.
Qed.

Lemma axis_start_mono (c c' : Z) :
  c <= c' -> axis_start per rem c <= axis_start per rem c'.
Proof.
  destruct axis_div_mod as (_ & _ & Hper). intros Hle. unfold axis_start.
  assert (c * per <= c' * per) by nia. lia.
Qed.

Lemma axis_start_bounds (c : Z) :
  0 <= c <= d -> 0 <= axis_start per rem c <= total.
Proof.
  intros [H0 H1].
  pose proof (axis_start_mono 0 c H0). pose proof (axis_start_mono c d H1).
  pose proof axis_start_0. pose proof axis_start_top. lia.
Qed.

Lemma axis_next_bounds (c : Z) :
  0 <= c < d ->
  0 <= axis_start per rem c
  /\ axis_start per rem c + axis_len per rem c <= total.
Proof.
  intros Hc. rewrite <- axis_start_succ.
  pose proof (axis_start_bounds c ltac:(lia)).
  pose proof (axis_start_bounds (c + 1) ltac:(lia)). lia.
Qed.

(** The first chunk of an axis with at least one cell is not empty. *)
Lemma axis_len_first : 1 <= total -> 1 <= axis_len per rem 0.
Proof.
  destruct axis_div_mod as (Htot & Hrem & Hper). intros H1. unfold axis_len.
  destruct (Z.ltb_spec 0 rem); [lia|].
  assert (rem = 0) by lia. nia.
Qed.

(** No chunk is empty when there are at least as many cells as chunks. *)
Lemma axis_len_pos (c : Z) : d <= total -> 1 <= axis_len per rem c.
Proof.
  destruct axis_div_mod as (Htot & Hrem & Hper). intros Hle. unfold axis_len.
  assert (1 <= per) by nia. destruct (c <? rem); lia.
Qed.

Lemma axis_len_antitone (c c' : Z) :
  c <= c' -> axis_len per rem c' <= axis_len per rem c.
Proof.
  intros Hle. unfold axis_len.
  destruct (Z.ltb_spec c rem); destruct (Z.ltb_spec c' rem); lia.
Qed.

End Axis.

(** ** Chunk ids and their coordinates *)

Section ChunkCoordinates.
  Variable d : Z.
  Hypothesis Hd : 1 <= d.

Lemma decode_encode (x y z : Z) :
  0 <= x < d -> 0 <= y < d -> 0 <= z ->
  let c := x + y * d + z * (d * d) in
  c mod d = x /\ (c / d) mod d = y /\ c / (d * d) = z.
Proof.
  intros Hx Hy Hz c.
  assert (Hq : c / d = y + z * d).
  { symmetry. apply (Z.div_unique c d (y + z * d) x); [lia | subst c; ring]. }
  assert (Hr : c mod d = x).
  { symmetry. apply (Z.mod_unique c d (y + z * d) x); [lia | subst c; ring]. }
  split; [exact Hr|]. rewrite <- Z.div_div by lia. rewrite Hq. split.
  - symmetry. apply (Z.mod_unique (y + z * d) d z y); [lia | ring].
  - symmetry. apply (Z.div_unique (y + z * d) d z y); [lia | ring].
Qed.

Lemma encode_decode (c : Z) :
  0 <= c ->
  c = c mod d + (c / d) mod d * d + c / (d * d) * (d * d)
  /\ 0 <= c mod d < d /\ 0 <= (c / d) mod d < d /\ 0 <= c / (d * d).
Proof.
  intros Hc.
  pose proof (Z.div_mod c d ltac:(lia)) as H1.
  pose proof (Z.div_mod (c / d) d ltac:(lia)) as H2.
  pose proof (Z.mod_pos_bound c d ltac:(lia)) as H3.
  pose proof (Z.mod_pos_bound (c / d) d ltac:(lia)) as H4.
  assert (H5 : 0 <= c / (d * d)) by (apply Z.div_pos; nia).
  rewrite <- Z.div_div in * by lia.
  repeat split; lia.
Qed.

Lemma decode_z_bound (c : Z) :
  0 <= c < d * d * d -> c / (d * d) < d.
Proof.
  intros Hc. apply Z.div_lt_upper_bound; nia.
Qed.

Lemma decode_top :
  let c := d * d * d in
  c mod d = 0 /\ (c / d) mod d = 0 /\ c / (d * d) = d.
Proof.
  pose proof (decode_encode 0 0 d ltac:(lia) ltac:(lia) ltac:(lia)) as H.
  cbv zeta in *. replace (d * d * d) with (0 + 0 * d + d * (d * d)) by ring.
  exact H.
Qed.

(** The coordinates of the next chunk id: a three-digit increment in
    base [d]. *)
Lemma decode_succ (c : Z) :
  0 <= c ->
  let x := c mod d in
  let y := (c / d) mod d in
  let z := c / (d * d) in
  let c' := c + 1 in
  (c' mod d, (c' / d) mod d, c' / (d * d))
  = if x + 1 <? d then (x + 1, y, z)
    else if y + 1 <? d then (0, y + 1, z)
    else (0, 0, z + 1).
Proof.
  intros Hc x y z c'.
  destruct (encode_decode c Hc) as (Heq & Hx & Hy & Hz).
  fold x y z in Heq, Hx, Hy, Hz.
  destruct (Z.ltb_spec (x + 1) d) as [Hx1|Hx1].
  - destruct (decode_encode (x + 1) y z ltac:(lia) ltac:(lia) ltac:(lia))
      as (E1 & E2 & E3).
    replace (x + 1 + y * d + z * (d * d)) with c' in * by (subst c'; lia).
    rewrite E1, E2, E3. reflexivity.
  - destruct (Z.ltb_spec (y + 1) d) as [Hy1|Hy1].
    + destruct (decode_encode 0 (y + 1) z ltac:(lia) ltac:(lia) ltac:(lia))
        as (E1 & E2 & E3).
      replace (0 + (y + 1) * d + z * (d * d)) with c' in * by (subst c'; nia).
      rewrite E1, E2, E3. reflexivity.
    + destruct (decode_encode 0 0 (z + 1) ltac:(lia) ltac:(lia) ltac:(lia))
        as (E1 & E2 & E3).
      replace (0 + 0 * d + (z + 1) * (d * d)) with c' in * by (subst c'; nia).
      rewrite E1, E2, E3. reflexivity.
Qed.

End ChunkCoordinates.

(** ** The chunk decomposition of the lattice *)

(** A step-wise nondecreasing function on an interval is monotone on it. *)
Lemma stepwise_mono (f : Z -> Z) (a b : Z) :
  (forall c, a <= c < b -> f c <= f (c + 1)) ->
  forall c c', a <= c -> c <= c' -> c' <= b -> f c <= f c'.
Proof.
  intros Hstep c c' Hac Hcc' Hc'b.
  replace c' with (c + Z.of_nat (Z.to_nat (c' - c))) in * by lia.
  induction (Z.to_nat (c' - c)) as [|m IH].
  - simpl. rewrite Z.add_0_r. lia.
  - rewrite Nat2Z.inj_succ in *.
    specialize (IH ltac:(lia) ltac:(lia)).
    specialize (Hstep (c + Z.of_nat m) ltac:(lia)).
    replace (c + Z.succ (Z.of_nat m)) with (c + Z.of_nat m + 1) by lia. lia.
Qed.

Section Geometry.
  Context {LPFloat : Type}.
  Variable g : Grid3D.t LPFloat.

(** The state left by [Generate()]'s initialisation for a grid of at
    least one cell per axis, cut into [d^3] chunks. *)
Record wf : Prop := mkWf {
  wf_d : 1 <= Grid3D.chunks_per_dim_ g;
  wf_k : Grid3D.total_chunks_ g
         = Grid3D.chunks_per_dim_ g * Grid3D.chunks_per_dim_ g * Grid3D.chunks_per_dim_ g;
  wf_k_fits : Grid3D.total_chunks_ g < SInt.modulus;
  wf_x : 1 <= Grid3D.total_x_ g < SInt.modulus;
  wf_y : 1 <= Grid3D.total_y_ g < SInt.modulus;
  wf_z : 1 <= Grid3D.total_z_ g < SInt.modulus;
  wf_x_per : Grid3D.x_per_chunk_ g = Grid3D.total_x_ g / Grid3D.chunks_per_dim_ g;
  wf_y_per : Grid3D.y_per_chunk_ g = Grid3D.total_y_ g / Grid3D.chunks_per_dim_ g;
  wf_z_per : Grid3D.z_per_chunk_ g = Grid3D.total_z_ g / Grid3D.chunks_per_dim_ g;
  wf_x_rem : Grid3D.remaining_x_ g = Grid3D.total_x_ g mod Grid3D.chunks_per_dim_ g;
  wf_y_rem : Grid3D.remaining_y_ g = Grid3D.total_y_ g mod Grid3D.chunks_per_dim_ g;
  wf_z_rem : Grid3D.remaining_z_ g = Grid3D.total_z_ g mod Grid3D.chunks_per_dim_ g
}.

(** Chunk coordinates and per-axis data, as mathematical integers. *)
Definition cx_of (c : Z) : Z := c mod Grid3D.chunks_per_dim_ g.
Definition cy_of (c : Z) : Z :=
  (c / Grid3D.chunks_per_dim_ g) mod Grid3D.chunks_per_dim_ g.
Definition cz_of (c : Z) : Z :=
  c / (Grid3D.chunks_per_dim_ g * Grid3D.chunks_per_dim_ g).

Definition x_start (cx : Z) := axis_start (Grid3D.x_per_chunk_ g) (Grid3D.remaining_x_ g) cx.
Definition y_start (cy : Z) := axis_start (Grid3D.y_per_chunk_ g) (Grid3D.remaining_y_ g) cy.
Definition z_start (cz : Z) := axis_start (Grid3D.z_per_chunk_ g) (Grid3D.remaining_z_ g) cz.
Definition x_len (cx : Z) := axis_len (Grid3D.x_per_chunk_ g) (Grid3D.remaining_x_ g) cx.
Definition y_len (cy : Z) := axis_len (Grid3D.y_per_chunk_ g) (Grid3D.remaining_y_ g) cy.
Definition z_len (cz : Z) := axis_len (Grid3D.z_per_chunk_ g) (Grid3D.remaining_z_ g) cz.

(** The number of lattice cells of the chunk with coordinates
    [(cx, cy, cz)]. *)
Definition cells (cx cy cz : Z) : Z := x_len cx * y_len cy * z_len cz.

(** The inclusion-exclusion count of [OffsetForChunk], over [Z]. *)
Definition offset_at (cx cy cz : Z) : Z :=
  let X := Grid3D.total_x_ g in
  let Y := Grid3D.total_y_ g in
  let vx := x_start cx in
  let vy := y_start cy in
  let vz := z_start cz in
  let ny := y_start (cy + 1) in
  let nz := z_start (cz + 1) in
  X * vy * nz + X * Y * vz + vx * ny * nz
  - (X * vy * vz + vx * vy * nz + vx * ny * vz)
  + vx * vy * vz.

Definition offset_of (c : Z) : Z := offset_at (cx_of c) (cy_of c) (cz_of c).

(** The vertex count [X*Y*Z] is representable as an [SInt]. *)
Definition fits : Prop :=
  Grid3D.total_x_ g * Grid3D.total_y_ g * Grid3D.total_z_ g < SInt.modulus.

Definition cells_of (c : Z) : Z := cells (cx_of c) (cy_of c) (cz_of c).

Hypothesis Hwf : wf.

Let d := Grid3D.chunks_per_dim_ g.
Let X := Grid3D.total_x_ g.
Let Y := Grid3D.total_y_ g.
Let Z' := Grid3D.total_z_ g.

Lemma dims_fit : X < SInt.modulus /\ Y < SInt.modulus /\ Z' < SInt.modulus.
Proof.
  destruct Hwf. subst X Y Z'. lia.
Qed.

Lemma d_fits : d * d < SInt.modulus /\ d + 1 < SInt.modulus.
Proof.
  destruct Hwf. subst d. rewrite wf_k0 in wf_k_fits0.
  revert wf_d0 wf_k_fits0. generalize (Grid3D.chunks_per_dim_ g).
  intros d ? ?.
  assert (d * d <= d * d * d) by nia.
  assert (d = 1 \/ d + 1 <= d * d) by nia.
  unfold SInt.modulus in *. lia.
Qed.

Lemma Decode_exact (c : Z) : Grid3D.Decode g c = (cx_of c, cy_of c, cz_of c).
Proof.
  unfold Grid3D.Decode, cx_of, cy_of, cz_of. cbv zeta.
  unfold SInt.mul. rewrite wrap_small; [reflexivity|].
  pose proof d_fits. pose proof (wf_d Hwf). subst d. nia.
Qed.

Lemma coords_range (c : Z) :
  0 <= c < Grid3D.total_chunks_ g ->
  0 <= cx_of c < d /\ 0 <= cy_of c < d /\ 0 <= cz_of c < d.
Proof.
  intros Hc. pose proof (wf_d Hwf) as Hd. rewrite (wf_k Hwf) in Hc.
  destruct (encode_decode d Hd c ltac:(lia)) as (_ & Hx & Hy & Hz).
  pose proof (decode_z_bound d Hd c Hc).
  unfold cx_of, cy_of, cz_of. subst d. lia.
Qed.

Lemma coords_top :
  cx_of (Grid3D.total_chunks_ g) = 0
  /\ cy_of (Grid3D.total_chunks_ g) = 0
  /\ cz_of (Grid3D.total_chunks_ g) = d.
Proof.
  rewrite (wf_k Hwf). apply (decode_top d (wf_d Hwf)).
Qed.

Lemma coords_range_incl (c : Z) :
  0 <= c <= Grid3D.total_chunks_ g ->
  0 <= cx_of c < d /\ 0 <= cy_of c < d /\ 0 <= cz_of c <= d.
Proof.
  intros Hc. destruct (Z.eq_dec c (Grid3D.total_chunks_ g)) as [->|Hne].
  - destruct coords_top as (-> & -> & ->). pose proof (wf_d Hwf). subst d. lia.
  - pose proof (coords_range c ltac:(lia)). lia.
Qed.

Lemma axis_len_le_total (total c : Z) :
  0 <= total -> 0 <= c -> 0 <= axis_len (total / d) (total mod d) c <= total.
Proof.
  intros Ht Hc. pose proof (wf_d Hwf) as Hd. fold d in Hd.
  destruct (axis_div_mod total d Hd Ht) as (Htot & Hrem & Hper).
  unfold axis_len. destruct (Z.ltb_spec c (total mod d)); nia.
Qed.

(** Per-axis facts, instantiated at the three axes. *)
Lemma x_axis (cx : Z) :
  x_start 0 = 0 /\ x_start d = X
  /\ x_start (cx + 1) = x_start cx + x_len cx
  /\ (0 <= cx -> 0 <= x_len cx <= X)
  /\ (0 <= cx <= d -> 0 <= x_start cx <= X).
Proof.
  pose proof (wf_d Hwf) as Hd. pose proof (wf_x Hwf) as Hx.
  unfold x_start, x_len. rewrite (wf_x_per Hwf), (wf_x_rem Hwf).
  fold d in Hd. fold X in Hx. fold d X.
  split; [apply axis_start_0; lia|].
  split; [apply axis_start_top; lia|].
  split; [apply axis_start_succ|].
  split; [apply axis_len_le_total; lia|].
  apply axis_start_bounds; lia.
Qed.

Lemma y_axis (cy : Z) :
  y_start 0 = 0 /\ y_start d = Y
  /\ y_start (cy + 1) = y_start cy + y_len cy
  /\ (0 <= cy -> 0 <= y_len cy <= Y)
  /\ (0 <= cy <= d -> 0 <= y_start cy <= Y).
Proof.
  pose proof (wf_d Hwf) as Hd. pose proof (wf_y Hwf) as Hy.
  unfold y_start, y_len. rewrite (wf_y_per Hwf), (wf_y_rem Hwf).
  fold d in Hd. fold Y in Hy. fold d Y.
  split; [apply axis_start_0; lia|].
  split; [apply axis_start_top; lia|].
  split; [apply axis_start_succ|].
  split; [apply axis_len_le_total; lia|].
  apply axis_start_bounds; lia.
Qed.

Lemma z_axis (cz : Z) :
  z_start 0 = 0 /\ z_start d = Z'
  /\ z_start (cz + 1) = z_start cz + z_len cz
  /\ (0 <= cz -> 0 <= z_len cz <= Z')
  /\ (0 <= cz <= d -> 0 <= z_start cz <= Z').
Proof.
  pose proof (wf_d Hwf) as Hd. pose proof (wf_z Hwf) as Hz.
  unfold z_start, z_len. rewrite (wf_z_per Hwf), (wf_z_rem Hwf).
  fold d in Hd. fold Z' in Hz. fold d Z'.
  split; [apply axis_start_0; lia|].
  split; [apply axis_start_top; lia|].
  split; [apply axis_start_succ|].
  split; [apply axis_len_le_total; lia|].
  apply axis_start_bounds; lia.
Qed.

Lemma coords_nonneg (c : Z) :
  0 <= c -> 0 <= cx_of c < d /\ 0 <= cy_of c < d /\ 0 <= cz_of c.
Proof.
  intros Hc. pose proof (wf_d Hwf) as Hd.
  destruct (encode_decode d Hd c Hc) as (_ & Hx & Hy & Hz).
  unfold cx_of, cy_of, cz_of. subst d. lia.
Qed.

Lemma chunk_extents_exact (c : Z) :
  0 <= c ->
  Grid3D.chunk_extents g c = (x_len (cx_of c), y_len (cy_of c), z_len (cz_of c)).
Proof.
  intros Hc. unfold Grid3D.chunk_extents. rewrite Decode_exact.
  destruct dims_fit as (HX & HY & HZ).
  destruct (coords_nonneg c Hc) as (Hcx & Hcy & Hcz).
  destruct (x_axis (cx_of c)) as (_ & _ & _ & Hxl & _).
  destruct (y_axis (cy_of c)) as (_ & _ & _ & Hyl & _).
  destruct (z_axis (cz_of c)) as (_ & _ & _ & Hzl & _).
  specialize (Hxl ltac:(lia)). specialize (Hyl ltac:(lia)).
  specialize (Hzl ltac:(lia)).
  unfold SInt.add, SInt.of_bool.
  fold (axis_len (Grid3D.x_per_chunk_ g) (Grid3D.remaining_x_ g) (cx_of c)).
  fold (axis_len (Grid3D.y_per_chunk_ g) (Grid3D.remaining_y_ g) (cy_of c)).
  fold (axis_len (Grid3D.z_per_chunk_ g) (Grid3D.remaining_z_ g) (cz_of c)).
  fold (x_len (cx_of c)) (y_len (cy_of c)) (z_len (cz_of c)).
  rewrite !wrap_small by lia. reflexivity.
Qed.

(** [OffsetForChunk] is the inclusion-exclusion count modulo [2^64]. *)
Lemma OffsetForChunk_wrap (c : Z) :
  0 <= c <= Grid3D.total_chunks_ g ->
  Grid3D.OffsetForChunk g c = SInt.wrap (offset_of c).
Proof.
  intros Hc. unfold Grid3D.OffsetForChunk. rewrite Decode_exact.
  destruct (coords_range_incl c Hc) as (Hx & Hy & Hz).
  destruct d_fits as (_ & Hdfit).
  assert (Ey : SInt.add (cy_of c) 1 = cy_of c + 1)
    by (unfold SInt.add; apply wrap_small; lia).
  assert (Ez : SInt.add (cz_of c) 1 = cz_of c + 1)
    by (unfold SInt.add; apply wrap_small; lia).
  rewrite Ey, Ez.
  unfold offset_of, offset_at, x_start, y_start, z_start, axis_start.
  generalize (Z.min (cx_of c) (Grid3D.remaining_x_ g)).
  generalize (Z.min (cy_of c) (Grid3D.remaining_y_ g)).
  generalize (Z.min (cz_of c) (Grid3D.remaining_z_ g)).
  generalize (Z.min (cy_of c + 1) (Grid3D.remaining_y_ g)).
  generalize (Z.min (cz_of c + 1) (Grid3D.remaining_z_ g)).
  generalize (cx_of c), (cy_of c), (cz_of c).
  generalize (Grid3D.x_per_chunk_ g), (Grid3D.y_per_chunk_ g), (Grid3D.z_per_chunk_ g).
  generalize (Grid3D.total_x_ g), (Grid3D.total_y_ g).
  intros. unfold SInt.add, SInt.sub, SInt.mul, SInt.wrap.
  Z.mod_equality.
Qed.

Lemma offset_at_factored (cx cy cz : Z) :
  offset_at cx cy cz
  = X * Y * z_start cz + X * y_start cy * z_len cz
    + x_start cx * y_len cy * z_len cz.
Proof.
  unfold offset_at.
  destruct (y_axis cy) as (_ & _ & -> & _).
  destruct (z_axis cz) as (_ & _ & -> & _).
  subst X Y. ring.
Qed.

Lemma coords_succ (c : Z) :
  0 <= c ->
  (cx_of (c + 1), cy_of (c + 1), cz_of (c + 1))
  = if cx_of c + 1 <? d then (cx_of c + 1, cy_of c, cz_of c)
    else if cy_of c + 1 <? d then (0, cy_of c + 1, cz_of c)
    else (0, 0, cz_of c + 1).
Proof.
  intros Hc. apply (decode_succ d (wf_d Hwf) c Hc).
Qed.

(** Consecutive offsets differ by the cells of the chunk between them. *)
Lemma offset_step (c : Z) :
  0 <= c < Grid3D.total_chunks_ g ->
  offset_of (c + 1) = offset_of c + cells_of c.
Proof.
  intros Hc. destruct (coords_range c Hc) as (Hx & Hy & Hz).
  pose proof (coords_succ c ltac:(lia)) as Hs.
  unfold offset_of, cells_of, cells.
  rewrite !offset_at_factored.
  destruct (x_axis (cx_of c)) as (Hx0 & Hxd & Hxs & _).
  destruct (y_axis (cy_of c)) as (Hy0 & Hyd & Hys & _).
  destruct (z_axis (cz_of c)) as (Hz0 & Hzd & Hzs & _).
  destruct (Z.ltb_spec (cx_of c + 1) d) as [Hx1|Hx1].
  - injection Hs as -> -> ->. rewrite Hxs. ring.
  - assert (Ex : cx_of c + 1 = d) by lia.
    rewrite Ex, Hxd in Hxs. subst X Y Z'.
    destruct (Z.ltb_spec (cy_of c + 1) d) as [Hy1|Hy1].
    + injection Hs as -> -> ->. rewrite Hx0, Hys, Hxs. ring.
    + assert (Ey : cy_of c + 1 = d) by lia.
      rewrite Ey, Hyd in Hys.
      injection Hs as -> -> ->. rewrite Hx0, Hy0, Hzs, Hxs, Hys. ring.
Qed.

Lemma offset_of_0 : offset_of 0 = 0.
Proof.
  unfold offset_of. rewrite offset_at_factored.
  pose proof (wf_d Hwf) as Hd. fold d in Hd.
  assert (E : cx_of 0 = 0 /\ cy_of 0 = 0 /\ cz_of 0 = 0).
  { unfold cx_of, cy_of, cz_of. fold d.
    rewrite !Z.div_0_l, !Z.mod_0_l by nia. repeat split. }
  destruct E as (-> & -> & ->).
  destruct (x_axis 0) as (-> & _). destruct (y_axis 0) as (-> & _).
  destruct (z_axis 0) as (-> & _). ring.
Qed.

Lemma offset_of_top :
  offset_of (Grid3D.total_chunks_ g) = X * Y * Z'.
Proof.
  unfold offset_of. rewrite offset_at_factored.
  destruct coords_top as (-> & -> & ->).
  destruct (x_axis 0) as (-> & _). destruct (y_axis 0) as (-> & _).
  destruct (z_axis 0) as (_ & -> & _). ring.
Qed.

Lemma cells_of_nonneg (c : Z) : 0 <= c -> 0 <= cells_of c.
Proof.
  intros Hc. destruct (coords_nonneg c Hc) as (Hcx & Hcy & Hcz).
  destruct (x_axis (cx_of c)) as (_ & _ & _ & Hxl & _).
  destruct (y_axis (cy_of c)) as (_ & _ & _ & Hyl & _).
  destruct (z_axis (cz_of c)) as (_ & _ & _ & Hzl & _).
  unfold cells_of, cells.
  apply Z.mul_nonneg_nonneg; [apply Z.mul_nonneg_nonneg|]; lia.
Qed.

Lemma offset_mono (c c' : Z) :
  0 <= c -> c <= c' -> c' <= Grid3D.total_chunks_ g ->
  offset_of c <= offset_of c'.
Proof.
  apply (stepwise_mono offset_of 0 (Grid3D.total_chunks_ g)).
  intros b Hb. rewrite offset_step by lia.
  pose proof (cells_of_nonneg b ltac:(lia)). lia.
Qed.

Lemma offset_bounds (c : Z) :
  0 <= c <= Grid3D.total_chunks_ g ->
  0 <= offset_of c <= X * Y * Z'.
Proof.
  intros Hc. rewrite <- offset_of_0 at 1. rewrite <- offset_of_top.
  split; apply offset_mono; lia.
Qed.

(** With a vertex count that fits 64 bits, [OffsetForChunk] is exact. *)
Lemma OffsetForChunk_exact (c : Z) :
  fits ->
  0 <= c <= Grid3D.total_chunks_ g ->
  Grid3D.OffsetForChunk g c = offset_of c.
Proof.
  intros Hfit Hc. rewrite OffsetForChunk_wrap by assumption.
  apply wrap_small. pose proof (offset_bounds c Hc).
  unfold fits in Hfit. subst X Y Z'. lia.
Qed.

(** The first chunk holds at least one cell. *)
Lemma offset_of_1_pos : 1 <= offset_of 1.
Proof.
  pose proof (wf_d Hwf) as Hd.
  assert (Hk : 0 <= 0 < Grid3D.total_chunks_ g)
    by (rewrite (wf_k Hwf); nia).
  change 1 with (0 + 1) at 2. rewrite (offset_step 0 Hk), offset_of_0.
  unfold cells_of, cells.
  replace (cx_of 0) with 0 by (unfold cx_of; rewrite Z.mod_0_l; lia).
  replace (cy_of 0) with 0
    by (unfold cy_of; rewrite Z.div_0_l, Z.mod_0_l; lia).
  replace (cz_of 0) with 0 by (unfold cz_of; rewrite Z.div_0_l; nia).
  unfold x_len, y_len, z_len.
  rewrite (wf_x_per Hwf), (wf_y_per Hwf), (wf_z_per Hwf).
  rewrite (wf_x_rem Hwf), (wf_y_rem Hwf), (wf_z_rem Hwf).
  pose proof (wf_x Hwf) as Hx. pose proof (wf_y Hwf) as Hy.
  pose proof (wf_z Hwf) as Hz.
  pose proof (axis_len_first (Grid3D.total_x_ g) _ Hd ltac:(lia) ltac:(lia)).
  pose proof (axis_len_first (Grid3D.total_y_ g) _ Hd ltac:(lia) ltac:(lia)).
  pose proof (axis_len_first (Grid3D.total_z_ g) _ Hd ltac:(lia) ltac:(lia)).
  nia.
Qed.

End Geometry.

(** ** The state built by [Generate()] *)

Section Initialisation.
  Context {LPFloat : Type} {C : CubeRoot}.

(** A configuration of the 3D grid with [k = d^3] chunks, on which the
    library's cube root is exact ([chunks_per_dim_] comes out as [d]), and
    with at least one cell along each axis. *)
Record valid_grid (config : PGeneratorConfig LPFloat) (d : Z) : Prop := mkValid {
  valid_d : 1 <= d;
  valid_k : cfg_k config = d * d * d;
  valid_k_fits : d * d * d < SInt.modulus;
  valid_root : cbrt (cfg_k config) = d;
  valid_x : 1 <= cfg_grid_x config < SInt.modulus;
  valid_y : 1 <= cfg_grid_y config < SInt.modulus;
  valid_z : 1 <= cfg_grid_z config < SInt.modulus
}.

(** The members that [Generate()] copies or derives from the
    configuration. *)
Record initialised (config : PGeneratorConfig LPFloat) (rank size d : Z)
    (g : Grid3D.t LPFloat) : Prop := mkInitialised {
  init_d : Grid3D.chunks_per_dim_ g = d;
  init_k : Grid3D.total_chunks_ g = cfg_k config;
  init_x : Grid3D.total_x_ g = cfg_grid_x config;
  init_y : Grid3D.total_y_ g = cfg_grid_y config;
  init_z : Grid3D.total_z_ g = cfg_grid_z config;
  init_n : Grid3D.config_n g
           = SInt.wrap (cfg_grid_x config * cfg_grid_y config * cfg_grid_z config);
  init_periodic : Grid3D.config_periodic g = cfg_periodic config;
  init_start :
    Grid3D.start_node_ g
    = Grid3D.OffsetForChunk g (snd (fst (Grid3D.owned_chunks (cfg_k config) rank size)));
  init_end :
    Grid3D.end_node_ g
    = Grid3D.OffsetForChunk g (snd (Grid3D.owned_chunks (cfg_k config) rank size));
  init_num : Grid3D.num_nodes_ g = SInt.sub (Grid3D.end_node_ g) (Grid3D.start_node_ g)
}.

(** The geometry members as [Init] sets them, the node range still unset. *)
Definition grid_of (config : PGeneratorConfig LPFloat) (d : Z) : Grid3D.t LPFloat :=
  let X := cfg_grid_x config in
  let Y := cfg_grid_y config in
  let Z' := cfg_grid_z config in
  Grid3D.mk (SInt.mul (SInt.mul X Y) Z') (cfg_seed config) (cfg_periodic config)
    0 0 0 (cfg_p config) X Y Z' (cfg_k config) d
    (X / d) (Y / d) (Z' / d) (X mod d) (Y mod d) (Z' mod d)
    (SInt.mul (SInt.mul (X / d) (Y / d)) (Z' / d)).

Lemma Init_eq (config : PGeneratorConfig LPFloat) (rank size d : Z) :
  valid_grid config d ->
  Grid3D.Init config rank size
  = let '(_, start_chunk, end_chunk) :=
      Grid3D.owned_chunks (cfg_k config) rank size in
    let G := grid_of config d in
    Some (Grid3D.set_nodes G
            (Grid3D.OffsetForChunk G start_chunk)
            (Grid3D.OffsetForChunk G end_chunk)
            (SInt.sub (Grid3D.OffsetForChunk G end_chunk)
                      (Grid3D.OffsetForChunk G start_chunk))).
Proof.
  intros [Hd Hk Hfit Hroot Hx Hy Hz]. unfold Grid3D.Init. cbv zeta.
  rewrite Hroot.
  destruct (Grid3D.owned_chunks (cfg_k config) rank size) as [[num start] end_].
  destruct (Z.eqb_spec d 0) as [|_]; [lia|]. reflexivity.
Qed.

Lemma grid_of_wf (config : PGeneratorConfig LPFloat) (d : Z) :
  valid_grid config d -> wf (grid_of config d).
Proof.
  intros [Hd Hk Hfit Hroot Hx Hy Hz]. constructor; simpl; try assumption; try reflexivity.
  lia.
Qed.

Lemma OffsetForChunk_set_nodes (g : Grid3D.t LPFloat) (a b n c : Z) :
  Grid3D.OffsetForChunk (Grid3D.set_nodes g a b n) c = Grid3D.OffsetForChunk g c.
Proof. reflexivity. Qed.

Lemma Init_valid (config : PGeneratorConfig LPFloat) (rank size d : Z) :
  valid_grid config d ->
  exists g, Grid3D.Init config rank size = Some g
            /\ wf g /\ initialised config rank size d g.
Proof.
  intros [Hd Hk Hfit Hroot Hx Hy Hz]. unfold Grid3D.Init. cbv zeta.
  rewrite Hroot.
  destruct (Grid3D.owned_chunks (cfg_k config) rank size)
    as [[num start] end_] eqn:Ho.
  destruct (Z.eqb_spec d 0) as [|_]; [lia|].
  match goal with
  | |- context [Grid3D.set_nodes ?g0 ?a ?b ?n] =>
      set (G0 := g0); set (A := a); set (B := b); set (N := n)
  end.
  exists (Grid3D.set_nodes G0 A B N). split; [reflexivity|]. split.
  - constructor; cbn [Grid3D.set_nodes Grid3D.chunks_per_dim_ Grid3D.total_chunks_
      Grid3D.total_x_ Grid3D.total_y_ Grid3D.total_z_ Grid3D.x_per_chunk_
      Grid3D.y_per_chunk_ Grid3D.z_per_chunk_ Grid3D.remaining_x_
      Grid3D.remaining_y_ Grid3D.remaining_z_ G0];
      try assumption; try reflexivity; lia.
  - constructor;
      cbn [Grid3D.set_nodes Grid3D.chunks_per_dim_ Grid3D.total_chunks_
      Grid3D.total_x_ Grid3D.total_y_ Grid3D.total_z_ Grid3D.config_n
      Grid3D.config_periodic Grid3D.start_node_ Grid3D.end_node_
      Grid3D.num_nodes_ G0 fst snd];
      rewrite ?OffsetForChunk_set_nodes, ?Ho; try (subst A B N; reflexivity).
    unfold SInt.mul, SInt.wrap. Z.mod_equality.
Qed.

End Initialisation.

(** C3. For the chunk decomposition with [k = d^3] chunks, [d] being
    [chunks_per_dim_], an exact integer cube root ([valid_root]: the
    library's [cbrt] of [k] comes out as [d]), over dimensions
    [X, Y, Z >= 1], the state built by [Generate()] satisfies, for every
    chunk id [c] in [[0, k)]: [OffsetForChunk(c+1) - OffsetForChunk(c)] is the
    number of lattice cells [xs*ys*zs] of chunk [c], each extent being the
    per-chunk quotient plus one for the first "remainder" chunks of its
    axis; and [OffsetForChunk(k) = X*Y*Z = n].  The equalities hold in
    64-bit arithmetic, and over the integers when [X*Y*Z] fits 64 bits. *)
Theorem OffsetForChunk_counts_cells {LPFloat : Type} {C : CubeRoot}
    (config : PGeneratorConfig LPFloat) (rank size d : Z)
    (Hvalid : valid_grid config d) :
  let X := cfg_grid_x config in
  let Y := cfg_grid_y config in
  let Z' := cfg_grid_z config in
  exists g,
    Grid3D.Init config rank size = Some g
    /\ Grid3D.chunks_per_dim_ g = d
    /\ (forall c, 0 <= c < cfg_k config ->
        exists xs ys zs,
          Grid3D.chunk_extents g c = (xs, ys, zs)
          /\ xs = X / d + (if c mod d <? X mod d then 1 else 0)
          /\ ys = Y / d + (if (c / d) mod d <? Y mod d then 1 else 0)
          /\ zs = Z' / d + (if c / (d * d) <? Z' mod d then 1 else 0)
          /\ SInt.sub (Grid3D.OffsetForChunk g (c + 1)) (Grid3D.OffsetForChunk g c)
             = SInt.wrap (xs * ys * zs)
          /\ (X * Y * Z' < SInt.modulus ->
              Grid3D.OffsetForChunk g (c + 1) - Grid3D.OffsetForChunk g c
              = xs * ys * zs))
    /\ Grid3D.OffsetForChunk g (cfg_k config) = SInt.wrap (X * Y * Z')
    /\ Grid3D.config_n g = SInt.wrap (X * Y * Z')
    /\ (X * Y * Z' < SInt.modulus ->
        Grid3D.OffsetForChunk g (cfg_k config) = X * Y * Z'
        /\ Grid3D.config_n g = X * Y * Z').
Proof.
  intros X Y Z'.
  destruct (Init_valid config rank size d Hvalid) as (g & Hinit & Hwf & Hg).
  destruct Hg as [Hgd Hgk Hgx Hgy Hgz Hgn _ _ _ _].
  exists g. split; [exact Hinit|]. split; [exact Hgd|].
  assert (Hfits : X * Y * Z' < SInt.modulus -> fits g).
  { unfold fits. rewrite Hgx, Hgy, Hgz. trivial. }
  split; [|split; [|split]].
  - intros c Hc. rewrite <- Hgk in Hc.
    exists (x_len g (cx_of g c)), (y_len g (cy_of g c)), (z_len g (cz_of g c)).
    split; [apply chunk_extents_exact; [assumption | lia]|].
    unfold x_len, y_len, z_len, axis_len, cx_of, cy_of, cz_of.
    rewrite (wf_x_per g Hwf), (wf_y_per g Hwf), (wf_z_per g Hwf).
    rewrite (wf_x_rem g Hwf), (wf_y_rem g Hwf), (wf_z_rem g Hwf).
    rewrite Hgd, Hgx, Hgy, Hgz.
    split; [reflexivity|]. split; [reflexivity|]. split; [reflexivity|].
    pose proof (offset_step g Hwf c Hc) as Hstep.
    unfold cells_of, cells, x_len, y_len, z_len, axis_len, cx_of, cy_of, cz_of in Hstep.
    rewrite (wf_x_per g Hwf), (wf_y_per g Hwf), (wf_z_per g Hwf) in Hstep.
    rewrite (wf_x_rem g Hwf), (wf_y_rem g Hwf), (wf_z_rem g Hwf) in Hstep.
    rewrite Hgd, Hgx, Hgy, Hgz in Hstep.
    split.
    + rewrite !(OffsetForChunk_wrap g Hwf) by lia.
      rewrite Hstep. unfold SInt.sub, SInt.wrap. Z.mod_equality.
    + intros Hn. rewrite !(OffsetForChunk_exact g Hwf) by (auto; lia).
      rewrite Hstep. ring.
  - rewrite <- Hgk, (OffsetForChunk_wrap g Hwf), (offset_of_top g Hwf).
    + rewrite Hgx, Hgy, Hgz. reflexivity.
    + pose proof (wf_d g Hwf). rewrite (wf_k g Hwf). nia.
  - exact Hgn.
  - intros Hn. rewrite Hgn. rewrite <- Hgk.
    rewrite (OffsetForChunk_exact g Hwf), (offset_of_top g Hwf).
    + rewrite Hgx, Hgy, Hgz. split; [reflexivity|].
      apply wrap_small. destruct Hvalid. subst X Y Z'. nia.
    + auto.
    + pose proof (wf_d g Hwf). rewrite (wf_k g Hwf). nia.
Qed.

(** ** Concrete inputs

A variate generator whose trials always succeed (the case [p = 1]), and
a 3 x 3 x 3 non-periodic grid cut into 8 chunks. *)

Definition certain : Randomness unit :=
  {| Spooky_hash := fun x => x; GenerateBinomial := fun _ n _ => n |}.

Definition grid_3x3x3 : PGeneratorConfig unit :=
  mkConfig 0 tt 8 1 3 3 3 false false 10.

(** On a library whose cube root is exact, every configuration with a
    cube number of chunks and at least one cell along each axis is
    valid. *)
Lemma exact_cube_root_valid {LPFloat : Type}
    (config : PGeneratorConfig LPFloat) (d : Z) :
  1 <= d -> cfg_k config = d * d * d -> d * d * d < SInt.modulus ->
  1 <= cfg_grid_x config < SInt.modulus ->
  1 <= cfg_grid_y config < SInt.modulus ->
  1 <= cfg_grid_z config < SInt.modulus ->
  valid_grid (C := exact_cube_root) config d.
Proof.
  intros Hd Hk Hfit Hx Hy Hz. constructor; try assumption.
  cbn [cbrt exact_cube_root]. rewrite Hk. apply integer_cbrt_cube; lia.
Qed.

Lemma grid_3x3x3_valid : valid_grid (C := exact_cube_root) grid_3x3x3 2.
Proof.
  constructor; try (simpl; unfold SInt.modulus; lia).
  vm_compute. reflexivity.
Defined.

(** In the 3 x 3 x 3 grid, chunk 3 holds two cells and the offsets end at
    the 27 vertices. *)
Lemma OffsetForChunk_counts_cells_witness :
  exists g,
    Grid3D.Init (C := exact_cube_root) grid_3x3x3 0 1 = Some g
    /\ Grid3D.chunks_per_dim_ g = 2
    /\ Grid3D.OffsetForChunk g 4 - Grid3D.OffsetForChunk g 3 = 2
    /\ Grid3D.OffsetForChunk g 8 = 27.
Proof.
  destruct (OffsetForChunk_counts_cells (C := exact_cube_root)
              grid_3x3x3 0 1 2 grid_3x3x3_valid)
    as (g & Hinit & Hd & Hstep & Htop & _).
  exists g. split; [exact Hinit|]. split; [exact Hd|].
  cbv in Hinit. injection Hinit as <-. split; reflexivity.
Defined.

(** ** Vertex ranges of the participants *)

Section IntervalPartition.
  Variable F : Z -> Z.
  Variable size : Z.
  Hypothesis Hsize : 0 <= size.
  Hypothesis Hstep : forall r, 0 <= r < size -> F r <= F (r + 1).

Lemma breakpoints_mono (r r' : Z) :
  0 <= r -> r <= r' -> r' <= size -> F r <= F r'.
Proof. apply stepwise_mono. exact Hstep. Qed.

(** Every point below the last breakpoint lies in one of the intervals. *)
Lemma breakpoints_cover (v : Z) :
  F 0 <= v < F size -> exists r, 0 <= r < size /\ F r <= v < F (r + 1).
Proof.
  intros Hv.
  assert (H : forall m : nat, Z.of_nat m <= size -> F 0 <= v < F (Z.of_nat m) ->
              exists r, 0 <= r < Z.of_nat m /\ F r <= v < F (r + 1)).
  { induction m as [|m IH]; intros Hm Hvm.
    - change (Z.of_nat 0) with 0 in Hvm. lia.
    - rewrite Nat2Z.inj_succ in *.
      destruct (Z.lt_ge_cases v (F (Z.of_nat m))) as [Hlt|Hge].
      + destruct (IH ltac:(lia) ltac:(lia)) as (r & Hr & Hrv).
        exists r. split; [lia | exact Hrv].
      + exists (Z.of_nat m). split; [lia|].
        replace (Z.of_nat m + 1) with (Z.succ (Z.of_nat m)) by lia. lia. }
  destruct (H (Z.to_nat size)) as (r & Hr & Hrv); rewrite ?Z2Nat.id; try lia.
  exists r. split; [lia | exact Hrv].
Qed.

(** No point lies in two of the intervals. *)
Lemma breakpoints_disjoint (v r r' : Z) :
  0 <= r < size -> 0 <= r' < size ->
  F r <= v < F (r + 1) -> F r' <= v < F (r' + 1) -> r = r'.
Proof.
  intros Hr Hr' Hv Hv'.
  destruct (Z.lt_trichotomy r r') as [Hlt|[Heq|Hgt]]; [|exact Heq|].
  - pose proof (breakpoints_mono (r + 1) r' ltac:(lia) ltac:(lia) ltac:(lia)). lia.
  - pose proof (breakpoints_mono (r' + 1) r ltac:(lia) ltac:(lia) ltac:(lia)). lia.
Qed.

End IntervalPartition.

(** ** The outcome of the constructor *)

Section Construction.
  Context {LPFloat : Type} {M : Memory}.
  Variable config : PGeneratorConfig LPFloat.

Lemma construct_resizable :
  resizable (cfg_dist_size config) = true ->
  Grid3D.construct config
  = Grid3D.Constructed _
      (Grid3D.mkUnstarted config (GeneratorIO.create (cfg_dist_size config))).
Proof.
  intros Halloc. unfold Grid3D.construct, GeneratorIO.construct.
  rewrite Halloc. reflexivity.
Qed.

Lemma construct_not_resizable :
  resizable (cfg_dist_size config) = false ->
  Grid3D.construct config = Grid3D.Fatal _.
Proof.
  intros Halloc. unfold Grid3D.construct, GeneratorIO.construct.
  rewrite Halloc. reflexivity.
Qed.

End Construction.

Section VertexRanges.
  Context {LPFloat : Type} {R : Randomness LPFloat} {C : CubeRoot} {M : Memory}.
  Variable OUTPUT_EDGES : bool.
  Variable config : PGeneratorConfig LPFloat.
  Variables size d : Z.
  Hypothesis Hvalid : valid_grid config d.
  Hypothesis Hfit :
    cfg_grid_x config * cfg_grid_y config * cfg_grid_z config < SInt.modulus.
  Hypothesis Hsize : 1 <= size.
  Hypothesis Halloc : resizable (cfg_dist_size config) = true.

Let G := grid_of config d.
Let k := cfg_k config.

(** The first vertex of participant [rank]; participant [size] stands for
    the end of the id space. *)
Definition first_vertex (rank : Z) : Z :=
  offset_of (grid_of config d) (start_chunk_of (cfg_k config) rank size).

Lemma k_range : 1 <= k < SInt.modulus.
Proof.
  destruct Hvalid as [Hd Hk Hkfit _ _ _ _]. subst k. rewrite Hk. nia.
Qed.

Lemma G_wf : wf G.
Proof. apply grid_of_wf. exact Hvalid. Qed.

Lemma G_fits : fits G.
Proof. exact Hfit. Qed.

Lemma first_vertex_0 : first_vertex 0 = 0.
Proof.
  unfold first_vertex.
  replace (start_chunk_of (cfg_k config) 0 size) with 0.
  - apply (offset_of_0 G G_wf).
  - pose proof k_range. unfold start_chunk_of. fold k.
    pose proof (Z.mod_pos_bound k size ltac:(lia)).
    rewrite Z.min_l by lia. lia.
Qed.

Lemma first_vertex_top :
  first_vertex size
  = cfg_grid_x config * cfg_grid_y config * cfg_grid_z config.
Proof.
  pose proof k_range. unfold first_vertex.
  rewrite start_chunk_last by (fold k; lia).
  apply (offset_of_top G G_wf).
Qed.

Lemma first_vertex_step (rank : Z) :
  0 <= rank < size -> first_vertex rank <= first_vertex (rank + 1).
Proof.
  intros Hr. pose proof k_range. unfold first_vertex.
  pose proof (start_chunk_bounds k rank size Hsize ltac:(lia) ltac:(lia)).
  pose proof (start_chunk_bounds k (rank + 1) size Hsize ltac:(lia) ltac:(lia)).
  pose proof (start_chunk_next k rank size Hsize ltac:(lia) ltac:(lia)).
  pose proof (num_chunks_nonneg k rank size Hsize ltac:(lia)).
  apply (offset_mono G G_wf); fold k; try lia.
  change (Grid3D.total_chunks_ G) with k. lia.
Qed.

Lemma first_vertex_succ_pos (rank : Z) :
  0 <= rank < size -> 1 <= first_vertex (rank + 1).
Proof.
  intros Hr. pose proof k_range as Hk. unfold first_vertex. fold k G.
  pose proof (start_chunk_bounds k (rank + 1) size Hsize ltac:(lia) ltac:(lia)).
  assert (1 <= start_chunk_of k (rank + 1) size).
  { unfold start_chunk_of.
    pose proof (Z.div_mod k size ltac:(lia)) as Hdm.
    pose proof (Z.mod_pos_bound k size ltac:(lia)) as Hm.
    assert (0 <= k / size) by (apply Z.div_pos; lia).
    destruct (Z.eq_dec (k / size) 0) as [E|E].
    - rewrite E in *. lia.
    - assert (1 * 1 <= (rank + 1) * (k / size))
        by (apply Z.mul_le_mono_nonneg; lia).
      lia. }
  pose proof (offset_of_1_pos G G_wf).
  pose proof (offset_mono G G_wf 1 (start_chunk_of k (rank + 1) size)
                ltac:(lia) ltac:(lia) ltac:(change (Grid3D.total_chunks_ G) with k; lia)).
  lia.
Qed.

Lemma first_vertex_bounds (rank : Z) :
  0 <= rank <= size ->
  0 <= first_vertex rank
    <= cfg_grid_x config * cfg_grid_y config * cfg_grid_z config.
Proof.
  intros Hr. rewrite <- first_vertex_0 at 1. rewrite <- first_vertex_top.
  split; apply (breakpoints_mono first_vertex size first_vertex_step); lia.
Qed.

Lemma vertex_range_of_Init (rank : Z) :
  Grid3D.vertex_range_of OUTPUT_EDGES config rank size
  = option_map Grid3D.GetVertexRange (Grid3D.Init config rank size).
Proof.
  unfold Grid3D.vertex_range_of. rewrite (construct_resizable config Halloc).
  unfold Grid3D.Generate. cbn [Grid3D.config_ Grid3D.initial_io_].
  destruct (Grid3D.Init config rank size) as [g|]; [|reflexivity].
  destruct (Grid3D.owned_chunks (cfg_k config) rank size) as [[num start] end_].
  reflexivity.
Qed.

(** [GetVertexRange()] on participant [rank]: from its first vertex to the
    vertex before the first one of the next participant. *)
Lemma vertex_range_exact (rank : Z) :
  0 <= rank < size ->
  Grid3D.vertex_range_of OUTPUT_EDGES config rank size
  = Some (first_vertex rank, first_vertex (rank + 1) - 1).
Proof.
  intros Hr. pose proof k_range as Hk.
  rewrite vertex_range_of_Init, (Init_eq config rank size d Hvalid).
  fold k. rewrite (owned_chunks_exact k rank size) by lia.
  cbv zeta. cbn [option_map]. unfold Grid3D.GetVertexRange.
  cbn [Grid3D.set_nodes Grid3D.start_node_ Grid3D.num_nodes_].
  pose proof (start_chunk_bounds k rank size Hsize ltac:(lia) ltac:(lia)).
  pose proof (start_chunk_bounds k (rank + 1) size Hsize ltac:(lia) ltac:(lia)).
  rewrite !(fun c => OffsetForChunk_exact G G_wf c G_fits)
    by (change (Grid3D.total_chunks_ G) with k; lia).
  change (offset_of G (start_chunk_of k rank size)) with (first_vertex rank).
  change (offset_of G (start_chunk_of k (rank + 1) size))
    with (first_vertex (rank + 1)).
  pose proof (first_vertex_bounds rank ltac:(lia)).
  pose proof (first_vertex_bounds (rank + 1) ltac:(lia)).
  pose proof (first_vertex_step rank Hr).
  pose proof (first_vertex_succ_pos rank Hr).
  unfold SInt.sub, SInt.add.
  rewrite (wrap_small (first_vertex (rank + 1) - first_vertex rank)) by lia.
  replace (first_vertex rank + (first_vertex (rank + 1) - first_vertex rank))
    with (first_vertex (rank + 1)) by lia.
  rewrite (wrap_small (first_vertex (rank + 1))) by lia.
  rewrite wrap_small by lia. reflexivity.
Qed.

End VertexRanges.

(** X20. For [P >= 1] participants and a configuration with [k = d^3]
    chunks on which [chunks_per_dim_] comes out as [d], [X, Y, Z >= 1],
    [n = X*Y*Z] representable and a sink that can be allocated, the pairs
    [(first, last)] returned by [GetVertexRange()] on ranks [0..P-1]
    partition [[0, n)]: every rank returns a pair; every vertex id below
    [n] lies in the range of some rank; every id in a range is below [n];
    no id lies in the ranges of two ranks; each range begins right after
    the previous one ends; the first begins at 0 and the last ends at
    [n-1]. *)
Theorem vertex_ranges_partition
    {LPFloat : Type} {R : Randomness LPFloat} {C : CubeRoot} {M : Memory}
    (OUTPUT_EDGES : bool) (config : PGeneratorConfig LPFloat) (size d : Z)
    (Hvalid : valid_grid config d)
    (Hfit : cfg_grid_x config * cfg_grid_y config * cfg_grid_z config < SInt.modulus)
    (Hsize : 1 <= size)
    (Halloc : resizable (cfg_dist_size config) = true) :
  let n := cfg_grid_x config * cfg_grid_y config * cfg_grid_z config in
  let range := fun rank => Grid3D.vertex_range_of OUTPUT_EDGES config rank size in
  (forall rank, 0 <= rank < size ->
     exists first last, range rank = Some (first, last))
  /\ (forall v, 0 <= v < n ->
      exists rank first last,
        0 <= rank < size /\ range rank = Some (first, last) /\ first <= v <= last)
  /\ (forall rank first last v,
        0 <= rank < size -> range rank = Some (first, last) ->
        first <= v <= last -> 0 <= v < n)
  /\ (forall rank rank' first last first' last' v,
        0 <= rank < size -> 0 <= rank' < size ->
        range rank = Some (first, last) -> range rank' = Some (first', last') ->
        first <= v <= last -> first' <= v <= last' -> rank = rank')
  /\ (forall rank first last first' last',
        0 <= rank -> rank + 1 < size ->
        range rank = Some (first, last) ->
        range (rank + 1) = Some (first', last') -> first' = last + 1)
  /\ (exists last, range 0 = Some (0, last))
  /\ (exists first, range (size - 1) = Some (first, n - 1)).
Proof.
  intros n range. subst range. cbv beta.
  pose proof (vertex_range_exact OUTPUT_EDGES config size d Hvalid Hfit Hsize Halloc)
    as Hex.
  pose proof (first_vertex_step config size d Hvalid Hsize) as Hstep.
  pose proof (first_vertex_0 config size d Hvalid Hsize) as H0.
  pose proof (first_vertex_top config size d Hvalid Hsize) as Htop.
  fold n in Htop.
  set (F := first_vertex config size d) in *.
  repeat split.
  - intros rank Hr. rewrite (Hex rank Hr). eauto.
  - intros v Hv.
    destruct (breakpoints_cover F size ltac:(lia) v ltac:(lia))
      as (r & Hr & Hrv).
    exists r, (F r), (F (r + 1) - 1).
    split; [exact Hr|]. split; [apply Hex; exact Hr | lia].
  - rewrite (Hex rank ltac:(assumption)) in H1. injection H1 as <- <-.
    pose proof (breakpoints_mono F size Hstep 0 rank ltac:(lia) ltac:(lia) ltac:(lia)).
    lia.
  - rewrite (Hex rank ltac:(assumption)) in H1. injection H1 as <- <-.
    pose proof (breakpoints_mono F size Hstep (rank + 1) size
                  ltac:(lia) ltac:(lia) ltac:(lia)).
    lia.
  - intros rank rank' first last first' last' v Hr Hr' Hrange Hrange' Hv Hv'.
    rewrite (Hex rank Hr) in Hrange. injection Hrange as <- <-.
    rewrite (Hex rank' Hr') in Hrange'. injection Hrange' as <- <-.
    apply (breakpoints_disjoint F size Hstep v rank rank'); lia.
  - intros rank first last first' last' Hr Hr1 Hrange Hrange'.
    rewrite (Hex rank ltac:(lia)) in Hrange. injection Hrange as <- <-.
    rewrite (Hex (rank + 1) ltac:(lia)) in Hrange'. injection Hrange' as <- <-.
    lia.
  - exists (F (0 + 1) - 1). rewrite (Hex 0 ltac:(lia)), H0. reflexivity.
  - exists (F (size - 1)). rewrite (Hex (size - 1) ltac:(lia)).
    replace (size - 1 + 1) with size by lia. rewrite Htop. reflexivity.
Qed.

(** The 27 vertices of a 3 x 3 x 3 grid in 8 chunks on three participants:
    rank 0 holds [[0,15]] and rank 2 ends at vertex 26. *)
Lemma vertex_ranges_partition_witness :
  Grid3D.vertex_range_of (R := certain) (C := exact_cube_root) (M := ample)
    true grid_3x3x3 0 3 = Some (0, 15)
  /\ exists first,
       Grid3D.vertex_range_of (R := certain) (C := exact_cube_root) (M := ample)
         true grid_3x3x3 (3 - 1) 3
       = Some (first, 3 * 3 * 3 - 1).
Proof.
  pose proof (vertex_ranges_partition
                (R := certain) (C := exact_cube_root) (M := ample)
                true grid_3x3x3 3 2 grid_3x3x3_valid
                ltac:(simpl; unfold SInt.modulus; lia) ltac:(lia) eq_refl) as H.
  cbv zeta in H. destruct H as (_ & _ & _ & _ & _ & _ & Hlast).
  split; [vm_compute; reflexivity | exact Hlast].
Defined.

(** 3375 chunks on the 15 x 15 x 15 grid: one cell per chunk if
    [chunks_per_dim_] were 15. *)
Definition grid_15x15x15 : PGeneratorConfig unit :=
  mkConfig 0 tt 3375 1 15 15 15 false false 10.

(** C5. The partition of [[0, n)] is missed when the library's cube root
    falls short of the root of a perfect cube.  With [k = 3375 = 15^3]
    chunks on the 15 x 15 x 15 grid ([n = 3375]) and three participants,
    [cbrt(3375.0)] truncated to 14 makes [Generate()] lay out a 14 x 14 x 14
    decomposition: [GetVertexRange()] returns [(0, 1520)], [(1521, 2815)]
    and [(2816, 4111)], and the last range ends 737 ids past [n - 1]. *)
Lemma vertex_ranges_overrun_short_root :
  cfg_k grid_15x15x15 = 15 * 15 * 15
  /\ cfg_grid_x grid_15x15x15 * cfg_grid_y grid_15x15x15 * cfg_grid_z grid_15x15x15
     = 3375
  /\ map (fun rank =>
            Grid3D.vertex_range_of
              (R := certain) (C := short_cube_root) (M := ample)
              true grid_15x15x15 rank 3)
         [0; 1; 2]
     = [Some (0, 1520); Some (1521, 2815); Some (2816, 4111)].
Proof.
  split; [reflexivity|]. split; [reflexivity|].
  cbn [map].
  rewrite !(vertex_range_of_Init (R := certain) (C := short_cube_root) (M := ample)
              true grid_15x15x15 3 eq_refl).
  vm_compute. reflexivity.
Qed.

(** ** The layout of the binary edge list *)

Section BinaryLayout.
  Import BinaryIO.

(** The 64-bit words of a file's edge records. *)
Definition edge_words (edges : EdgeList) : list Z :=
  flat_map (fun e => [SInt.add (fst e) 1; SInt.add (snd e) 1]) edges.

Lemma fwrite_SInt_app (file : list byte) (ws ws' : list Z) :
  fwrite_SInt (fwrite_SInt file ws) ws' = fwrite_SInt file (ws ++ ws').
Proof.
  unfold fwrite_SInt. rewrite flat_map_app, app_assoc. reflexivity.
Qed.

Lemma AppendBinaryEdgeList_words (edges : EdgeList) : forall file,
  AppendBinaryEdgeList file edges = fwrite_SInt file (edge_words edges).
Proof.
  induction edges as [|e edges IH]; intros file.
  - unfold fwrite_SInt. simpl. rewrite app_nil_r. reflexivity.
  - change (AppendBinaryEdgeList file (e :: edges))
      with (AppendBinaryEdgeList
              (fwrite_SInt file [SInt.add (fst e) 1; SInt.add (snd e) 1]) edges).
    rewrite IH, fwrite_SInt_app. reflexivity.
Qed.

Lemma read_words_encoded (ws : list Z) :
  read_words (length ws) (flat_map (le_split 8) ws) = map SInt.wrap ws.
Proof.
  induction ws as [|w ws IH]; [reflexivity|].
  cbn [length read_words flat_map map].
  rewrite firstn_app, skipn_app, length_le_split.
  change (8 - 8)%nat with 0%nat. cbn [firstn skipn].
  rewrite app_nil_r.
  rewrite (firstn_all2 (n := 8) (le_split 8 w)) by (rewrite length_le_split; lia).
  rewrite (skipn_all2 (n := 8) (le_split 8 w)) by (rewrite length_le_split; lia).
  cbn [app]. change (skipn 0 (flat_map (le_split 8) ws)) with (flat_map (le_split 8) ws).
  rewrite IH, le_combine_split. reflexivity.
Qed.

Lemma length_encoded (ws : list Z) :
  length (flat_map (le_split 8) ws) = (8 * length ws)%nat.
Proof.
  induction ws as [|w ws IH]; [reflexivity|].
  cbn [flat_map length]. rewrite length_app, length_le_split, IH. lia.
Qed.

Lemma edge_words_exact (edges : EdgeList) :
  Forall (fun e => 0 <= fst e /\ fst e + 1 < SInt.modulus
                   /\ 0 <= snd e /\ snd e + 1 < SInt.modulus) edges ->
  edge_words edges = flat_map (fun e => [fst e + 1; snd e + 1]) edges.
Proof.
  induction 1 as [|e edges (Hu0 & Hu1 & Hv0 & Hv1) _ IH]; [reflexivity|].
  unfold edge_words in *. cbn [flat_map]. rewrite IH.
  unfold SInt.add. rewrite !wrap_small by lia. reflexivity.
Qed.

Lemma edge_words_wrapped (edges : EdgeList) :
  map SInt.wrap (edge_words edges) = edge_words edges.
Proof.
  induction edges as [|e edges IH]; [reflexivity|].
  unfold edge_words in *. cbn [flat_map app map]. rewrite IH.
  unfold SInt.add, SInt.wrap. rewrite !Zmod_mod. reflexivity.
Qed.

Lemma length_edge_words (edges : EdgeList) :
  length (edge_words edges) = (2 * length edges)%nat.
Proof.
  induction edges as [|e edges IH]; [reflexivity|].
  unfold edge_words in *. cbn [flat_map app length]. rewrite IH. lia.
Qed.

Lemma edge_words_app (es es' : EdgeList) :
  edge_words (es ++ es') = edge_words es ++ edge_words es'.
Proof. unfold edge_words. apply flat_map_app. Qed.

(** The single file holds the records of all participants, by rank. *)
Lemma single_file_records (world : World) : forall file,
  fold_left (fun fout pe => AppendBinaryEdgeList fout (fst pe)) world file
  = fwrite_SInt file (edge_words (flat_map fst world)).
Proof.
  induction world as [|pe world IH]; intros file.
  - unfold fwrite_SInt. simpl. rewrite app_nil_r. reflexivity.
  - cbn [fold_left flat_map]. rewrite IH, AppendBinaryEdgeList_words.
    rewrite fwrite_SInt_app, edge_words_app. reflexivity.
Qed.

End BinaryLayout.

(** The participants' vertex ranges are consecutive half-open intervals
    [[first, second)], the first one starting at [from]. *)
Fixpoint consecutive_ranges (from : Z) (world : BinaryIO.World) : Prop :=
  match world with
  | [] => True
  | pe :: rest =>
      fst (snd pe) = from /\ fst (snd pe) <= snd (snd pe)
      /\ consecutive_ranges (snd (snd pe)) rest
  end.

(** The number of vertices of the graph: those of all the ranges. *)
Definition node_count (world : BinaryIO.World) : Z :=
  fold_right (fun pe acc => snd (snd pe) - fst (snd pe) + acc) 0 world.

Lemma consecutive_ranges_end (world : BinaryIO.World) : forall from pe,
  consecutive_ranges from (pe :: world) ->
  snd (snd (List.last (pe :: world) ([], (0, 0))))
  = from + node_count (pe :: world).
Proof.
  induction world as [|pe' world IH];
    intros from [es [first second]] (Hfirst & Hle & Hrest);
    cbn [fst snd] in Hfirst, Hle, Hrest.
  - unfold node_count. cbn [List.last fold_right fst snd]. lia.
  - change (List.last ((es, (first, second)) :: pe' :: world) ([], (0, 0)))
      with (List.last (pe' :: world) ([], (0, 0))).
    rewrite (IH _ pe' Hrest).
    change (node_count ((es, (first, second)) :: pe' :: world))
      with (second - first + node_count (pe' :: world)).
    lia.
Qed.

(** C9. Binary edge-list output.  Read as 64-bit little-endian words, the
    file that a participant writes for itself holds, for each edge [(u, v)]
    of its edge list and in list order, the two words [u+1] and [v+1], and
    nothing else but the header; with the header enabled, exactly two
    words come first: [n], the end of the last participant's vertex
    range, which is the number of vertices of the graph when the ranges
    are consecutive from 0, and [m], the number of edge records that
    follow.  With one participant the single file of a gathered run is
    this same file; without the header it holds the records of all
    participants in rank order. *)
Theorem binary_edge_list_layout
    (output_header : bool) (world : BinaryIO.World) (rank : nat)
    (edges : BinaryIO.EdgeList) (range : BinaryIO.VertexRange)
    (Hrank : world !! rank = Some (edges, range))
    (Hall : Forall (fun e => 0 <= fst e /\ fst e + 1 < SInt.modulus
                             /\ 0 <= snd e /\ snd e + 1 < SInt.modulus)
                   (flat_map fst world))
    (Hn : SInt.in_range (snd (snd (List.last world ([], (0, 0))))))
    (Hm : Z.of_nat (length edges) < SInt.modulus) :
  let n := snd (snd (List.last world ([], (0, 0)))) in
  let m := Z.of_nat (length edges) in
  let records := fun es : BinaryIO.EdgeList =>
                   flat_map (fun e => [fst e + 1; snd e + 1]) es in
  let header := if output_header then [n; m] else [] in
  let own_file :=
    BinaryIO.WriteBinaryEdgeList_own_file (negb output_header) edges world in
  own_file = flat_map (le_split 8) (header ++ records edges)
  /\ length own_file = (8 * (length header + 2 * length edges))%nat
  /\ BinaryIO.read_words (length header + 2 * length edges) own_file
     = header ++ records edges
  /\ (consecutive_ranges 0 world -> n = node_count world)
  /\ (world = [(edges, range)] ->
      BinaryIO.WriteBinaryEdgeList_single_file (negb output_header) world
      = Some own_file)
  /\ BinaryIO.WriteBinaryEdgeList_single_file true world
     = Some (flat_map (le_split 8) (records (flat_map fst world))).
Proof.
  intros n m records header own_file.
  assert (Hids : Forall (fun e => 0 <= fst e /\ fst e + 1 < SInt.modulus
                                  /\ 0 <= snd e /\ snd e + 1 < SInt.modulus) edges).
  { rewrite List.Forall_forall in Hall |- *. intros e He. apply Hall.
    apply in_flat_map. exists (edges, range).
    split; [|exact He].
    apply list_elem_of_In. exact (list_elem_of_lookup_2 _ _ _ Hrank). }
  assert (Hown : own_file = flat_map (le_split 8) (header ++ edge_words edges)).
  { subst own_file header. unfold BinaryIO.WriteBinaryEdgeList_own_file.
    rewrite negb_involutive. cbv zeta.
    rewrite AppendBinaryEdgeList_words.
    destruct output_header; [|reflexivity].
    unfold BinaryIO.AppendBinaryEdgeListHeader, BinaryIO.FindNumberOfGlobalNodes.
    cbv zeta. rewrite !fwrite_SInt_app. reflexivity. }
  assert (Hwords : forall (hdr : list Z) (es : BinaryIO.EdgeList),
            map SInt.wrap hdr = hdr ->
            BinaryIO.read_words (length hdr + 2 * length es)
              (flat_map (le_split 8) (hdr ++ edge_words es))
            = hdr ++ edge_words es).
  { intros hdr es Hhdr.
    replace (length hdr + 2 * length es)%nat with (length (hdr ++ edge_words es))
      by (rewrite length_app, length_edge_words; reflexivity).
    rewrite read_words_encoded, map_app, Hhdr, edge_words_wrapped. reflexivity. }
  unfold SInt.in_range in Hn.
  subst records. cbv beta.
  rewrite <- (edge_words_exact edges Hids).
  rewrite <- (edge_words_exact (flat_map fst world) Hall).
  split; [exact Hown|]. split.
  { rewrite Hown, length_encoded, length_app, length_edge_words. reflexivity. }
  split.
  { rewrite Hown. apply Hwords. subst header.
    destruct output_header; [|reflexivity].
    cbn [map]. subst n m. rewrite !wrap_small by lia. reflexivity. }
  split.
  { intros Hranges. subst n. destruct world as [|pe world]; [reflexivity|].
    rewrite (consecutive_ranges_end world 0 pe Hranges). lia. }
  split.
  { intros Hone. rewrite Hown. subst header n m. rewrite Hone.
    unfold BinaryIO.WriteBinaryEdgeList_single_file.
    rewrite negb_involutive. cbv zeta. cbn [length Nat.eqb hd fst].
    destruct output_header.
    - unfold BinaryIO.AppendBinaryEdgeListHeader, BinaryIO.FindNumberOfGlobalNodes,
        BinaryIO.FindNumberOfGlobalEdges.
      cbv zeta. cbn [fold_left fst snd List.last].
      rewrite AppendBinaryEdgeList_words, !fwrite_SInt_app.
      unfold SInt.add. rewrite Z.add_0_l, wrap_small by lia. reflexivity.
    - cbn [fold_left fst]. rewrite AppendBinaryEdgeList_words. reflexivity. }
  unfold BinaryIO.WriteBinaryEdgeList_single_file. cbn [negb]. cbv zeta.
  rewrite single_file_records. reflexivity.
Qed.

(** Two participants; the second one holds the edges [(0,1)] and [(1,0)]
    of a graph on 2 vertices: its file is the four words 1, 2, 2, 1 after
    the header 2, 2. *)
Lemma binary_edge_list_layout_witness :
  BinaryIO.read_words 6
    (BinaryIO.WriteBinaryEdgeList_own_file false [(0, 1); (1, 0)]
       [([], (0, 0)); ([(0, 1); (1, 0)], (0, 2))])
  = [2; 2; 1; 2; 2; 1]
  /\ 2 = node_count [([], (0, 0)); ([(0, 1); (1, 0)], (0, 2))].
Proof.
  assert (Hall : Forall (fun e => 0 <= fst e /\ fst e + 1 < SInt.modulus
                                  /\ 0 <= snd e /\ snd e + 1 < SInt.modulus)
                        (flat_map fst [([], (0, 0)); ([(0, 1); (1, 0)], (0, 2))]))
    by (repeat (apply List.Forall_cons; [cbn [fst snd]; unfold SInt.modulus; lia|]);
        apply List.Forall_nil).
  pose proof (binary_edge_list_layout true
                [([], (0, 0)); ([(0, 1); (1, 0)], (0, 2))] 1
                [(0, 1); (1, 0)] (0, 2) eq_refl Hall
                ltac:(vm_compute; split; [discriminate | reflexivity])
                ltac:(vm_compute; reflexivity)) as H.
  cbv zeta in H. destruct H as (_ & _ & Hread & Hnodes & _).
  split; [exact Hread|].
  apply Hnodes. cbn. repeat split; lia.
Defined.

(** ** Local coordinates inside a chunk *)

Section MixedRadix.
Variables xs ys : Z.
Hypothesis Hxs : 0 < xs.
Hypothesis Hys : 0 < ys.

Lemma local_encode (x y z : Z) :
  0 <= x < xs -> 0 <= y < ys -> 0 <= z ->
  let lv := x + y * xs + z * (xs * ys) in
  lv mod xs = x /\ (lv / xs) mod ys = y /\ lv / (xs * ys) = z.
Proof.
  intros Hx Hy Hz lv.
  assert (Hq : lv / xs = y + z * ys).
  { symmetry. apply (Z.div_unique lv xs (y + z * ys) x); [lia | subst lv; ring]. }
  assert (Hr : lv mod xs = x).
  { symmetry. apply (Z.mod_unique lv xs (y + z * ys) x); [lia | subst lv; ring]. }
  split; [exact Hr|]. rewrite <- Z.div_div by lia. rewrite Hq. split.
  - symmetry. apply (Z.mod_unique (y + z * ys) ys z y); [lia | ring].
  - symmetry. apply (Z.div_unique (y + z * ys) ys z y); [lia | ring].
Qed.

Lemma local_decode (lv zs : Z) :
  0 <= lv < xs * ys * zs ->
  lv = lv mod xs + (lv / xs) mod ys * xs + lv / (xs * ys) * (xs * ys)
  /\ 0 <= lv mod xs < xs /\ 0 <= (lv / xs) mod ys < ys
  /\ 0 <= lv / (xs * ys) < zs.
Proof.
  intros Hlv.
  pose proof (Z.div_mod lv xs ltac:(lia)) as H1.
  pose proof (Z.div_mod (lv / xs) ys ltac:(lia)) as H2.
  pose proof (Z.mod_pos_bound lv xs ltac:(lia)) as H3.
  pose proof (Z.mod_pos_bound (lv / xs) ys ltac:(lia)) as H4.
  assert (H5 : 0 <= lv / (xs * ys)) by (apply Z.div_pos; nia).
  assert (H6 : lv / (xs * ys) < zs) by (apply Z.div_lt_upper_bound; nia).
  rewrite <- Z.div_div in * by lia.
  repeat split; lia.
Qed.

End MixedRadix.

(** ** Signed intermediate values *)

Lemma SSInt_of_SInt_small (z : Z) :
  - 2 ^ 63 <= z < 2 ^ 63 -> SSInt.of_SInt z = z.
Proof.
  intros Hz. unfold SSInt.of_SInt, SInt.wrap, SInt.modulus.
  destruct (Z.lt_ge_cases z 0) as [Hneg|Hpos].
  - replace (z mod 2 ^ 64) with (z + 2 ^ 64).
    + destruct (Z.ltb_spec (z + 2 ^ 64) (2 ^ 63)); lia.
    + apply (Z.mod_unique z (2 ^ 64) (-1) (z + 2 ^ 64)); lia.
  - rewrite Z.mod_small by lia.
    destruct (Z.ltb_spec z (2 ^ 63)); lia.
Qed.

Lemma SSInt_add_small (a b : Z) :
  0 <= a -> a + 1 < 2 ^ 63 -> -1 <= b <= 1 ->
  SSInt.add (SSInt.of_SInt a) b = a + b.
Proof.
  intros Ha Ha1 Hb. unfold SSInt.add.
  rewrite (SSInt_of_SInt_small a) by lia.
  apply SSInt_of_SInt_small. lia.
Qed.

(** ** What a direction query asks for

    [target c u direction] is the neighbour that
    [QueryInDirection(c, u, direction)] hands to [GenerateEdge], over the
    integers; [None] when the query returns without a call. *)

Definition within (v bound : Z) : bool := (0 <=? v) && (v <? bound).

Lemma within_spec (v bound : Z) : within v bound = true <-> 0 <= v < bound.
Proof. unfold within. rewrite andb_true_iff, Z.leb_le, Z.ltb_lt. reflexivity. Qed.

Section Targets.
Context {LPFloat : Type}.
Variable g : Grid3D.t LPFloat.

Definition in_chunk (c u : Z) : Prop :=
  0 <= c < Grid3D.total_chunks_ g /\ offset_of g c <= u < offset_of g (c + 1).

Definition local_coords (c u : Z) : Z * Z * Z :=
  let lv := u - offset_of g c in
  let xs := x_len g (cx_of g c) in
  let ys := y_len g (cy_of g c) in
  (lv mod xs, (lv / xs) mod ys, lv / (xs * ys)).

(** The id of the cell with local coordinates [(x, y, z)] in chunk [c]. *)
Definition vertex_at (c x y z : Z) : Z :=
  let xs := x_len g (cx_of g c) in
  let ys := y_len g (cy_of g c) in
  offset_of g c + (x + y * xs + z * (xs * ys)).

Definition wrap_coord (c : Z) : Z :=
  if Grid3D.config_periodic g then c mod Grid3D.chunks_per_dim_ g else c.

Definition neighbor_chunk (c : Z) (direction : Grid3D.Direction) : option Z :=
  let d := Grid3D.chunks_per_dim_ g in
  let ncx := wrap_coord (cx_of g c + Grid3D.DirectionX direction) in
  let ncy := wrap_coord (cy_of g c + Grid3D.DirectionY direction) in
  let ncz := wrap_coord (cz_of g c + Grid3D.DirectionZ direction) in
  if within ncx d && within ncy d && within ncz d
  then Some (ncx + ncy * d + ncz * (d * d))
  else None.

(** The local coordinates at which a query enters the neighbouring chunk. *)
Definition entry_coords (c' lx ly lz : Z) (direction : Grid3D.Direction)
  : Z * Z * Z :=
  match direction with
  | Grid3D.Right => (0, ly, lz)
  | Grid3D.Left => (x_len g (cx_of g c') - 1, ly, lz)
  | Grid3D.Up => (lx, y_len g (cy_of g c') - 1, lz)
  | Grid3D.Down => (lx, 0, lz)
  | Grid3D.Front => (lx, ly, z_len g (cz_of g c') - 1)
  | Grid3D.Back => (lx, ly, 0)
  end.

Definition target (c u : Z) (direction : Grid3D.Direction) : option Z :=
  let '(lx, ly, lz) := local_coords c u in
  let nx := lx + Grid3D.DirectionX direction in
  let ny := ly + Grid3D.DirectionY direction in
  let nz := lz + Grid3D.DirectionZ direction in
  if within nx (x_len g (cx_of g c)) && within ny (y_len g (cy_of g c))
     && within nz (z_len g (cz_of g c))
  then Some (vertex_at c nx ny nz)
  else
    match neighbor_chunk c direction with
    | Some c' =>
        let '(ex, ey, ez) := entry_coords c' lx ly lz direction in
        Some (SInt.wrap (vertex_at c' ex ey ez))
    | None => None
    end.

End Targets.

Lemma direction_steps (direction : Grid3D.Direction) :
  -1 <= Grid3D.DirectionX direction <= 1
  /\ -1 <= Grid3D.DirectionY direction <= 1
  /\ -1 <= Grid3D.DirectionZ direction <= 1.
Proof. destruct direction; simpl; lia. Qed.

Lemma IsLocalVertex_spec (nx ny nz xs ys zs : Z) :
  -1 <= nx < SInt.modulus -> -1 <= ny < SInt.modulus -> -1 <= nz < SInt.modulus ->
  Grid3D.IsLocalVertex nx ny nz xs ys zs
  = within nx xs && within ny ys && within nz zs.
Proof.
  intros Hx Hy Hz. unfold Grid3D.IsLocalVertex, within.
  assert (W : forall v, -1 <= v < SInt.modulus ->
                (v <? 0) || (xs <=? SInt.wrap v) = negb ((0 <=? v) && (v <? xs))
                /\ (v <? 0) || (ys <=? SInt.wrap v) = negb ((0 <=? v) && (v <? ys))
                /\ (v <? 0) || (zs <=? SInt.wrap v) = negb ((0 <=? v) && (v <? zs))).
  { intros v Hv. destruct (Z.ltb_spec v 0) as [Hn|Hp].
    - replace (0 <=? v) with false by (symmetry; apply Z.leb_gt; lia).
      repeat split.
    - rewrite wrap_small by lia.
      replace (0 <=? v) with true by (symmetry; apply Z.leb_le; lia).
      cbn [orb andb]. rewrite !Z.leb_antisym. repeat split. }
  destruct (W nx Hx) as (-> & _ & _).
  destruct (W ny Hy) as (_ & -> & _).
  destruct (W nz Hz) as (_ & _ & ->).
  destruct ((0 <=? nx) && (nx <? xs)); [|reflexivity].
  destruct ((0 <=? ny) && (ny <? ys)); [|reflexivity].
  destruct ((0 <=? nz) && (nz <? zs)); reflexivity.
Qed.

Lemma IsValidChunk_spec {LPFloat : Type} (g : Grid3D.t LPFloat) (x y z : Z) :
  -1 <= x < SInt.modulus -> -1 <= y < SInt.modulus -> -1 <= z < SInt.modulus ->
  Grid3D.IsValidChunk g x y z
  = within x (Grid3D.chunks_per_dim_ g) && within y (Grid3D.chunks_per_dim_ g)
    && within z (Grid3D.chunks_per_dim_ g).
Proof.
  intros Hx Hy Hz.
  apply (IsLocalVertex_spec x y z (Grid3D.chunks_per_dim_ g)
           (Grid3D.chunks_per_dim_ g) (Grid3D.chunks_per_dim_ g) Hx Hy Hz).
Qed.

Section QueryFacts.
Context {LPFloat : Type}.
Variable g : Grid3D.t LPFloat.
Hypothesis Hwf : wf g.

(** The vertex count fits a [long long], so that no signed intermediate
    value of [QueryInDirection] overflows. *)
Hypothesis Hfit63 :
  Grid3D.total_x_ g * Grid3D.total_y_ g * Grid3D.total_z_ g < 2 ^ 63.

Lemma fits63_fits : fits g.
Proof. unfold fits, SInt.modulus. lia. Qed.

Lemma dims63 :
  Grid3D.total_x_ g < 2 ^ 63 /\ Grid3D.total_y_ g < 2 ^ 63
  /\ Grid3D.total_z_ g < 2 ^ 63
  /\ Grid3D.total_x_ g * Grid3D.total_y_ g < 2 ^ 63.
Proof.
  pose proof (wf_x g Hwf). pose proof (wf_y g Hwf). pose proof (wf_z g Hwf).
  revert Hfit63.
  generalize dependent (Grid3D.total_x_ g). generalize dependent (Grid3D.total_y_ g).
  generalize dependent (Grid3D.total_z_ g).
  intros z Hz y Hy x Hx Hn.
  assert (x * y <= x * y * z) by nia.
  assert (x <= x * y) by nia. assert (y <= x * y) by nia.
  assert (z <= x * y * z) by nia. lia.
Qed.

Lemma d_small : Grid3D.chunks_per_dim_ g < 2 ^ 32.
Proof.
  pose proof (d_fits g Hwf) as [Hdd _]. pose proof (wf_d g Hwf).
  unfold SInt.modulus in Hdd. nia.
Qed.

Lemma extents_bounds (c : Z) :
  0 <= c ->
  0 <= x_len g (cx_of g c) <= Grid3D.total_x_ g
  /\ 0 <= y_len g (cy_of g c) <= Grid3D.total_y_ g
  /\ 0 <= z_len g (cz_of g c) <= Grid3D.total_z_ g.
Proof.
  intros Hc. destruct (coords_nonneg g Hwf c Hc) as (Hx & Hy & Hz).
  destruct (x_axis g Hwf (cx_of g c)) as (_ & _ & _ & Hxl & _).
  destruct (y_axis g Hwf (cy_of g c)) as (_ & _ & _ & Hyl & _).
  destruct (z_axis g Hwf (cz_of g c)) as (_ & _ & _ & Hzl & _).
  repeat split; first [apply Hxl | apply Hyl | apply Hzl]; lia.
Qed.

(** A product of three bounded factors is bounded by the product of the
    bounds. *)
Lemma mul3_le (a b c A B C : Z) :
  0 <= a <= A -> 0 <= b <= B -> 0 <= c <= C -> a * b * c <= A * B * C.
Proof.
  intros Ha Hb Hc.
  assert (a * b <= A * B) by (apply Z.mul_le_mono_nonneg; lia).
  apply Z.mul_le_mono_nonneg; lia.
Qed.

(** The facts about a vertex [u] of chunk [c] that the query relies on. *)
Lemma in_chunk_facts (c u : Z) :
  in_chunk g c u ->
  let xs := x_len g (cx_of g c) in
  let ys := y_len g (cy_of g c) in
  let zs := z_len g (cz_of g c) in
  let lv := u - offset_of g c in
  1 <= xs /\ 1 <= ys /\ 1 <= zs
  /\ 0 <= lv < xs * ys * zs
  /\ offset_of g (c + 1) = offset_of g c + xs * ys * zs
  /\ 0 <= offset_of g c
  /\ offset_of g c + xs * ys * zs
     <= Grid3D.total_x_ g * Grid3D.total_y_ g * Grid3D.total_z_ g.
Proof.
  intros [Hc Hu] xs ys zs lv.
  pose proof (offset_step g Hwf c Hc) as Hstep.
  unfold cells_of, cells in Hstep. fold xs ys zs in Hstep.
  destruct (extents_bounds c ltac:(lia)) as (Hxs & Hys & Hzs).
  fold xs in Hxs. fold ys in Hys. fold zs in Hzs.
  pose proof (offset_bounds g Hwf c ltac:(lia)) as Hb0.
  pose proof (offset_bounds g Hwf (c + 1) ltac:(lia)) as Hb1.
  assert (Hpos : 0 < xs * ys * zs) by lia.
  assert (1 <= xs) by nia. assert (1 <= ys) by nia. assert (1 <= zs) by nia.
  subst lv. repeat split; try lia.
Qed.

Lemma local_coords_facts (c u : Z) :
  in_chunk g c u ->
  let xs := x_len g (cx_of g c) in
  let ys := y_len g (cy_of g c) in
  let zs := z_len g (cz_of g c) in
  exists lx ly lz,
    local_coords g c u = (lx, ly, lz)
    /\ 0 <= lx < xs /\ 0 <= ly < ys /\ 0 <= lz < zs
    /\ u = vertex_at g c lx ly lz.
Proof.
  intros Hin xs ys zs.
  destruct (in_chunk_facts c u Hin) as (Hxs & Hys & Hzs & Hlv & _).
  fold xs ys zs in Hxs, Hys, Hzs, Hlv.
  destruct (local_decode xs ys ltac:(lia) ltac:(lia) (u - offset_of g c) zs Hlv)
    as (Heq & Hx & Hy & Hz).
  eexists _, _, _. split; [reflexivity|].
  fold xs ys. unfold vertex_at. fold xs ys. repeat split; lia.
Qed.

Lemma vertex_at_in_chunk (c x y z : Z) :
  0 <= c < Grid3D.total_chunks_ g ->
  0 <= x < x_len g (cx_of g c) -> 0 <= y < y_len g (cy_of g c) ->
  0 <= z < z_len g (cz_of g c) ->
  in_chunk g c (vertex_at g c x y z)
  /\ local_coords g c (vertex_at g c x y z) = (x, y, z).
Proof.
  intros Hc Hx Hy Hz.
  pose proof (offset_step g Hwf c Hc) as Hstep.
  unfold cells_of, cells in Hstep.
  set (xs := x_len g (cx_of g c)) in *. set (ys := y_len g (cy_of g c)) in *.
  set (zs := z_len g (cz_of g c)) in *.
  assert (Hlt : x + y * xs + z * (xs * ys) < xs * ys * zs).
  { assert (0 <= xs * ys) by nia.
    assert (y * xs <= (ys - 1) * xs) by (apply Z.mul_le_mono_nonneg_r; lia).
    assert (z * (xs * ys) <= (zs - 1) * (xs * ys))
      by (apply Z.mul_le_mono_nonneg_r; lia).
    nia. }
  assert (Hge : 0 <= x + y * xs + z * (xs * ys)).
  { assert (0 <= xs * ys) by nia. assert (0 <= y * xs) by nia.
    assert (0 <= z * (xs * ys)) by (apply Z.mul_nonneg_nonneg; lia). lia. }
  split.
  - unfold in_chunk, vertex_at. fold xs ys. lia.
  - unfold local_coords, vertex_at. fold xs ys.
    replace (offset_of g c + (x + y * xs + z * (xs * ys)) - offset_of g c)
      with (x + y * xs + z * (xs * ys)) by lia.
    destruct (local_encode xs ys ltac:(lia) ltac:(lia) x y z Hx Hy ltac:(lia))
      as (-> & -> & ->).
    reflexivity.
Qed.

Lemma wrap_chunk_spec (c : Z) :
  -1 <= c <= Grid3D.chunks_per_dim_ g ->
  (if Grid3D.config_periodic g
   then SSInt.of_SInt (SInt.add c (Grid3D.chunks_per_dim_ g) mod Grid3D.chunks_per_dim_ g)
   else c)
  = wrap_coord g c
  /\ -1 <= wrap_coord g c <= Grid3D.chunks_per_dim_ g.
Proof.
  intros Hc. pose proof (wf_d g Hwf) as Hd. pose proof d_small as Hds.
  unfold wrap_coord. destruct (Grid3D.config_periodic g); [|split; [reflexivity | lia]].
  pose proof (Z.mod_pos_bound c (Grid3D.chunks_per_dim_ g) ltac:(lia)) as Hm.
  split; [|lia].
  unfold SInt.add. rewrite wrap_small by (unfold SInt.modulus; lia).
  replace ((c + Grid3D.chunks_per_dim_ g) mod Grid3D.chunks_per_dim_ g)
    with (c mod Grid3D.chunks_per_dim_ g).
  - apply SSInt_of_SInt_small. lia.
  - rewrite <- (Z_mod_plus_full c 1 (Grid3D.chunks_per_dim_ g)).
    f_equal. lia.
Qed.

Lemma Encode_exact (x y z : Z) :
  let d := Grid3D.chunks_per_dim_ g in
  0 <= x < d -> 0 <= y < d -> 0 <= z < d ->
  Grid3D.Encode g (SInt.wrap x) (SInt.wrap y) (SInt.wrap z)
  = x + y * d + z * (d * d)
  /\ 0 <= x + y * d + z * (d * d) < Grid3D.total_chunks_ g.
Proof.
  intros d Hx Hy Hz.
  pose proof (wf_k_fits g Hwf) as Hkf. rewrite (wf_k g Hwf) in *. fold d in Hkf |- *.
  assert (Hr : 0 <= x + y * d + z * (d * d) < d * d * d).
  { assert (0 <= d * d) by nia.
    assert (y * d <= (d - 1) * d) by (apply Z.mul_le_mono_nonneg_r; lia).
    assert (z * (d * d) <= (d - 1) * (d * d)) by (apply Z.mul_le_mono_nonneg_r; lia).
    assert (0 <= y * d) by nia.
    assert (0 <= z * (d * d)) by (apply Z.mul_nonneg_nonneg; lia).
    nia. }
  split; [|exact Hr].
  unfold Grid3D.Encode. fold d. cbv zeta.
  rewrite <- (wrap_small (x + y * d + z * (d * d))) by lia.
  unfold SInt.add, SInt.mul, SInt.wrap. Z.mod_equality.
Qed.

Lemma LocateVertexInChunk_wrap (c' lx ly lz : Z) (direction : Grid3D.Direction) :
  0 <= c' < Grid3D.total_chunks_ g ->
  Grid3D.LocateVertexInChunk g c' lx ly lz direction
  = let '(ex, ey, ez) := entry_coords g c' lx ly lz direction in
    SInt.wrap (vertex_at g c' ex ey ez).
Proof.
  intros Hc. unfold Grid3D.LocateVertexInChunk.
  rewrite (OffsetForChunk_exact g Hwf c' fits63_fits) by lia.
  rewrite (chunk_extents_exact g Hwf c') by lia.
  unfold entry_coords, vertex_at.
  generalize (offset_of g c'), (x_len g (cx_of g c')), (y_len g (cy_of g c')),
    (z_len g (cz_of g c')).
  intros off xs ys zs.
  destruct direction; unfold SInt.add, SInt.sub, SInt.mul, SInt.wrap;
    Z.mod_equality.
Qed.

(** [QueryInDirection] on a vertex of the chunk: a call of [GenerateEdge]
    on the target, or nothing. *)
Lemma QueryInDirection_target {R : Randomness LPFloat} (OUTPUT_EDGES : bool)
    (out : Grid3D.output) (c u : Z) (direction : Grid3D.Direction) :
  in_chunk g c u ->
  Grid3D.QueryInDirection OUTPUT_EDGES g out c u direction
  = match target g c u direction with
    | Some v => Grid3D.GenerateEdge OUTPUT_EDGES g out u v
    | None => out
    end.
Proof.
  intros Hin.
  destruct (in_chunk_facts c u Hin) as (Hxs & Hys & Hzs & Hlv & Hnext & Hoff & Htop).
  destruct (local_coords_facts c u Hin) as (lx & ly & lz & Hlc & Hlx & Hly & Hlz & Hu).
  destruct Hin as [Hc Hrange].
  destruct (extents_bounds c ltac:(lia)) as (Hxb & Hyb & Hzb).
  destruct dims63 as (HX & HY & HZ & HXY).
  destruct (direction_steps direction) as (Hdx & Hdy & Hdz).
  destruct (coords_range g Hwf c Hc) as (Hcx & Hcy & Hcz).
  pose proof d_small as Hds.
  unfold Grid3D.QueryInDirection, target. rewrite Hlc.
  rewrite (Decode_exact g Hwf), (chunk_extents_exact g Hwf c) by lia.
  rewrite (OffsetForChunk_exact g Hwf c fits63_fits) by lia.
  cbv zeta.
  set (xs := x_len g (cx_of g c)) in *.
  set (ys := y_len g (cy_of g c)) in *.
  set (zs := z_len g (cz_of g c)) in *.
  assert (Hxy : 0 <= xs * ys <= Grid3D.total_x_ g * Grid3D.total_y_ g)
    by (split; [nia | apply Z.mul_le_mono_nonneg; lia]).
  assert (Esub : SInt.sub u (offset_of g c) = u - offset_of g c)
    by (apply wrap_small; unfold SInt.modulus; nia).
  assert (Emul : SInt.mul xs ys = xs * ys)
    by (apply wrap_small; unfold SInt.modulus; lia).
  rewrite !Esub, !Emul.
  unfold local_coords in Hlc. fold xs ys in Hlc. injection Hlc as Ex Ey Ez.
  rewrite Ex, Ey, Ez.
  rewrite !SSInt_add_small by lia.
  rewrite IsLocalVertex_spec by (unfold SInt.modulus; lia).
  destruct (within (lx + Grid3D.DirectionX direction) xs
            && within (ly + Grid3D.DirectionY direction) ys
            && within (lz + Grid3D.DirectionZ direction) zs) eqn:Hlocal.
  - f_equal.
    apply andb_true_iff in Hlocal as [Hlocal Hnz].
    apply andb_true_iff in Hlocal as [Hnx Hny].
    apply within_spec in Hnx, Hny, Hnz.
    destruct (vertex_at_in_chunk c _ _ _ Hc Hnx Hny Hnz) as [[_ Hv] _].
    rewrite <- (wrap_small (vertex_at g c _ _ _))
      by (unfold SInt.modulus; rewrite Hnext in Hv; lia).
    unfold vertex_at. fold xs ys.
    unfold SInt.add, SInt.mul, SInt.wrap. Z.mod_equality.
  - destruct (wrap_chunk_spec (cx_of g c + Grid3D.DirectionX direction) ltac:(lia))
      as [-> Hwx].
    destruct (wrap_chunk_spec (cy_of g c + Grid3D.DirectionY direction) ltac:(lia))
      as [-> Hwy].
    destruct (wrap_chunk_spec (cz_of g c + Grid3D.DirectionZ direction) ltac:(lia))
      as [-> Hwz].
    rewrite IsValidChunk_spec by (unfold SInt.modulus; lia).
    unfold neighbor_chunk. cbv zeta.
    destruct (within (wrap_coord g (cx_of g c + Grid3D.DirectionX direction))
                (Grid3D.chunks_per_dim_ g)
              && within (wrap_coord g (cy_of g c + Grid3D.DirectionY direction))
                   (Grid3D.chunks_per_dim_ g)
              && within (wrap_coord g (cz_of g c + Grid3D.DirectionZ direction))
                   (Grid3D.chunks_per_dim_ g)) eqn:Hvalid; [|reflexivity].
    cbn [negb].
    apply andb_true_iff in Hvalid as [Hvalid Hvz].
    apply andb_true_iff in Hvalid as [Hvx Hvy].
    apply within_spec in Hvx, Hvy, Hvz.
    destruct (Encode_exact _ _ _ Hvx Hvy Hvz) as [-> Hc'].
    rewrite LocateVertexInChunk_wrap by exact Hc'.
    destruct (entry_coords g _ lx ly lz direction) as [[ex ey] ez].
    reflexivity.
Qed.

End QueryFacts.

(** ** The edges a run emits *)

Lemma In_loop_range (first last i : Z) :
  In i (Grid3D.loop_range first last) <-> first <= i < last.
Proof.
  unfold Grid3D.loop_range. rewrite in_map_iff. split.
  - intros (j & <- & Hj). apply in_seq in Hj. lia.
  - intros Hi. exists (Z.to_nat (i - first)). split; [lia|].
    apply in_seq. lia.
Qed.

(** A loop whose body appends to the emitted list appends the
    concatenation of what its iterations append. *)
Lemma fold_left_emitted {A : Type} (f : Grid3D.output -> A -> Grid3D.output)
    (h : A -> list (Z * Z)) (l : list A) :
  (forall o i, In i l -> Grid3D.emitted (f o i) = Grid3D.emitted o ++ h i) ->
  forall o, Grid3D.emitted (fold_left f l o) = Grid3D.emitted o ++ flat_map h l.
Proof.
  induction l as [|i l IH]; intros Hf o.
  - simpl. rewrite app_nil_r. reflexivity.
  - cbn [fold_left flat_map]. rewrite IH.
    + rewrite Hf by (left; reflexivity). rewrite app_assoc. reflexivity.
    + intros o' j Hj. apply Hf. right. exact Hj.
Qed.

Section Emission.
Context {LPFloat : Type} {R : Randomness LPFloat} {C : CubeRoot} {M : Memory}.
Variable OUTPUT_EDGES : bool.
Variable g : Grid3D.t LPFloat.
Hypothesis Hwf : wf g.
Hypothesis Hfit63 :
  Grid3D.total_x_ g * Grid3D.total_y_ g * Grid3D.total_z_ g < 2 ^ 63.

(** The directions in the order [GenerateEdges] queries them. *)
Definition directions : list Grid3D.Direction :=
  [Grid3D.Right; Grid3D.Left; Grid3D.Up; Grid3D.Down; Grid3D.Front; Grid3D.Back].

Definition edge_of_query (c u : Z) (direction : Grid3D.Direction) : list (Z * Z) :=
  match target g c u direction with
  | Some v => if Grid3D.edge_accepted g u v then [(u, v)] else []
  | None => []
  end.

Definition edges_of_vertex (c u : Z) : list (Z * Z) :=
  flat_map (edge_of_query c u) directions.

Definition edges_of_chunk (c : Z) : list (Z * Z) :=
  flat_map (edges_of_vertex c)
           (Grid3D.loop_range (offset_of g c) (offset_of g (c + 1))).

Lemma QueryInDirection_emitted (out : Grid3D.output) (c u : Z)
    (direction : Grid3D.Direction) :
  in_chunk g c u ->
  Grid3D.emitted (Grid3D.QueryInDirection OUTPUT_EDGES g out c u direction)
  = Grid3D.emitted out ++ edge_of_query c u direction.
Proof.
  intros Hin. rewrite (QueryInDirection_target g Hwf Hfit63) by exact Hin.
  unfold edge_of_query. destruct (target g c u direction) as [v|].
  - apply GenerateEdge_emitted.
  - rewrite app_nil_r. reflexivity.
Qed.

Lemma GenerateEdges_emitted (out : Grid3D.output) (c u : Z) :
  in_chunk g c u ->
  Grid3D.emitted (Grid3D.GenerateEdges OUTPUT_EDGES g out c u)
  = Grid3D.emitted out ++ edges_of_vertex c u.
Proof.
  intros Hin. unfold Grid3D.GenerateEdges, edges_of_vertex, directions.
  cbv zeta. rewrite !QueryInDirection_emitted by exact Hin.
  cbn [flat_map]. rewrite app_nil_r, <- !app_assoc. reflexivity.
Qed.

Lemma GenerateChunk_emitted (out : Grid3D.output) (c : Z) :
  0 <= c < Grid3D.total_chunks_ g ->
  Grid3D.emitted (Grid3D.GenerateChunk OUTPUT_EDGES g out c)
  = Grid3D.emitted out ++ edges_of_chunk c.
Proof.
  intros Hc. unfold Grid3D.GenerateChunk, edges_of_chunk. cbv zeta.
  pose proof (wf_k_fits g Hwf) as Hk.
  assert (E : SInt.add c 1 = c + 1) by (apply wrap_small; lia).
  rewrite E.
  rewrite !(fun b => OffsetForChunk_exact g Hwf b (fits63_fits g Hfit63)) by lia.
  apply fold_left_emitted. intros o i Hi.
  apply GenerateEdges_emitted. apply In_loop_range in Hi.
  split; assumption.
Qed.

End Emission.

(** Projections of a state whose node range has been assigned. *)
Ltac geometry_fields :=
  cbn [Grid3D.set_nodes Grid3D.config_n Grid3D.config_seed Grid3D.config_periodic
       Grid3D.edge_probability_ Grid3D.total_x_ Grid3D.total_y_ Grid3D.total_z_
       Grid3D.total_chunks_ Grid3D.chunks_per_dim_ Grid3D.x_per_chunk_
       Grid3D.y_per_chunk_ Grid3D.z_per_chunk_ Grid3D.remaining_x_
       Grid3D.remaining_y_ Grid3D.remaining_z_].

Section Runs.
Context {LPFloat : Type} {R : Randomness LPFloat} {C : CubeRoot} {M : Memory}.
Variable OUTPUT_EDGES : bool.
Variable config : PGeneratorConfig LPFloat.
Variables size d : Z.
Hypothesis Hvalid : valid_grid config d.
Hypothesis Hfit63 :
  cfg_grid_x config * cfg_grid_y config * cfg_grid_z config < 2 ^ 63.
Hypothesis Hsize : 1 <= size.
Hypothesis Halloc : resizable (cfg_dist_size config) = true.

Lemma offset_of_set_nodes (g : Grid3D.t LPFloat) (a b n c : Z) :
  offset_of (Grid3D.set_nodes g a b n) c = offset_of g c.
Proof.
  unfold offset_of, offset_at, x_start, y_start, z_start, cx_of, cy_of, cz_of.
  geometry_fields. reflexivity.
Qed.

Lemma edge_accepted_set_nodes (g : Grid3D.t LPFloat) (a b n u v : Z) :
  Grid3D.edge_accepted (Grid3D.set_nodes g a b n) u v = Grid3D.edge_accepted g u v.
Proof.
  unfold Grid3D.edge_accepted, Grid3D.edge_hash, Grid3D.edge_seed.
  geometry_fields. reflexivity.
Qed.

Lemma target_set_nodes (g : Grid3D.t LPFloat) (a b n c u : Z)
    (direction : Grid3D.Direction) :
  target (Grid3D.set_nodes g a b n) c u direction = target g c u direction.
Proof.
  unfold target, local_coords, neighbor_chunk, entry_coords, vertex_at, wrap_coord.
  rewrite !offset_of_set_nodes.
  unfold x_len, y_len, z_len, cx_of, cy_of, cz_of.
  geometry_fields. reflexivity.
Qed.

Lemma edges_of_chunk_set_nodes (g : Grid3D.t LPFloat) (a b n c : Z) :
  edges_of_chunk (Grid3D.set_nodes g a b n) c = edges_of_chunk g c.
Proof.
  unfold edges_of_chunk. rewrite !offset_of_set_nodes.
  apply flat_map_ext. intros u.
  unfold edges_of_vertex. apply flat_map_ext. intros direction.
  unfold edge_of_query. rewrite target_set_nodes.
  destruct (target g c u direction) as [v|]; [|reflexivity].
  rewrite edge_accepted_set_nodes. reflexivity.
Qed.

Lemma set_nodes_wf (g : Grid3D.t LPFloat) (a b n : Z) :
  wf g -> wf (Grid3D.set_nodes g a b n).
Proof. intros [? ? ? ? ? ? ? ? ? ? ? ?]. constructor; assumption. Qed.

Lemma flat_map_over_map {A B D : Type} (f : B -> list D) (h : A -> B) (l : list A) :
  flat_map f (map h l) = flat_map (fun x => f (h x)) l.
Proof.
  induction l as [|x l IH]; [reflexivity|].
  cbn [map flat_map]. rewrite IH. reflexivity.
Qed.

Lemma loop_range_shift (start num : Z) :
  0 <= start -> 0 <= num -> start + num < SInt.modulus ->
  map (fun i => SInt.add start i) (Grid3D.loop_range 0 num)
  = Grid3D.loop_range start (start + num).
Proof.
  intros Hs Hn Hfit. unfold Grid3D.loop_range. rewrite map_map.
  replace (start + num - start) with (num - 0) by lia.
  apply map_ext_in. intros j Hj. apply in_seq in Hj.
  unfold SInt.add. rewrite wrap_small by lia. lia.
Qed.

(** What participant [rank] hands to the callback: the edges of its
    chunks, in chunk order. *)
Lemma emitted_by_chunks (rank : Z) :
  0 <= rank < size ->
  Grid3D.emitted_by OUTPUT_EDGES config rank size
  = flat_map (edges_of_chunk (grid_of config d))
      (Grid3D.loop_range (start_chunk_of (cfg_k config) rank size)
                         (start_chunk_of (cfg_k config) (rank + 1) size)).
Proof.
  intros Hr.
  pose proof (k_range config d Hvalid) as Hk.
  pose proof (start_chunk_bounds (cfg_k config) rank size Hsize ltac:(lia) ltac:(lia))
    as Hb0.
  pose proof (start_chunk_bounds (cfg_k config) (rank + 1) size Hsize
                ltac:(lia) ltac:(lia)) as Hb1.
  pose proof (start_chunk_next (cfg_k config) rank size Hsize ltac:(lia) ltac:(lia))
    as Hnext.
  pose proof (num_chunks_nonneg (cfg_k config) rank size Hsize ltac:(lia)) as Hnum.
  unfold Grid3D.emitted_by. rewrite (construct_resizable config Halloc).
  unfold Grid3D.Generate. cbn [Grid3D.config_ Grid3D.initial_io_].
  rewrite (Init_eq config rank size d Hvalid).
  rewrite (owned_chunks_exact (cfg_k config) rank size) by lia.
  cbv zeta.
  set (G := grid_of config d).
  match goal with
  | |- context [fold_left _ _ ?o] => set (out0 := o)
  end.
  match goal with
  | |- context [Grid3D.set_nodes G ?a0 ?b0 ?n0] =>
      generalize a0, b0, n0
  end.
  intros a b n.
  assert (Hwf : wf (Grid3D.set_nodes G a b n))
    by (apply set_nodes_wf, grid_of_wf; exact Hvalid).
  assert (Hfit : Grid3D.total_x_ (Grid3D.set_nodes G a b n)
                 * Grid3D.total_y_ (Grid3D.set_nodes G a b n)
                 * Grid3D.total_z_ (Grid3D.set_nodes G a b n) < 2 ^ 63)
    by exact Hfit63.
  rewrite Hnext, <- loop_range_shift by lia.
  rewrite flat_map_over_map.
  rewrite (fold_left_emitted _
             (fun i => edges_of_chunk (Grid3D.set_nodes G a b n)
                         (SInt.add (start_chunk_of (cfg_k config) rank size) i))).
  - cbn [Grid3D.emitted app]. apply flat_map_ext. intros i.
    apply edges_of_chunk_set_nodes.
  - intros o i Hi. apply In_loop_range in Hi.
    assert (E : SInt.add (start_chunk_of (cfg_k config) rank size) i
                = start_chunk_of (cfg_k config) rank size + i)
      by (apply wrap_small; lia).
    rewrite E.
    apply (GenerateChunk_emitted OUTPUT_EDGES _ Hwf Hfit).
    cbn [Grid3D.set_nodes Grid3D.total_chunks_ G grid_of]. lia.
Qed.

End Runs.

(** ** Neighbouring chunks *)

Section Neighbours.
Context {LPFloat : Type}.
Variable g : Grid3D.t LPFloat.
Hypothesis Hwf : wf g.

Lemma chunk_id_of_coords (c : Z) :
  0 <= c ->
  c = cx_of g c + cy_of g c * Grid3D.chunks_per_dim_ g
      + cz_of g c * (Grid3D.chunks_per_dim_ g * Grid3D.chunks_per_dim_ g).
Proof.
  intros Hc. apply (encode_decode _ (wf_d g Hwf) c Hc).
Qed.

Lemma coords_of_chunk_id (x y z : Z) :
  let d := Grid3D.chunks_per_dim_ g in
  0 <= x < d -> 0 <= y < d -> 0 <= z < d ->
  let c := x + y * d + z * (d * d) in
  0 <= c < Grid3D.total_chunks_ g
  /\ cx_of g c = x /\ cy_of g c = y /\ cz_of g c = z.
Proof.
  intros d Hx Hy Hz c.
  destruct (decode_encode d (wf_d g Hwf) x y z Hx Hy ltac:(lia)) as (Ex & Ey & Ez).
  split; [|unfold cx_of, cy_of, cz_of; fold d c; auto].
  rewrite (wf_k g Hwf). fold d. subst c.
  assert (0 <= d * d) by nia.
  assert (y * d <= (d - 1) * d) by (apply Z.mul_le_mono_nonneg_r; lia).
  assert (z * (d * d) <= (d - 1) * (d * d)) by (apply Z.mul_le_mono_nonneg_r; lia).
  assert (0 <= y * d) by nia.
  assert (0 <= z * (d * d)) by (apply Z.mul_nonneg_nonneg; lia).
  nia.
Qed.

Lemma neighbor_chunk_coords (c c' : Z) (direction : Grid3D.Direction) :
  neighbor_chunk g c direction = Some c' ->
  let d := Grid3D.chunks_per_dim_ g in
  let x' := wrap_coord g (cx_of g c + Grid3D.DirectionX direction) in
  let y' := wrap_coord g (cy_of g c + Grid3D.DirectionY direction) in
  let z' := wrap_coord g (cz_of g c + Grid3D.DirectionZ direction) in
  0 <= x' < d /\ 0 <= y' < d /\ 0 <= z' < d
  /\ c' = x' + y' * d + z' * (d * d)
  /\ 0 <= c' < Grid3D.total_chunks_ g
  /\ cx_of g c' = x' /\ cy_of g c' = y' /\ cz_of g c' = z'.
Proof.
  unfold neighbor_chunk. cbv zeta. intros H.
  set (d := Grid3D.chunks_per_dim_ g) in *.
  set (x' := wrap_coord g (cx_of g c + Grid3D.DirectionX direction)) in *.
  set (y' := wrap_coord g (cy_of g c + Grid3D.DirectionY direction)) in *.
  set (z' := wrap_coord g (cz_of g c + Grid3D.DirectionZ direction)) in *.
  destruct (within x' d && within y' d && within z' d) eqn:Hv; [|discriminate].
  injection H as <-.
  apply andb_true_iff in Hv as [Hv Hz]. apply andb_true_iff in Hv as [Hx Hy].
  apply within_spec in Hx, Hy, Hz.
  pose proof (coords_of_chunk_id x' y' z' Hx Hy Hz) as Hc. cbv zeta in Hc. fold d in Hc.
  repeat split; try lia; apply Hc.
Qed.

Lemma wrap_coord_same (a : Z) :
  0 <= a < Grid3D.chunks_per_dim_ g -> wrap_coord g (a + 0) = a.
Proof.
  intros Ha. rewrite Z.add_0_r. unfold wrap_coord.
  destruct (Grid3D.config_periodic g); [apply Z.mod_small; lia | reflexivity].
Qed.

Lemma wrap_coord_succ (a : Z) :
  let d := Grid3D.chunks_per_dim_ g in
  0 <= a < d -> 0 <= wrap_coord g (a + 1) < d ->
  (a + 1 < d /\ wrap_coord g (a + 1) = a + 1)
  \/ (Grid3D.config_periodic g = true /\ a = d - 1 /\ wrap_coord g (a + 1) = 0).
Proof.
  intros d Ha. unfold wrap_coord. fold d.
  destruct (Grid3D.config_periodic g); intros Hw.
  - destruct (Z.lt_ge_cases (a + 1) d) as [Hlt|Hge].
    + left. split; [lia | apply Z.mod_small; lia].
    + right. assert (a + 1 = d) as -> by lia.
      rewrite Z_mod_same_full. repeat split. lia.
  - left. split; [lia | reflexivity].
Qed.

Lemma wrap_coord_pred (a : Z) :
  let d := Grid3D.chunks_per_dim_ g in
  0 <= a < d -> 0 <= wrap_coord g (a + -1) < d ->
  (1 <= a /\ wrap_coord g (a + -1) = a - 1)
  \/ (Grid3D.config_periodic g = true /\ a = 0 /\ wrap_coord g (a + -1) = d - 1).
Proof.
  intros d Ha. unfold wrap_coord. fold d.
  destruct (Grid3D.config_periodic g); intros Hw.
  - destruct (Z.eq_dec a 0) as [->|Hne].
    + right. repeat split.
      symmetry. apply (Z.mod_unique (0 + -1) d (-1) (d - 1)); lia.
    + left. split; [lia|]. rewrite Z.mod_small by lia. lia.
  - left. split; [lia | lia].
Qed.

(** Vertices of an earlier chunk have smaller ids. *)
Lemma in_chunk_lt (c c' u v : Z) :
  in_chunk g c u -> in_chunk g c' v -> c < c' -> u < v.
Proof.
  intros [Hc Hu] [Hc' Hv] Hlt.
  pose proof (offset_mono g Hwf (c + 1) c' ltac:(lia) ltac:(lia) ltac:(lia)). lia.
Qed.

Lemma in_chunk_below (c c' u : Z) :
  in_chunk g c u -> c < c' <= Grid3D.total_chunks_ g -> u < offset_of g c'.
Proof.
  intros [Hc Hu] Hlt.
  pose proof (offset_mono g Hwf (c + 1) c' ltac:(lia) ltac:(lia) ltac:(lia)). lia.
Qed.

Lemma in_chunk_unique (c c' u : Z) :
  in_chunk g c u -> in_chunk g c' u -> c = c'.
Proof.
  intros H H'. destruct (Z.lt_trichotomy c c') as [Hlt|[Heq|Hgt]]; [|exact Heq|].
  - pose proof (in_chunk_lt c c' u u H H' Hlt). lia.
  - pose proof (in_chunk_lt c' c u u H' H Hgt). lia.
Qed.

End Neighbours.

(** ** Opposite directions *)

Definition opposite (direction : Grid3D.Direction) : Grid3D.Direction :=
  match direction with
  | Grid3D.Up => Grid3D.Down
  | Grid3D.Down => Grid3D.Up
  | Grid3D.Left => Grid3D.Right
  | Grid3D.Right => Grid3D.Left
  | Grid3D.Front => Grid3D.Back
  | Grid3D.Back => Grid3D.Front
  end.

Lemma opposite_steps (direction : Grid3D.Direction) :
  Grid3D.DirectionX (opposite direction) = - Grid3D.DirectionX direction
  /\ Grid3D.DirectionY (opposite direction) = - Grid3D.DirectionY direction
  /\ Grid3D.DirectionZ (opposite direction) = - Grid3D.DirectionZ direction.
Proof. destruct direction; repeat split. Qed.

Section NeighbourBack.
Context {LPFloat : Type}.
Variable g : Grid3D.t LPFloat.
Hypothesis Hwf : wf g.

Lemma wrap_coord_back (a delta : Z) :
  let d := Grid3D.chunks_per_dim_ g in
  0 <= a < d -> -1 <= delta <= 1 ->
  0 <= wrap_coord g (a + delta) < d ->
  wrap_coord g (wrap_coord g (a + delta) + - delta) = a.
Proof.
  intros d Ha Hdelta Hw.
  assert (Hcases : delta = 0 \/ delta = 1 \/ delta = -1) by lia.
  destruct Hcases as [->|[->| ->]].
  - rewrite (wrap_coord_same g a Ha). apply (wrap_coord_same g a Ha).
  - destruct (wrap_coord_succ g a Ha Hw) as [[Hlt ->]|(Hp & -> & ->)].
    + unfold wrap_coord. fold d.
      replace (a + 1 + - (1)) with a by lia.
      destruct (Grid3D.config_periodic g); [apply Z.mod_small; lia | reflexivity].
    + unfold wrap_coord. fold d. rewrite Hp.
      symmetry. apply (Z.mod_unique (0 + - (1)) d (-1) (d - 1)); lia.
  - destruct (wrap_coord_pred g a Ha Hw) as [[Hlt ->]|(Hp & -> & ->)].
    + unfold wrap_coord. fold d.
      replace (a - 1 + - -1) with a by lia.
      destruct (Grid3D.config_periodic g); [apply Z.mod_small; lia | reflexivity].
    + unfold wrap_coord. fold d. rewrite Hp.
      replace (d - 1 + - -1) with d by lia. apply Z_mod_same_full.
Qed.

Lemma neighbor_back (c c' : Z) (direction : Grid3D.Direction) :
  0 <= c < Grid3D.total_chunks_ g ->
  neighbor_chunk g c direction = Some c' ->
  neighbor_chunk g c' (opposite direction) = Some c.
Proof.
  intros Hc Hn.
  destruct (neighbor_chunk_coords g Hwf c c' direction Hn)
    as (Hx & Hy & Hz & _ & _ & Ex & Ey & Ez).
  destruct (coords_range g Hwf c Hc) as (Hcx & Hcy & Hcz).
  destruct (direction_steps direction) as (Hdx & Hdy & Hdz).
  destruct (opposite_steps direction) as (Ox & Oy & Oz).
  unfold neighbor_chunk. cbv zeta. rewrite Ex, Ey, Ez, Ox, Oy, Oz.
  rewrite !wrap_coord_back by assumption.
  replace (within (cx_of g c) (Grid3D.chunks_per_dim_ g)) with true
    by (symmetry; apply within_spec; lia).
  replace (within (cy_of g c) (Grid3D.chunks_per_dim_ g)) with true
    by (symmetry; apply within_spec; lia).
  replace (within (cz_of g c) (Grid3D.chunks_per_dim_ g)) with true
    by (symmetry; apply within_spec; lia).
  cbn [andb]. f_equal. symmetry. apply (chunk_id_of_coords g Hwf). lia.
Qed.

End NeighbourBack.

(** ** Every accepted adjacency is queried from both ends *)

Section Symmetry.
Context {LPFloat : Type}.
Variable g : Grid3D.t LPFloat.
Hypothesis Hwf : wf g.
Hypothesis Hfit63 :
  Grid3D.total_x_ g * Grid3D.total_y_ g * Grid3D.total_z_ g < 2 ^ 63.

(** No chunk is empty: each axis has at least as many cells as chunks. *)
Hypothesis Hcells :
  Grid3D.chunks_per_dim_ g <= Grid3D.total_x_ g
  /\ Grid3D.chunks_per_dim_ g <= Grid3D.total_y_ g
  /\ Grid3D.chunks_per_dim_ g <= Grid3D.total_z_ g.

Lemma extents_pos (cx cy cz : Z) :
  1 <= x_len g cx /\ 1 <= y_len g cy /\ 1 <= z_len g cz.
Proof.
  destruct Hcells as (Hx & Hy & Hz). pose proof (wf_d g Hwf) as Hd.
  pose proof (wf_x g Hwf). pose proof (wf_y g Hwf). pose proof (wf_z g Hwf).
  unfold x_len, y_len, z_len.
  rewrite (wf_x_per g Hwf), (wf_y_per g Hwf), (wf_z_per g Hwf).
  rewrite (wf_x_rem g Hwf), (wf_y_rem g Hwf), (wf_z_rem g Hwf).
  repeat split; apply axis_len_pos; lia.
Qed.

(** A query that enters chunk [c'] at coordinates inside it reaches the
    vertex with these coordinates. *)
Lemma entry_vertex (c' x y z : Z) :
  0 <= c' < Grid3D.total_chunks_ g ->
  0 <= x < x_len g (cx_of g c') -> 0 <= y < y_len g (cy_of g c') ->
  0 <= z < z_len g (cz_of g c') ->
  SInt.wrap (vertex_at g c' x y z) = vertex_at g c' x y z
  /\ in_chunk g c' (vertex_at g c' x y z)
  /\ local_coords g c' (vertex_at g c' x y z) = (x, y, z).
Proof.
  intros Hc Hx Hy Hz.
  destruct (vertex_at_in_chunk g Hwf c' x y z Hc Hx Hy Hz) as [Hin Hlc].
  split; [|split; assumption].
  destruct (in_chunk_facts g Hwf c' _ Hin) as (_ & _ & _ & _ & Hnext & Hoff & Htop).
  destruct Hin as [_ Hin]. rewrite Hnext in Hin.
  apply wrap_small. unfold SInt.modulus. lia.
Qed.

Lemma target_symmetric (c u v : Z) (direction : Grid3D.Direction) :
  in_chunk g c u ->
  target g c u direction = Some v ->
  exists c', in_chunk g c' v /\ target g c' v (opposite direction) = Some u.
Proof.
  intros Hin Ht.
  destruct (local_coords_facts g Hwf c u Hin) as (lx & ly & lz & Hlc & Hlx & Hly & Hlz & Hu).
  destruct (opposite_steps direction) as (Ox & Oy & Oz).
  destruct (direction_steps direction) as (Hdx & Hdy & Hdz).
  pose proof Hin as [Hc _].
  destruct (coords_range g Hwf c Hc) as (Hcx & Hcy & Hcz).
  assert (Hwu : SInt.wrap u = u).
  { destruct (in_chunk_facts g Hwf c u Hin) as (_ & _ & _ & _ & Hnext & Hoff & Htop).
    destruct Hin as [_ Hin']. rewrite Hnext in Hin'.
    apply wrap_small. unfold SInt.modulus. lia. }
  unfold target in Ht. rewrite Hlc in Ht.
  set (xs := x_len g (cx_of g c)) in *.
  set (ys := y_len g (cy_of g c)) in *.
  set (zs := z_len g (cz_of g c)) in *.
  destruct (within (lx + Grid3D.DirectionX direction) xs
            && within (ly + Grid3D.DirectionY direction) ys
            && within (lz + Grid3D.DirectionZ direction) zs) eqn:Hlocal.
  - (* the neighbour lies in the same chunk *)
    injection Ht as <-.
    apply andb_true_iff in Hlocal as [Hlocal Hnz].
    apply andb_true_iff in Hlocal as [Hnx Hny].
    apply within_spec in Hnx, Hny, Hnz.
    destruct (vertex_at_in_chunk g Hwf c _ _ _ Hc Hnx Hny Hnz) as [Hvin Hvlc].
    exists c. split; [exact Hvin|].
    unfold target. rewrite Hvlc, Ox, Oy, Oz. fold xs ys zs.
    replace (lx + Grid3D.DirectionX direction + - Grid3D.DirectionX direction)
      with lx by lia.
    replace (ly + Grid3D.DirectionY direction + - Grid3D.DirectionY direction)
      with ly by lia.
    replace (lz + Grid3D.DirectionZ direction + - Grid3D.DirectionZ direction)
      with lz by lia.
    replace (within lx xs) with true by (symmetry; apply within_spec; lia).
    replace (within ly ys) with true by (symmetry; apply within_spec; lia).
    replace (within lz zs) with true by (symmetry; apply within_spec; lia).
    cbn [andb]. rewrite <- Hu. reflexivity.
  - (* the neighbour lies in another chunk *)
    destruct (neighbor_chunk g c direction) as [c'|] eqn:Hn; [|discriminate].
    pose proof (neighbor_back g Hwf c c' direction Hc Hn) as Hback.
    destruct (neighbor_chunk_coords g Hwf c c' direction Hn)
      as (Hx' & Hy' & Hz' & _ & Hc' & Ex & Ey & Ez).
    destruct (extents_pos (cx_of g c') (cy_of g c') (cz_of g c')) as (Hxs' & Hys' & Hzs').
    exists c'.
    assert (Hwithin : forall a b, 0 <= a < b -> within a b = true)
      by (intros a b Hab; apply within_spec; exact Hab).
    assert (Hout : forall a b, ~ 0 <= a < b -> within a b = false).
    { intros a b Hab. destruct (within a b) eqn:E; [|reflexivity].
      apply within_spec in E. contradiction. }
    destruct direction; cbn [Grid3D.DirectionX Grid3D.DirectionY Grid3D.DirectionZ
                             entry_coords opposite] in *;
      try rewrite (wrap_coord_same g _ Hcx) in Ex;
      try rewrite (wrap_coord_same g _ Hcy) in Ey;
      try rewrite (wrap_coord_same g _ Hcz) in Ez;
      rewrite ?Z.add_0_r in Hlocal;
      rewrite ?(Hwithin lx xs), ?(Hwithin ly ys), ?(Hwithin lz zs) in Hlocal by lia;
      cbn [andb] in Hlocal; rewrite ?andb_true_r in Hlocal;
      (destruct (within _ _) eqn:Hw in Hlocal; [discriminate|]);
      (assert (Hedge : forall a b, within a b = false -> ~ 0 <= a < b)
         by (intros a b E F; apply within_spec in F; congruence));
      apply Hedge in Hw; clear Hedge;
      injection Ht as <-.
      all: match goal with
       | Hc0 : 0 <= ?c0 < Grid3D.total_chunks_ g, Ex0 : cx_of g ?c0 = _ |- context [vertex_at g ?c0 ?x ?y ?z] =>
           destruct (entry_vertex c0 x y z Hc0)
             as (Hwrap & Hvin & Hvlc)
       end.
      all: try lia.
      all: try (unfold xs, ys, zs in *; rewrite ?Ex, ?Ey, ?Ez; lia).
      all: rewrite Hwrap; split; [exact Hvin|].
      all: unfold target; rewrite Hvlc, Hback.
      all: cbn [Grid3D.DirectionX Grid3D.DirectionY Grid3D.DirectionZ entry_coords].
      all: rewrite ?Z.add_0_r.
      all: rewrite ?(Hwithin ly), ?(Hwithin lz), ?(Hwithin lx)
        by (unfold xs, ys, zs in *; rewrite ?Ex, ?Ey, ?Ez; lia).
      all: rewrite ?(Hout (0 + -1)), ?(Hout (_ - 1 + 1)) by lia.
      all: cbn [andb]; rewrite ?andb_false_r.
      all: fold xs ys zs.
      all: rewrite <- Hwu, Hu; do 2 f_equal; f_equal; lia.
Qed.

End Symmetry.

(** ** No query targets its own vertex *)

Section NoLoop.
Context {LPFloat : Type}.
Variable g : Grid3D.t LPFloat.
Hypothesis Hwf : wf g.
Hypothesis Hfit63 :
  Grid3D.total_x_ g * Grid3D.total_y_ g * Grid3D.total_z_ g < 2 ^ 63.

(** A query that leaves chunk [c] for a later chunk [c'] and lands
    [E] cells after its offset, [E] not more than the local index of the
    querying vertex, reaches a larger id. *)
Lemma lands_after (c c' u E : Z) :
  in_chunk g c u -> c < c' < Grid3D.total_chunks_ g ->
  0 <= E <= u - offset_of g c ->
  u < SInt.wrap (offset_of g c' + E).
Proof.
  intros Hin Hc' HE. pose proof Hin as [Hc _].
  pose proof (in_chunk_below g Hwf c c' u Hin ltac:(lia)) as Hlt.
  destruct (in_chunk_facts g Hwf c u Hin) as (_ & _ & _ & Hlv & _ & Hoff & Htop).
  pose proof (offset_bounds g Hwf c' ltac:(lia)) as Hb.
  rewrite wrap_small by (unfold SInt.modulus; lia). lia.
Qed.

(** The same when the landing point lies before the offset of [c'] but
    not before the end of chunk [c]. *)
Lemma lands_after_gap (c c' u E : Z) :
  in_chunk g c u -> c < c' < Grid3D.total_chunks_ g ->
  E <= 0 -> offset_of g (c + 1) <= offset_of g c' + E ->
  u < SInt.wrap (offset_of g c' + E).
Proof.
  intros Hin Hc' HE Hgap.
  destruct Hin as [Hc Hu].
  pose proof (offset_bounds g Hwf c' ltac:(lia)) as Hb.
  pose proof (offset_bounds g Hwf (c + 1) ltac:(lia)) as Hb1.
  rewrite wrap_small by (unfold SInt.modulus; lia). lia.
Qed.

(** A query that lands inside another chunk reaches another vertex. *)
Lemma lands_inside (c c' u x y z : Z) :
  in_chunk g c u -> 0 <= c' < Grid3D.total_chunks_ g -> c <> c' ->
  0 <= x < x_len g (cx_of g c') -> 0 <= y < y_len g (cy_of g c') ->
  0 <= z < z_len g (cz_of g c') ->
  u <> SInt.wrap (vertex_at g c' x y z).
Proof.
  intros Hin Hc' Hne Hx Hy Hz.
  destruct (entry_vertex g Hwf Hfit63 c' x y z Hc' Hx Hy Hz) as (-> & Hvin & _).
  intros ->. apply Hne. apply (in_chunk_unique g Hwf c c' _ Hin Hvin).
Qed.

(** Inside one chunk, different coordinates are different vertices. *)
Lemma lands_beside (c u x y z lx ly lz : Z) :
  0 <= c < Grid3D.total_chunks_ g ->
  u = vertex_at g c lx ly lz ->
  0 <= lx < x_len g (cx_of g c) -> 0 <= ly < y_len g (cy_of g c) ->
  0 <= lz < z_len g (cz_of g c) ->
  0 <= x < x_len g (cx_of g c) -> 0 <= y < y_len g (cy_of g c) ->
  0 <= z < z_len g (cz_of g c) ->
  (x, y, z) <> (lx, ly, lz) ->
  u <> SInt.wrap (vertex_at g c x y z).
Proof.
  intros Hc Hu Hlx Hly Hlz Hx Hy Hz Hne.
  destruct (entry_vertex g Hwf Hfit63 c x y z Hc Hx Hy Hz) as (-> & _ & Hlc).
  destruct (entry_vertex g Hwf Hfit63 c lx ly lz Hc Hlx Hly Hlz) as (_ & _ & Hlc').
  intros E. apply Hne. rewrite <- Hlc, <- Hlc', <- Hu, E. reflexivity.
Qed.

(** Along an axis with at least two cells whose last chunk is empty, there
    are at least three chunks and the second one holds one cell. *)
Lemma empty_last_chunk (total d : Z) :
  1 <= d -> 2 <= total ->
  axis_len (total / d) (total mod d) (d - 1) = 0 ->
  3 <= d /\ axis_len (total / d) (total mod d) 1 = 1.
Proof.
  intros Hd Ht Hlen.
  destruct (axis_div_mod total d Hd ltac:(lia)) as (Htot & Hrem & Hper).
  unfold axis_len in *.
  destruct (Z.ltb_spec (d - 1) (total mod d)); [lia|].
  assert (total / d = 0) as Hp by lia. rewrite Hp in *.
  destruct (Z.ltb_spec 1 (total mod d)); lia.
Qed.

(** With a single chunk per axis, the chunk spans the axis. *)
Lemma single_chunk_len (total : Z) :
  axis_len (total / 1) (total mod 1) 0 = total.
Proof.
  unfold axis_len. rewrite Z.div_1_r, Z.mod_1_r. rewrite Z.ltb_irrefl. lia.
Qed.

(** The extents of the chunks along one axis. *)
Lemma len_facts (total : Z) :
  1 <= total ->
  let d := Grid3D.chunks_per_dim_ g in
  let len := axis_len (total / d) (total mod d) in
  (forall a b, a <= b -> len b <= len a)
  /\ (forall a, 0 <= a -> 0 <= len a)
  /\ 1 <= len 0
  /\ (d = 1 -> len 0 = total)
  /\ (2 <= total -> len (d - 1) = 0 -> 3 <= d /\ len 1 = 1).
Proof.
  intros Ht d len. pose proof (wf_d g Hwf) as Hd. fold d in Hd.
  split; [intros a b Hab; apply axis_len_antitone; exact Hab|].
  split; [intros a Ha; apply (axis_len_le_total g Hwf); lia|].
  split; [apply axis_len_first; lia|].
  split; [intros E; subst len; rewrite E; apply single_chunk_len|].
  intros H2 Hlast. apply empty_last_chunk; assumption.
Qed.

Lemma x_len_facts :
  let d := Grid3D.chunks_per_dim_ g in
  (forall a b, a <= b -> x_len g b <= x_len g a)
  /\ (forall a, 0 <= a -> 0 <= x_len g a)
  /\ 1 <= x_len g 0
  /\ (d = 1 -> x_len g 0 = Grid3D.total_x_ g)
  /\ (2 <= Grid3D.total_x_ g -> x_len g (d - 1) = 0 -> 3 <= d /\ x_len g 1 = 1).
Proof.
  unfold x_len. rewrite (wf_x_per g Hwf), (wf_x_rem g Hwf).
  apply len_facts. apply (wf_x g Hwf).
Qed.

Lemma y_len_facts :
  let d := Grid3D.chunks_per_dim_ g in
  (forall a b, a <= b -> y_len g b <= y_len g a)
  /\ (forall a, 0 <= a -> 0 <= y_len g a)
  /\ 1 <= y_len g 0
  /\ (d = 1 -> y_len g 0 = Grid3D.total_y_ g)
  /\ (2 <= Grid3D.total_y_ g -> y_len g (d - 1) = 0 -> 3 <= d /\ y_len g 1 = 1).
Proof.
  unfold y_len. rewrite (wf_y_per g Hwf), (wf_y_rem g Hwf).
  apply len_facts. apply (wf_y g Hwf).
Qed.

Lemma z_len_facts :
  let d := Grid3D.chunks_per_dim_ g in
  (forall a b, a <= b -> z_len g b <= z_len g a)
  /\ (forall a, 0 <= a -> 0 <= z_len g a)
  /\ 1 <= z_len g 0
  /\ (d = 1 -> z_len g 0 = Grid3D.total_z_ g)
  /\ (2 <= Grid3D.total_z_ g -> z_len g (d - 1) = 0 -> 3 <= d /\ z_len g 1 = 1).
Proof.
  unfold z_len. rewrite (wf_z_per g Hwf), (wf_z_rem g Hwf).
  apply len_facts. apply (wf_z g Hwf).
Qed.

(** The offset reached after the chunk with coordinates [(x, y, z)]. *)
Lemma offset_after (x y z c' : Z) :
  let d := Grid3D.chunks_per_dim_ g in
  0 <= x < d -> 0 <= y < d -> 0 <= z < d ->
  x + y * d + z * (d * d) < c' <= Grid3D.total_chunks_ g ->
  offset_of g (x + y * d + z * (d * d)) + x_len g x * y_len g y * z_len g z
  <= offset_of g c'.
Proof.
  intros d Hx Hy Hz Hc'.
  pose proof (coords_of_chunk_id g Hwf x y z Hx Hy Hz) as H. cbv zeta in H.
  fold d in H. destruct H as (Hc & Ex & Ey & Ez).
  pose proof (offset_step g Hwf _ Hc) as Hstep.
  unfold cells_of, cells in Hstep. rewrite Ex, Ey, Ez in Hstep.
  rewrite <- Hstep. apply (offset_mono g Hwf); lia.
Qed.

(** The grid is not periodic, or every axis has at least two cells. *)
Hypothesis Hopen :
  Grid3D.config_periodic g = false
  \/ (2 <= Grid3D.total_x_ g /\ 2 <= Grid3D.total_y_ g /\ 2 <= Grid3D.total_z_ g).

Lemma target_no_loop (c u v : Z) (direction : Grid3D.Direction) :
  in_chunk g c u -> target g c u direction = Some v -> u <> v.
Proof.
  intros Hin Ht.
  destruct (local_coords_facts g Hwf c u Hin) as (lx & ly & lz & Hlc & Hlx & Hly & Hlz & Hu).
  pose proof Hin as [Hc _].
  destruct (coords_range g Hwf c Hc) as (Hcx & Hcy & Hcz).
  pose proof (chunk_id_of_coords g Hwf c ltac:(lia)) as Hid.
  pose proof (wf_d g Hwf) as Hd.
  destruct x_len_facts as (Hxanti & Hxnn & Hx0 & Hx1 & Hxlast).
  destruct y_len_facts as (Hyanti & Hynn & Hy0 & Hy1 & Hylast).
  destruct z_len_facts as (Hzanti & Hznn & Hz0 & Hz1 & Hzlast).
  cbv zeta in *.
  unfold target in Ht. rewrite Hlc in Ht.
  set (d := Grid3D.chunks_per_dim_ g) in *.
  set (xs := x_len g (cx_of g c)) in *.
  set (ys := y_len g (cy_of g c)) in *.
  set (zs := z_len g (cz_of g c)) in *.
  assert (Hlocal_index : u - offset_of g c = lx + ly * xs + lz * (xs * ys))
    by (rewrite Hu; unfold vertex_at; fold xs ys; lia).
  assert (Hxy : 1 <= xs * ys) by (clear - Hlx Hly; nia).
  assert (Hlyxs : 0 <= ly * xs) by (clear - Hlx Hly; nia).
  assert (Hlzxy : 0 <= lz * (xs * ys)) by (clear - Hxy Hlz; nia).
  assert (Hdd : 1 <= d * d) by (clear - Hd; nia).
  assert (Hd1d : 2 <= d -> 0 < (d - 1) * d) by (clear; intros; nia).
  assert (Hd1dd : 2 <= d -> 0 < (d - 1) * (d * d)) by (clear; intros; nia).
  assert (Hd2d : 3 <= d -> 0 < (d - 2) * d) by (clear; intros; nia).
  assert (Hd2dd : 3 <= d -> 0 < (d - 2) * (d * d)) by (clear; intros; nia).
  destruct (within (lx + Grid3D.DirectionX direction) xs
            && within (ly + Grid3D.DirectionY direction) ys
            && within (lz + Grid3D.DirectionZ direction) zs) eqn:Hlocal.
  - (* the neighbour lies in the same chunk *)
    injection Ht as <-.
    rewrite Hu at 1. unfold vertex_at. fold xs ys.
    destruct direction; cbn [Grid3D.DirectionX Grid3D.DirectionY Grid3D.DirectionZ];
      lia.
  - (* the neighbour lies in another chunk *)
    destruct (neighbor_chunk g c direction) as [c'|] eqn:Hn; [|discriminate].
    destruct (neighbor_chunk_coords g Hwf c c' direction Hn)
      as (Hx' & Hy' & Hz' & Hid' & Hc' & Ex & Ey & Ez).
    fold d in Hx', Hy', Hz', Hid', Hid.
    assert (Hwithin : forall a b, 0 <= a < b -> within a b = true)
      by (intros a b Hab; apply within_spec; exact Hab).
    assert (Hedge : forall a b, within a b = false -> ~ 0 <= a < b)
      by (intros a b E F; apply within_spec in F; congruence).
    destruct direction; cbn [Grid3D.DirectionX Grid3D.DirectionY Grid3D.DirectionZ
                             entry_coords] in *;
      try rewrite (wrap_coord_same g _ Hcx) in *;
      try rewrite (wrap_coord_same g _ Hcy) in *;
      try rewrite (wrap_coord_same g _ Hcz) in *;
      rewrite ?Z.add_0_r in Hlocal;
      rewrite ?(Hwithin lx xs), ?(Hwithin ly ys), ?(Hwithin lz zs) in Hlocal by lia;
      cbn [andb] in Hlocal; rewrite ?andb_true_r in Hlocal;
      apply Hedge in Hlocal;
      injection Ht as <-.
    + (* Up: the chunk before along y, or the last one around the torus *)
      destruct (wrap_coord_pred g (cy_of g c) Hcy Hy') as [[Hge Hwy]|(Hp & Hcy0 & Hwy)];
        fold d in Hwy; rewrite Hwy in *.
      * pose proof (Hyanti (cy_of g c - 1) (cy_of g c) ltac:(lia)) as Hanti.
        fold ys in Hanti.
        apply (lands_inside c c'); try assumption; rewrite ?Ex, ?Ey, ?Ez;
          fold xs zs; lia.
      * destruct Hopen as [Hnp|(HX2 & HY2 & HZ2)]; [congruence|].
        rewrite Hcy0 in Hid.
        destruct (Z.eq_dec d 1) as [Hd1|Hd1].
        -- assert (c' = c) as -> by (rewrite Hd1 in Hid, Hid'; lia).
           assert (ys = Grid3D.total_y_ g)
             by (unfold ys; rewrite Hcy0; apply Hy1; exact Hd1).
           apply (lands_beside c u lx (ys - 1) lz lx ly lz); fold xs ys zs;
             try assumption; try lia.
           intros E. injection E as E. lia.
        -- specialize (Hd1d ltac:(lia)).
           pose proof (Hynn (d - 1) ltac:(lia)) as Hnn.
           destruct (Z.eq_dec (y_len g (d - 1)) 0) as [Hempty|Hfull].
           ++ destruct (Hylast HY2 Hempty) as [Hd3 Hlen1].
              specialize (Hd2d Hd3).
              apply Z.lt_neq. unfold vertex_at. rewrite Ex, Ey, Hempty. fold xs.
              replace (lx + (0 - 1) * xs + lz * (xs * 0)) with (lx - xs) by ring.
              pose proof (offset_after (cx_of g c) 1 (cz_of g c) c'
                            ltac:(fold d; lia) ltac:(fold d; lia) ltac:(fold d; lia)
                            ltac:(fold d; lia)) as Hafter.
              cbv zeta in Hafter. fold d xs zs in Hafter. rewrite Hlen1 in Hafter.
              pose proof (offset_mono g Hwf (c + 1)
                            (cx_of g c + 1 * d + cz_of g c * (d * d))
                            ltac:(lia) ltac:(lia) ltac:(lia)) as Hmono.
              assert (xs * 1 <= xs * zs) by (apply Z.mul_le_mono_nonneg_l; lia).
              apply (lands_after_gap c c'); [exact Hin | lia | lia | lia].
           ++ apply (lands_inside c c'); try assumption; rewrite ?Ex, ?Ey, ?Ez;
                fold xs zs; lia.
    + (* Down: the next chunk along y, or the first one around the torus *)
      destruct (wrap_coord_succ g (cy_of g c) Hcy Hy') as [[Hlt Hwy]|(Hp & Hcyd & Hwy)];
        fold d in Hwy; rewrite Hwy in *.
      * apply Z.lt_neq. unfold vertex_at. rewrite Ex, Ey.
        fold xs. set (ys' := y_len g (cy_of g c + 1)).
        assert (Hys' : 0 <= ys' <= ys)
          by (split; [apply Hynn; lia | apply Hyanti; lia]).
        assert (0 <= lz * (xs * ys') <= lz * (xs * ys)).
        { split; [apply Z.mul_nonneg_nonneg; [lia | apply Z.mul_nonneg_nonneg; lia]|].
          apply Z.mul_le_mono_nonneg_l; [lia|].
          apply Z.mul_le_mono_nonneg_l; lia. }
        apply (lands_after c c'); [exact Hin | lia |].
        rewrite Hlocal_index. lia.
      * destruct Hopen as [Hnp|(HX2 & HY2 & HZ2)]; [congruence|].
        fold d in Hcyd. rewrite Hcyd in Hid.
        destruct (Z.eq_dec d 1) as [Hd1|Hd1].
        -- assert (c' = c) as -> by (rewrite Hd1 in Hid, Hid'; lia).
           assert (ys = Grid3D.total_y_ g)
             by (unfold ys; rewrite Hcyd, Hd1; apply Hy1; exact Hd1).
           apply (lands_beside c u lx 0 lz lx ly lz); fold xs ys zs;
             try assumption; try lia.
           intros E. injection E as E. lia.
        -- specialize (Hd1d ltac:(lia)).
           apply (lands_inside c c'); try assumption; rewrite ?Ex, ?Ey, ?Ez;
             fold xs zs; lia.
    + (* Left: the chunk before along x, or the last one around the torus *)
      destruct (wrap_coord_pred g (cx_of g c) Hcx Hx') as [[Hge Hwx]|(Hp & Hcx0 & Hwx)];
        fold d in Hwx; rewrite Hwx in *.
      * pose proof (Hxanti (cx_of g c - 1) (cx_of g c) ltac:(lia)) as Hanti.
        fold xs in Hanti.
        apply (lands_inside c c'); try assumption; rewrite ?Ex, ?Ey, ?Ez;
          fold ys zs; lia.
      * destruct Hopen as [Hnp|(HX2 & HY2 & HZ2)]; [congruence|].
        rewrite Hcx0 in Hid.
        destruct (Z.eq_dec d 1) as [Hd1|Hd1].
        -- assert (c' = c) as -> by (rewrite Hd1 in Hid, Hid'; lia).
           assert (xs = Grid3D.total_x_ g)
             by (unfold xs; rewrite Hcx0; apply Hx1; exact Hd1).
           apply (lands_beside c u (xs - 1) ly lz lx ly lz); fold xs ys zs;
             try assumption; try lia.
           intros E. injection E as E. lia.
        -- pose proof (Hxnn (d - 1) ltac:(lia)) as Hnn.
           destruct (Z.eq_dec (x_len g (d - 1)) 0) as [Hempty|Hfull].
           ++ destruct (Hxlast HX2 Hempty) as [Hd3 Hlen1].
              apply Z.lt_neq. unfold vertex_at. rewrite Ex, Ey, Hempty. fold ys.
              replace (0 - 1 + ly * 0 + lz * (0 * ys)) with (-1) by ring.
              pose proof (offset_after 1 (cy_of g c) (cz_of g c) c'
                            ltac:(fold d; lia) ltac:(fold d; lia) ltac:(fold d; lia)
                            ltac:(fold d; lia)) as Hafter.
              cbv zeta in Hafter. fold d ys zs in Hafter. rewrite Hlen1 in Hafter.
              replace (1 + cy_of g c * d + cz_of g c * (d * d)) with (c + 1)
                in Hafter by lia.
              assert (1 * 1 <= ys * zs) by (apply Z.mul_le_mono_nonneg; lia).
              apply (lands_after_gap c c'); [exact Hin | lia | lia | lia].
           ++ apply (lands_inside c c'); try assumption; rewrite ?Ex, ?Ey, ?Ez;
                fold ys zs; lia.
    + (* Right: the next chunk along x, or the first one around the torus *)
      destruct (wrap_coord_succ g (cx_of g c) Hcx Hx') as [[Hlt Hwx]|(Hp & Hcxd & Hwx)];
        fold d in Hwx; rewrite Hwx in *.
      * apply Z.lt_neq. unfold vertex_at. rewrite Ex, Ey.
        fold ys. set (xs' := x_len g (cx_of g c + 1)).
        assert (Hxs' : 0 <= xs' <= xs)
          by (split; [apply Hxnn; lia | apply Hxanti; lia]).
        assert (0 <= ly * xs' <= ly * xs)
          by (split; [apply Z.mul_nonneg_nonneg; lia
                     | apply Z.mul_le_mono_nonneg_l; lia]).
        assert (0 <= lz * (xs' * ys) <= lz * (xs * ys)).
        { split; [apply Z.mul_nonneg_nonneg; [lia | apply Z.mul_nonneg_nonneg; lia]|].
          apply Z.mul_le_mono_nonneg_l; [lia|].
          apply Z.mul_le_mono_nonneg_r; lia. }
        apply (lands_after c c'); [exact Hin | lia |].
        rewrite Hlocal_index. lia.
      * destruct Hopen as [Hnp|(HX2 & HY2 & HZ2)]; [congruence|].
        fold d in Hcxd. rewrite Hcxd in Hid.
        destruct (Z.eq_dec d 1) as [Hd1|Hd1].
        -- assert (c' = c) as -> by (rewrite Hd1 in Hid, Hid'; lia).
           assert (xs = Grid3D.total_x_ g)
             by (unfold xs; rewrite Hcxd, Hd1; apply Hx1; exact Hd1).
           apply (lands_beside c u 0 ly lz lx ly lz); fold xs ys zs;
             try assumption; try lia.
           intros E. injection E as E. lia.
        -- apply (lands_inside c c'); try assumption; rewrite ?Ex, ?Ey, ?Ez;
             fold ys zs; lia.
    + (* Front: the chunk before along z, or the last one around the torus *)
      destruct (wrap_coord_pred g (cz_of g c) Hcz Hz') as [[Hge Hwz]|(Hp & Hcz0 & Hwz)];
        fold d in Hwz; rewrite Hwz in *.
      * pose proof (Hzanti (cz_of g c - 1) (cz_of g c) ltac:(lia)) as Hanti.
        fold zs in Hanti.
        apply (lands_inside c c'); try assumption; rewrite ?Ex, ?Ey, ?Ez;
          fold xs ys; lia.
      * destruct Hopen as [Hnp|(HX2 & HY2 & HZ2)]; [congruence|].
        rewrite Hcz0 in Hid.
        destruct (Z.eq_dec d 1) as [Hd1|Hd1].
        -- assert (c' = c) as -> by (rewrite Hd1 in Hid, Hid'; lia).
           assert (zs = Grid3D.total_z_ g)
             by (unfold zs; rewrite Hcz0; apply Hz1; exact Hd1).
           apply (lands_beside c u lx ly (zs - 1) lx ly lz); fold xs ys zs;
             try assumption; try lia.
           intros E. injection E as E. lia.
        -- specialize (Hd1dd ltac:(lia)).
           pose proof (Hznn (d - 1) ltac:(lia)) as Hnn.
           destruct (Z.eq_dec (z_len g (d - 1)) 0) as [Hempty|Hfull].
           ++ destruct (Hzlast HZ2 Hempty) as [Hd3 Hlen1].
              specialize (Hd2dd Hd3).
              apply Z.lt_neq. unfold vertex_at. rewrite Ex, Ey, Ez, Hempty. fold xs ys.
              replace (lx + ly * xs + (0 - 1) * (xs * ys))
                with (lx + ly * xs - xs * ys) by ring.
              assert (ly * xs <= (ys - 1) * xs)
                by (apply Z.mul_le_mono_nonneg_r; lia).
              pose proof (offset_after (cx_of g c) (cy_of g c) 1 c'
                            ltac:(fold d; lia) ltac:(fold d; lia) ltac:(fold d; lia)
                            ltac:(fold d; lia)) as Hafter.
              cbv zeta in Hafter. fold d xs ys in Hafter. rewrite Hlen1 in Hafter.
              pose proof (offset_mono g Hwf (c + 1)
                            (cx_of g c + cy_of g c * d + 1 * (d * d))
                            ltac:(lia) ltac:(lia) ltac:(lia)) as Hmono.
              apply (lands_after_gap c c'); [exact Hin | lia | lia | lia].
           ++ apply (lands_inside c c'); try assumption; rewrite ?Ex, ?Ey, ?Ez;
                fold xs ys; lia.
    + (* Back: the next chunk along z, or the first one around the torus *)
      destruct (wrap_coord_succ g (cz_of g c) Hcz Hz') as [[Hlt Hwz]|(Hp & Hczd & Hwz)];
        fold d in Hwz; rewrite Hwz in *.
      * apply Z.lt_neq. unfold vertex_at. rewrite Ex, Ey. fold xs ys.
        apply (lands_after c c'); [exact Hin | lia |].
        rewrite Hlocal_index. lia.
      * destruct Hopen as [Hnp|(HX2 & HY2 & HZ2)]; [congruence|].
        fold d in Hczd. rewrite Hczd in Hid.
        destruct (Z.eq_dec d 1) as [Hd1|Hd1].
        -- assert (c' = c) as -> by (rewrite Hd1 in Hid, Hid'; lia).
           assert (zs = Grid3D.total_z_ g)
             by (unfold zs; rewrite Hczd, Hd1; apply Hz1; exact Hd1).
           apply (lands_beside c u lx ly 0 lx ly lz); fold xs ys zs;
             try assumption; try lia.
           intros E. injection E as E. lia.
        -- specialize (Hd1dd ltac:(lia)).
           apply (lands_inside c c'); try assumption; rewrite ?Ex, ?Ey, ?Ez;
             fold xs ys; lia.
Qed.

End NoLoop.

(** ** The aggregated result *)

Section Aggregate.
Context {LPFloat : Type} {R : Randomness LPFloat} {C : CubeRoot} {M : Memory}.
Variable OUTPUT_EDGES : bool.
Variable config : PGeneratorConfig LPFloat.
Variables size d : Z.
Hypothesis Hvalid : valid_grid config d.
Hypothesis Hfit63 :
  cfg_grid_x config * cfg_grid_y config * cfg_grid_z config < 2 ^ 63.
Hypothesis Hsize : 1 <= size.
Hypothesis Halloc : resizable (cfg_dist_size config) = true.

(** The trial of an edge does not depend on the endpoint that asks. *)
Lemma edge_accepted_comm (g : Grid3D.t LPFloat) (u v : Z) :
  Grid3D.edge_accepted g u v = Grid3D.edge_accepted g v u.
Proof.
  unfold Grid3D.edge_accepted, Grid3D.edge_hash.
  rewrite !edge_seed_closed_form, (Z.min_comm u v), (Z.max_comm u v).
  reflexivity.
Qed.

Lemma In_edges_of_chunk (g : Grid3D.t LPFloat) (c a b : Z) :
  In (a, b) (edges_of_chunk g c)
  <-> offset_of g c <= a < offset_of g (c + 1)
      /\ exists direction,
           target g c a direction = Some b
           /\ Grid3D.edge_accepted g a b = true.
Proof.
  unfold edges_of_chunk, edges_of_vertex. rewrite in_flat_map. split.
  - intros (u & Hu & Hin). apply In_loop_range in Hu.
    apply in_flat_map in Hin. destruct Hin as (direction & _ & Hq).
    unfold edge_of_query in Hq.
    destruct (target g c u direction) as [v|] eqn:Ht; [|destruct Hq].
    destruct (Grid3D.edge_accepted g u v) eqn:Hacc; [|destruct Hq].
    destruct Hq as [E|[]]. injection E as -> ->.
    split; [exact Hu|]. exists direction. split; assumption.
  - intros (Ha & direction & Ht & Hacc). exists a.
    split; [apply In_loop_range; exact Ha|].
    apply in_flat_map. exists direction.
    split; [unfold directions; destruct direction; simpl; tauto|].
    unfold edge_of_query. rewrite Ht, Hacc. left. reflexivity.
Qed.

(** What one participant hands to the callback. *)
Lemma In_emitted_by (rank a b : Z) :
  0 <= rank < size ->
  In (a, b) (Grid3D.emitted_by OUTPUT_EDGES config rank size)
  <-> exists c direction,
        start_chunk_of (cfg_k config) rank size <= c
          < start_chunk_of (cfg_k config) (rank + 1) size
        /\ in_chunk (grid_of config d) c a
        /\ target (grid_of config d) c a direction = Some b
        /\ Grid3D.edge_accepted (grid_of config d) a b = true.
Proof.
  intros Hr.
  pose proof (k_range config d Hvalid) as Hk.
  pose proof (start_chunk_bounds (cfg_k config) rank size Hsize
                ltac:(lia) ltac:(lia)) as Hb0.
  pose proof (start_chunk_bounds (cfg_k config) (rank + 1) size Hsize
                ltac:(lia) ltac:(lia)) as Hb1.
  rewrite (emitted_by_chunks OUTPUT_EDGES config size d Hvalid Hfit63 Hsize Halloc
             rank Hr).
  rewrite in_flat_map. split.
  - intros (c & Hc & Hin). apply In_loop_range in Hc.
    apply In_edges_of_chunk in Hin. destruct Hin as (Ha & direction & Ht & Hacc).
    exists c, direction. split; [exact Hc|]. split; [|split; assumption].
    split; [|exact Ha]. cbn [grid_of Grid3D.total_chunks_]. lia.
  - intros (c & direction & Hc & [_ Ha] & Ht & Hacc). exists c.
    split; [apply In_loop_range; exact Hc|].
    apply In_edges_of_chunk. split; [exact Ha|].
    exists direction. split; assumption.
Qed.

(** The aggregated result holds the accepted queries of all vertices. *)
Lemma In_aggregated (a b : Z) :
  In (a, b) (Grid3D.aggregated OUTPUT_EDGES config size)
  <-> exists c direction,
        in_chunk (grid_of config d) c a
        /\ target (grid_of config d) c a direction = Some b
        /\ Grid3D.edge_accepted (grid_of config d) a b = true.
Proof.
  pose proof (k_range config d Hvalid) as Hk.
  unfold Grid3D.aggregated. rewrite in_flat_map. split.
  - intros (r & Hr & Hin). apply In_loop_range in Hr.
    destruct (proj1 (In_emitted_by r a b ltac:(lia)) Hin)
      as (c & direction & _ & Hin').
    exists c, direction. exact Hin'.
  - intros (c & direction & Hin & Ht & Hacc).
    pose proof Hin as [Hc _]. cbn [grid_of Grid3D.total_chunks_] in Hc.
    destruct (breakpoints_cover (fun r => start_chunk_of (cfg_k config) r size)
                size ltac:(lia) c) as (r & Hr & Hrc).
    { cbv beta. rewrite start_chunk_last by lia.
      pose proof (Z.mod_pos_bound (cfg_k config) size ltac:(lia)).
      unfold start_chunk_of. rewrite Z.min_l by lia. lia. }
    cbv beta in Hrc.
    exists r. split; [apply In_loop_range; lia|].
    apply (proj2 (In_emitted_by r a b ltac:(lia))).
    exists c, direction. repeat split; try assumption; try lia; apply Hin.
Qed.

End Aggregate.

(** When the constructor fails, no callback is made; so what holds of
    every edge of a run holds whether or not the sink could be
    allocated. *)

Section FailedConstruction.
Context {LPFloat : Type} {R : Randomness LPFloat} {C : CubeRoot} {M : Memory}.
Variable OUTPUT_EDGES : bool.
Variable config : PGeneratorConfig LPFloat.
Variable size : Z.
Hypothesis Hfailed : resizable (cfg_dist_size config) = false.

Lemma emitted_by_not_resizable (rank : Z) :
  Grid3D.emitted_by OUTPUT_EDGES config rank size = [].
Proof.
  unfold Grid3D.emitted_by. rewrite (construct_not_resizable config Hfailed).
  reflexivity.
Qed.

Lemma aggregated_not_resizable :
  Grid3D.aggregated OUTPUT_EDGES config size = [].
Proof.
  unfold Grid3D.aggregated.
  induction (Grid3D.loop_range 0 size) as [|r l IH]; [reflexivity|].
  cbn [flat_map]. rewrite IH, emitted_by_not_resizable. reflexivity.
Qed.

End FailedConstruction.

Section AnyMemory.
Context {LPFloat : Type} {R : Randomness LPFloat} {C : CubeRoot} {M : Memory}.
Variable OUTPUT_EDGES : bool.
Variable config : PGeneratorConfig LPFloat.
Variables size d : Z.
Hypothesis Hvalid : valid_grid config d.
Hypothesis Hfit63 :
  cfg_grid_x config * cfg_grid_y config * cfg_grid_z config < 2 ^ 63.
Hypothesis Hsize : 1 <= size.

(** Where an emitted edge comes from. *)
Lemma emitted_by_inv (rank a b : Z) :
  0 <= rank < size ->
  In (a, b) (Grid3D.emitted_by OUTPUT_EDGES config rank size) ->
  exists c direction,
    start_chunk_of (cfg_k config) rank size <= c
      < start_chunk_of (cfg_k config) (rank + 1) size
    /\ in_chunk (grid_of config d) c a
    /\ target (grid_of config d) c a direction = Some b
    /\ Grid3D.edge_accepted (grid_of config d) a b = true.
Proof.
  intros Hr Hin.
  destruct (resizable (cfg_dist_size config)) eqn:Halloc.
  - exact (proj1 (In_emitted_by OUTPUT_EDGES config size d Hvalid Hfit63 Hsize
                    Halloc rank a b Hr) Hin).
  - rewrite (emitted_by_not_resizable OUTPUT_EDGES config size Halloc rank) in Hin.
    destruct Hin.
Qed.

Lemma emitted_by_resizable (rank a b : Z) :
  In (a, b) (Grid3D.emitted_by OUTPUT_EDGES config rank size) ->
  resizable (cfg_dist_size config) = true.
Proof.
  intros Hin.
  destruct (resizable (cfg_dist_size config)) eqn:Halloc; [reflexivity|].
  rewrite (emitted_by_not_resizable OUTPUT_EDGES config size Halloc rank) in Hin.
  destruct Hin.
Qed.

Lemma aggregated_inv (a b : Z) :
  In (a, b) (Grid3D.aggregated OUTPUT_EDGES config size) ->
  resizable (cfg_dist_size config) = true.
Proof.
  intros Hin.
  destruct (resizable (cfg_dist_size config)) eqn:Halloc; [reflexivity|].
  rewrite (aggregated_not_resizable OUTPUT_EDGES config size Halloc) in Hin.
  destruct Hin.
Qed.

End AnyMemory.

(** ** Both endpoints report an edge *)

Definition grid_2x1x1 : PGeneratorConfig unit :=
  mkConfig 0 tt 1 1 2 1 1 false false 10.

(** C2, the claim as stated fails: on the non-periodic 2 x 1 x 1 grid with
    one chunk and one participant, the single adjacency [{0,1}] passes its
    trial and the aggregated result holds both of its directed
    representations, [(0,1)] queried by vertex 0 and [(1,0)] queried by
    vertex 1. *)
Lemma aggregated_holds_both_orders :
  Grid3D.aggregated (R := certain) (C := exact_cube_root) (M := ample)
    true grid_2x1x1 1
  = [(0, 1); (1, 0)].
Proof. vm_compute. reflexivity. Qed.

(** C2, amended. On a grid of [k = d^3] chunks on which [chunks_per_dim_]
    comes out as [d], with [d <= X, Y, Z] and [X*Y*Z < 2^63]: every
    accepted adjacency is reported from both of its endpoints, that is,
    whenever [(u,v)] is in the aggregated result over all participants, so
    is [(v,u)]; and (the sink being allocated) the aggregated result holds
    [(u,v)] exactly when some chunk [c] holds [u], a query of [u] in one of
    the six directions reaches [v], and the trial of [{u,v}] succeeds. *)
Theorem aggregated_symmetric
    {LPFloat : Type} {R : Randomness LPFloat} {C : CubeRoot} {M : Memory}
    (OUTPUT_EDGES : bool) (config : PGeneratorConfig LPFloat) (size d : Z)
    (Hvalid : valid_grid config d)
    (Hfit63 : cfg_grid_x config * cfg_grid_y config * cfg_grid_z config < 2 ^ 63)
    (Hcells : d <= cfg_grid_x config /\ d <= cfg_grid_y config
              /\ d <= cfg_grid_z config)
    (Hsize : 1 <= size) (u v : Z) :
  (In (u, v) (Grid3D.aggregated OUTPUT_EDGES config size)
   -> In (v, u) (Grid3D.aggregated OUTPUT_EDGES config size))
  /\ (resizable (cfg_dist_size config) = true ->
      (In (u, v) (Grid3D.aggregated OUTPUT_EDGES config size)
       <-> exists c direction,
             in_chunk (grid_of config d) c u
             /\ target (grid_of config d) c u direction = Some v
             /\ Grid3D.edge_accepted (grid_of config d) u v = true)).
Proof.
  split;
    [|intros Halloc;
      apply (In_aggregated OUTPUT_EDGES config size d Hvalid Hfit63 Hsize Halloc)].
  intros Huv.
  pose proof (aggregated_inv OUTPUT_EDGES config size u v Huv) as Halloc.
  pose proof (In_aggregated OUTPUT_EDGES config size d Hvalid Hfit63 Hsize Halloc)
    as Hagg.
  apply Hagg in Huv. destruct Huv as (c & direction & Hin & Ht & Hacc).
  destruct (target_symmetric (grid_of config d) (grid_of_wf config d Hvalid)
              Hfit63 Hcells c u v direction Hin Ht) as (c' & Hin' & Ht').
  apply Hagg. exists c', (opposite direction).
  split; [exact Hin'|]. split; [exact Ht'|].
  rewrite edge_accepted_comm. exact Hacc.
Qed.

(** In the 3 x 3 x 3 grid on 8 chunks, vertex 1 reports the edge that
    vertex 0 reports. *)
Lemma aggregated_symmetric_witness :
  In (0, 1) (Grid3D.aggregated (R := certain) (C := exact_cube_root) (M := ample)
               true grid_3x3x3 1)
  /\ In (1, 0) (Grid3D.aggregated (R := certain) (C := exact_cube_root) (M := ample)
                  true grid_3x3x3 1).
Proof.
  assert (H : In (0, 1) (Grid3D.aggregated
                           (R := certain) (C := exact_cube_root) (M := ample)
                           true grid_3x3x3 1))
    by (vm_compute; left; reflexivity).
  assert (Hfit : cfg_grid_x grid_3x3x3 * cfg_grid_y grid_3x3x3
                 * cfg_grid_z grid_3x3x3 < 2 ^ 63)
    by (vm_compute; reflexivity).
  assert (Hcells : 2 <= cfg_grid_x grid_3x3x3 /\ 2 <= cfg_grid_y grid_3x3x3
                   /\ 2 <= cfg_grid_z grid_3x3x3)
    by (cbn; lia).
  assert (Hsize : 1 <= 1) by lia.
  split; [exact H|].
  exact (proj1 (aggregated_symmetric
                  (R := certain) (C := exact_cube_root) (M := ample)
                  true grid_3x3x3 1 2
                  grid_3x3x3_valid Hfit Hcells Hsize 0 1) H).
Defined.

(** ** Self-loops *)

Definition torus_1x1x1 : PGeneratorConfig unit :=
  mkConfig 0 tt 1 1 1 1 1 true false 10.

(** C7, the claim as stated fails: on the periodic 1 x 1 x 1 grid with
    [self_loops] off, the only vertex is its own neighbour in each of the
    six directions, and every query hands [(0,0)] to the callback. *)
Lemma periodic_unit_grid_emits_loops :
  cfg_self_loops torus_1x1x1 = false
  /\ Grid3D.emitted_by (R := certain) (C := exact_cube_root) (M := ample)
       true torus_1x1x1 0 1
     = [(0, 0); (0, 0); (0, 0); (0, 0); (0, 0); (0, 0)].
Proof. split; [reflexivity | vm_compute; reflexivity]. Qed.

(** C7, amended. On a grid of [k = d^3] chunks on which [chunks_per_dim_]
    comes out as [d], with [X*Y*Z < 2^63], that is not periodic, or whose
    dimensions are all at least 2, every edge [(u,v)] handed to the
    callback by a participant has [u <> v]; this holds whatever the value
    of [self_loops], which the sampler does not read. *)
Theorem emitted_no_self_loop
    {LPFloat : Type} {R : Randomness LPFloat} {C : CubeRoot} {M : Memory}
    (OUTPUT_EDGES : bool) (config : PGeneratorConfig LPFloat) (rank size d : Z)
    (Hvalid : valid_grid config d)
    (Hfit63 : cfg_grid_x config * cfg_grid_y config * cfg_grid_z config < 2 ^ 63)
    (Hsize : 1 <= size) (Hrank : 0 <= rank < size)
    (Hopen : cfg_periodic config = false
             \/ (2 <= cfg_grid_x config /\ 2 <= cfg_grid_y config
                 /\ 2 <= cfg_grid_z config))
    (u v : Z) :
  In (u, v) (Grid3D.emitted_by OUTPUT_EDGES config rank size) -> u <> v.
Proof.
  intros Huv.
  destruct (emitted_by_inv OUTPUT_EDGES config size d Hvalid Hfit63 Hsize
              rank u v Hrank Huv)
    as (c & direction & _ & Hin & Ht & _).
  exact (target_no_loop (grid_of config d) (grid_of_wf config d Hvalid)
           Hfit63 Hopen c u v direction Hin Ht).
Qed.

(** In the non-periodic 3 x 3 x 3 grid the first edge reported is
    [(0,1)]. *)
Lemma emitted_no_self_loop_witness :
  In (0, 1) (Grid3D.emitted_by (R := certain) (C := exact_cube_root) (M := ample)
               true grid_3x3x3 0 1)
  /\ 0 <> 1.
Proof.
  assert (H : In (0, 1) (Grid3D.emitted_by
                           (R := certain) (C := exact_cube_root) (M := ample)
                           true grid_3x3x3 0 1))
    by (vm_compute; left; reflexivity).
  assert (Hfit : cfg_grid_x grid_3x3x3 * cfg_grid_y grid_3x3x3
                 * cfg_grid_z grid_3x3x3 < 2 ^ 63)
    by (vm_compute; reflexivity).
  assert (Hsize : 1 <= 1) by lia.
  assert (Hrank : 0 <= 0 < 1) by lia.
  split; [exact H|].
  exact (emitted_no_self_loop (R := certain) (C := exact_cube_root) (M := ample)
           true grid_3x3x3 0 1 2
           grid_3x3x3_valid Hfit Hsize Hrank (or_introl eq_refl) 0 1 H).
Defined.

(** ** Construction *)

Definition certain_Z : Randomness Z :=
  {| Spooky_hash := fun x => x; GenerateBinomial := fun _ n _ => n |}.

(** [n = 0], [p = 2], [k = 2] chunks, dimensions 2 x 1 x 1. *)
Definition unchecked_config : PGeneratorConfig Z :=
  mkConfig 0 2 2 1 2 1 1 false false 10.

(** [n = 0], [p = 2], [k = 0] chunks, dimensions 2 x 1 x 1. *)
Definition unchecked_config_k0 : PGeneratorConfig Z :=
  mkConfig 0 2 0 1 2 1 1 false false 10.

(** C8, the claim as stated fails: for the configuration with [n = 0],
    [p = 2], a chunk count [k = 2] that is no cube, and dimensions
    2 x 1 x 1 whose product is not [n], the constructor returns an object,
    and [Generate()] runs on it and hands edges to the callback; with
    [k = 0] the constructor returns an object as well. *)
Lemma construct_accepts_invalid_config :
  Grid3D.construct (M := ample) unchecked_config
  = Grid3D.Constructed _
      (Grid3D.mkUnstarted unchecked_config (GeneratorIO.create 10))
  /\ Grid3D.construct (M := ample) unchecked_config_k0
     = Grid3D.Constructed _
         (Grid3D.mkUnstarted unchecked_config_k0 (GeneratorIO.create 10))
  /\ exists g out,
       Grid3D.Generate (R := certain_Z) (C := exact_cube_root) true
         (Grid3D.mkUnstarted unchecked_config (GeneratorIO.create 10)) 0 1
       = Some (g, out)
       /\ Grid3D.emitted out = [(0, 1); (1, 0); (2, 3); (2, 0); (3, 2); (3, 1)].
Proof.
  split; [reflexivity|]. split; [reflexivity|].
  eexists _, _. split; [vm_compute; reflexivity | reflexivity].
Qed.

(** C8, amended. Constructing the 3D grid generator does not fail on
    account of an invalid configuration: the constructor reads
    [dist_size] and nothing else.  When the histogram of [dist_size]
    entries can be allocated it returns an object holding the
    configuration as given and a fresh sink, whatever [n], [p], [k] and the
    grid dimensions are; it fails only when that allocation does, so two
    configurations with the same [dist_size] fail together. *)
Theorem construct_checks_nothing {LPFloat : Type} {M : Memory}
    (config : PGeneratorConfig LPFloat) :
  (resizable (cfg_dist_size config) = true ->
   Grid3D.construct config
   = Grid3D.Constructed _
       (Grid3D.mkUnstarted config (GeneratorIO.create (cfg_dist_size config))))
  /\ (resizable (cfg_dist_size config) = false ->
      Grid3D.construct config = Grid3D.Fatal _)
  /\ (forall config' : PGeneratorConfig LPFloat,
        cfg_dist_size config' = cfg_dist_size config ->
        (Grid3D.construct config' = Grid3D.Fatal _
         <-> Grid3D.construct config = Grid3D.Fatal _)).
Proof.
  split; [apply construct_resizable|]. split; [apply construct_not_resizable|].
  intros config' Hsame.
  unfold Grid3D.construct, GeneratorIO.construct. rewrite Hsame.
  destruct (resizable (cfg_dist_size config)); split; intros H;
    first [discriminate H | reflexivity].
Qed.

(** * Further properties of the modelled code *)

(** ** Chunk identifiers *)

Section ChunkIds.
Context {LPFloat : Type}.
Variable g : Grid3D.t LPFloat.
Hypothesis Hd : 1 <= Grid3D.chunks_per_dim_ g.
Hypothesis Hfit :
  Grid3D.chunks_per_dim_ g * Grid3D.chunks_per_dim_ g * Grid3D.chunks_per_dim_ g
  < SInt.modulus.

Lemma square_fits :
  SInt.mul (Grid3D.chunks_per_dim_ g) (Grid3D.chunks_per_dim_ g)
  = Grid3D.chunks_per_dim_ g * Grid3D.chunks_per_dim_ g.
Proof. apply wrap_small. nia. Qed.

Lemma Encode_small (x y z : Z) :
  0 <= x < Grid3D.chunks_per_dim_ g -> 0 <= y < Grid3D.chunks_per_dim_ g ->
  0 <= z < Grid3D.chunks_per_dim_ g ->
  Grid3D.Encode g x y z
  = x + y * Grid3D.chunks_per_dim_ g
    + z * (Grid3D.chunks_per_dim_ g * Grid3D.chunks_per_dim_ g)
  /\ 0 <= Grid3D.Encode g x y z
     < Grid3D.chunks_per_dim_ g * Grid3D.chunks_per_dim_ g * Grid3D.chunks_per_dim_ g.
Proof.
  intros Hx Hy Hz. unfold Grid3D.Encode. cbv zeta. rewrite square_fits.
  set (d := Grid3D.chunks_per_dim_ g) in *.
  assert (Hdd : 1 <= d * d) by nia.
  assert (Hy' : 0 <= y * d <= (d - 1) * d)
    by (split; [apply Z.mul_nonneg_nonneg; lia
               | apply Z.mul_le_mono_nonneg_r; lia]).
  assert (Hz' : 0 <= z * (d * d) <= (d - 1) * (d * d))
    by (split; [apply Z.mul_nonneg_nonneg; lia
               | apply Z.mul_le_mono_nonneg_r; lia]).
  assert (Hk : d * d * d = (d - 1) * (d * d) + (d - 1) * d + d) by ring.
  unfold SInt.add, SInt.mul.
  rewrite (wrap_small (y * d)), (wrap_small (z * (d * d))) by lia.
  rewrite (wrap_small (x + y * d)) by lia.
  rewrite wrap_small by lia. lia.
Qed.

End ChunkIds.

(** X1. Chunk ids and chunk coordinates: for [d = chunks_per_dim_ >= 1]
    with [d^3 < 2^64], [Decode] sends a chunk id below [d^3] to coordinates
    in [[0, d)] and [Encode] sends these back to the id. *)
Theorem Encode_of_Decode {LPFloat : Type} (g : Grid3D.t LPFloat) (c : Z)
    (Hd : 1 <= Grid3D.chunks_per_dim_ g)
    (Hfit : Grid3D.chunks_per_dim_ g * Grid3D.chunks_per_dim_ g
            * Grid3D.chunks_per_dim_ g < SInt.modulus)
    (Hc : 0 <= c < Grid3D.chunks_per_dim_ g * Grid3D.chunks_per_dim_ g
                   * Grid3D.chunks_per_dim_ g) :
  let '(x, y, z) := Grid3D.Decode g c in
  Grid3D.Encode g x y z = c
  /\ 0 <= x < Grid3D.chunks_per_dim_ g
  /\ 0 <= y < Grid3D.chunks_per_dim_ g
  /\ 0 <= z < Grid3D.chunks_per_dim_ g.
Proof.
  unfold Grid3D.Decode. cbv zeta. rewrite (square_fits g Hd Hfit).
  destruct (encode_decode _ Hd c ltac:(lia)) as (E & Hx & Hy & Hz).
  pose proof (decode_z_bound _ Hd c Hc) as Hz'.
  split; [|repeat split; lia].
  destruct (Encode_small g Hd Hfit _ _ _ Hx Hy (conj Hz Hz')) as [-> _].
  symmetry. exact E.
Qed.

Lemma Encode_of_Decode_witness :
  Grid3D.Encode (grid_of grid_3x3x3 2) 1 0 1 = 5.
Proof.
  assert (Hd : 1 <= Grid3D.chunks_per_dim_ (grid_of grid_3x3x3 2)) by (cbn; lia).
  assert (Hfit : Grid3D.chunks_per_dim_ (grid_of grid_3x3x3 2)
                 * Grid3D.chunks_per_dim_ (grid_of grid_3x3x3 2)
                 * Grid3D.chunks_per_dim_ (grid_of grid_3x3x3 2) < SInt.modulus)
    by (vm_compute; reflexivity).
  assert (Hc : 0 <= 5 < Grid3D.chunks_per_dim_ (grid_of grid_3x3x3 2)
                        * Grid3D.chunks_per_dim_ (grid_of grid_3x3x3 2)
                        * Grid3D.chunks_per_dim_ (grid_of grid_3x3x3 2))
    by (cbn; lia).
  exact (proj1 (Encode_of_Decode (grid_of grid_3x3x3 2) 5 Hd Hfit Hc)).
Defined.

(** X2. In the other direction: for coordinates [x, y, z] in [[0, d)],
    [Encode] gives the id [x + y*d + z*d^2], which is below [d^3], and
    [Decode] recovers the coordinates from it; so [Encode] is injective
    on coordinates in range. *)
Theorem Decode_of_Encode {LPFloat : Type} (g : Grid3D.t LPFloat) (x y z : Z)
    (Hd : 1 <= Grid3D.chunks_per_dim_ g)
    (Hfit : Grid3D.chunks_per_dim_ g * Grid3D.chunks_per_dim_ g
            * Grid3D.chunks_per_dim_ g < SInt.modulus)
    (Hx : 0 <= x < Grid3D.chunks_per_dim_ g)
    (Hy : 0 <= y < Grid3D.chunks_per_dim_ g)
    (Hz : 0 <= z < Grid3D.chunks_per_dim_ g) :
  Grid3D.Decode g (Grid3D.Encode g x y z) = (x, y, z)
  /\ Grid3D.Encode g x y z
     = x + y * Grid3D.chunks_per_dim_ g
       + z * (Grid3D.chunks_per_dim_ g * Grid3D.chunks_per_dim_ g)
  /\ 0 <= Grid3D.Encode g x y z
     < Grid3D.chunks_per_dim_ g * Grid3D.chunks_per_dim_ g * Grid3D.chunks_per_dim_ g.
Proof.
  destruct (Encode_small g Hd Hfit x y z Hx Hy Hz) as [E Hr].
  split; [|split; assumption].
  rewrite E. unfold Grid3D.Decode. cbv zeta. rewrite (square_fits g Hd Hfit).
  destruct (decode_encode _ Hd x y z Hx Hy ltac:(lia)) as (-> & -> & ->).
  reflexivity.
Qed.

Lemma Decode_of_Encode_witness :
  Grid3D.Decode (grid_of grid_3x3x3 2)
    (Grid3D.Encode (grid_of grid_3x3x3 2) 1 0 1) = (1, 0, 1).
Proof.
  assert (Hd : 1 <= Grid3D.chunks_per_dim_ (grid_of grid_3x3x3 2)) by (cbn; lia).
  assert (Hfit : Grid3D.chunks_per_dim_ (grid_of grid_3x3x3 2)
                 * Grid3D.chunks_per_dim_ (grid_of grid_3x3x3 2)
                 * Grid3D.chunks_per_dim_ (grid_of grid_3x3x3 2) < SInt.modulus)
    by (vm_compute; reflexivity).
  assert (H1 : 0 <= 1 < Grid3D.chunks_per_dim_ (grid_of grid_3x3x3 2))
    by (cbn; lia).
  assert (H0 : 0 <= 0 < Grid3D.chunks_per_dim_ (grid_of grid_3x3x3 2))
    by (cbn; lia).
  exact (proj1 (Decode_of_Encode (grid_of grid_3x3x3 2) 1 0 1 Hd Hfit H1 H0 H1)).
Defined.

(** ** What a participant emits *)

Lemma seq_from (s m : nat) : seq s m = map (fun j => (s + j)%nat) (seq 0 m).
Proof.
  revert s. induction m as [|m IH]; intros s; [reflexivity|].
  cbn [seq map]. rewrite Nat.add_0_r. f_equal.
  rewrite <- (seq_shift m 0), map_map, (IH (S s)). apply map_ext. intros j. lia.
Qed.

Lemma loop_range_app (a b c : Z) :
  a <= b -> b <= c ->
  Grid3D.loop_range a c = Grid3D.loop_range a b ++ Grid3D.loop_range b c.
Proof.
  intros Hab Hbc. unfold Grid3D.loop_range.
  replace (Z.to_nat (c - a)) with (Z.to_nat (b - a) + Z.to_nat (c - b))%nat by lia.
  rewrite seq_app, map_app. f_equal.
  rewrite Nat.add_0_l, seq_from, map_map. apply map_ext. intros j. lia.
Qed.

Lemma loop_range_one (a : Z) : Grid3D.loop_range a (a + 1) = [a].
Proof.
  unfold Grid3D.loop_range. replace (a + 1 - a) with 1 by lia.
  change (Z.to_nat 1) with 1%nat. cbn [seq map].
  change (Z.of_nat 0) with 0. rewrite Z.add_0_r. reflexivity.
Qed.

Lemma loop_range_length (a b : Z) :
  a <= b -> Z.of_nat (length (Grid3D.loop_range a b)) = b - a.
Proof.
  intros H. unfold Grid3D.loop_range. rewrite length_map, length_seq. lia.
Qed.

(** Consecutive intervals of a nondecreasing sequence of breakpoints
    concatenate to the whole interval. *)
Lemma flat_map_breakpoints {A : Type} (E : Z -> list A) (F : Z -> Z) (n : nat) :
  (forall r, 0 <= r < Z.of_nat n -> F r <= F (r + 1)) ->
  flat_map (fun r => flat_map E (Grid3D.loop_range (F r) (F (r + 1))))
           (Grid3D.loop_range 0 (Z.of_nat n))
  = flat_map E (Grid3D.loop_range (F 0) (F (Z.of_nat n))).
Proof.
  induction n as [|n IH]; intros Hstep.
  - change (Z.of_nat 0) with 0. unfold Grid3D.loop_range.
    rewrite !Z.sub_diag. reflexivity.
  - rewrite Nat2Z.inj_succ, <- Z.add_1_r.
    rewrite (loop_range_app 0 (Z.of_nat n) (Z.of_nat n + 1)) by lia.
    rewrite flat_map_app, IH by (intros r Hr; apply Hstep; lia).
    rewrite loop_range_one. cbn [flat_map]. rewrite app_nil_r.
    rewrite <- flat_map_app. f_equal. symmetry. apply loop_range_app.
    + apply (stepwise_mono F 0 (Z.of_nat n)); [|lia|lia|lia].
      intros r Hr. apply Hstep. lia.
    + apply Hstep. lia.
Qed.

Lemma flat_map_ext_In {A B : Type} (f h : A -> list B) (l : list A) :
  (forall x, In x l -> f x = h x) -> flat_map f l = flat_map h l.
Proof.
  induction l as [|x l IH]; intros H; [reflexivity|].
  cbn [flat_map]. rewrite (H x) by (left; reflexivity).
  rewrite IH; [reflexivity|]. intros y Hy. apply H. right. exact Hy.
Qed.

Lemma flat_map_length_le {A B : Type} (f : A -> list B) (n : nat) (l : list A) :
  (forall x, In x l -> (length (f x) <= n)%nat) ->
  (length (flat_map f l) <= n * length l)%nat.
Proof.
  induction l as [|x l IH]; intros H; [cbn; lia|].
  cbn [flat_map length]. rewrite length_app.
  pose proof (H x ltac:(left; reflexivity)).
  pose proof (IH ltac:(intros y Hy; apply H; right; exact Hy)). lia.
Qed.

Section Participants.
Context {LPFloat : Type} {R : Randomness LPFloat} {C : CubeRoot} {M : Memory}.
Variable OUTPUT_EDGES : bool.
Variable config : PGeneratorConfig LPFloat.
Variables size d : Z.
Hypothesis Hvalid : valid_grid config d.
Hypothesis Hfit63 :
  cfg_grid_x config * cfg_grid_y config * cfg_grid_z config < 2 ^ 63.
Hypothesis Hsize : 1 <= size.
Hypothesis Halloc : resizable (cfg_dist_size config) = true.

Lemma start_chunk_step (r : Z) :
  0 <= r < size ->
  start_chunk_of (cfg_k config) r size <= start_chunk_of (cfg_k config) (r + 1) size.
Proof.
  intros Hr. pose proof (k_range config d Hvalid) as Hk.
  rewrite start_chunk_next by lia.
  pose proof (num_chunks_nonneg (cfg_k config) r size Hsize ltac:(lia)). lia.
Qed.

Lemma start_chunk_0 : start_chunk_of (cfg_k config) 0 size = 0.
Proof.
  pose proof (Z.mod_pos_bound (cfg_k config) size ltac:(lia)).
  unfold start_chunk_of. rewrite Z.min_l by lia. lia.
Qed.

(** All participants together emit the edges of all chunks, in chunk
    order. *)
Lemma aggregated_chunks :
  Grid3D.aggregated OUTPUT_EDGES config size
  = flat_map (edges_of_chunk (grid_of config d))
             (Grid3D.loop_range 0 (cfg_k config)).
Proof.
  pose proof (k_range config d Hvalid) as Hk.
  unfold Grid3D.aggregated.
  rewrite (flat_map_ext_In _
             (fun r => flat_map (edges_of_chunk (grid_of config d))
                         (Grid3D.loop_range
                            (start_chunk_of (cfg_k config) r size)
                            (start_chunk_of (cfg_k config) (r + 1) size)))).
  - replace size with (Z.of_nat (Z.to_nat size)) at 1 by lia.
    rewrite (flat_map_breakpoints _
               (fun r => start_chunk_of (cfg_k config) r size)).
    + cbv beta. rewrite Z2Nat.id by lia.
      rewrite start_chunk_0, start_chunk_last by lia. reflexivity.
    + intros r Hr. apply start_chunk_step. lia.
  - intros r Hr. apply In_loop_range in Hr.
    apply (emitted_by_chunks OUTPUT_EDGES config size d Hvalid Hfit63 Hsize Halloc).
    lia.
Qed.

Lemma edges_of_vertex_length (g : Grid3D.t LPFloat) (c u : Z) :
  (length (edges_of_vertex g c u) <= 6)%nat.
Proof.
  unfold edges_of_vertex.
  apply (flat_map_length_le (edge_of_query g c u) 1 directions).
  intros direction _. unfold edge_of_query.
  destruct (target g c u direction) as [v|]; [|cbn; lia].
  destruct (Grid3D.edge_accepted g u v); cbn; lia.
Qed.

Lemma edges_of_chunks_length (s : Z) (n : nat) :
  0 <= s -> s + Z.of_nat n <= cfg_k config ->
  Z.of_nat (length (flat_map (edges_of_chunk (grid_of config d))
                      (Grid3D.loop_range s (s + Z.of_nat n))))
  <= 6 * (offset_of (grid_of config d) (s + Z.of_nat n)
          - offset_of (grid_of config d) s).
Proof.
  intros Hs. pose proof (grid_of_wf config d Hvalid) as Hwf.
  induction n as [|n IH]; intros Hn.
  - change (Z.of_nat 0) with 0. rewrite Z.add_0_r.
    unfold Grid3D.loop_range. rewrite Z.sub_diag.
    change (Z.to_nat 0) with 0%nat. cbn [seq map flat_map length].
    change (Z.of_nat 0) with 0. lia.
  - rewrite Nat2Z.inj_succ, <- Z.add_1_r, Z.add_assoc in *.
    rewrite (loop_range_app s (s + Z.of_nat n) (s + Z.of_nat n + 1)) by lia.
    rewrite flat_map_app, length_app, loop_range_one. cbn [flat_map].
    rewrite app_nil_r. specialize (IH ltac:(lia)).
    pose proof (offset_mono (grid_of config d) Hwf (s + Z.of_nat n)
                  (s + Z.of_nat n + 1) ltac:(lia) ltac:(lia)
                  ltac:(cbn [grid_of Grid3D.total_chunks_]; lia)) as Hmono.
    pose proof (flat_map_length_le
                  (edges_of_vertex (grid_of config d) (s + Z.of_nat n)) 6
                  (Grid3D.loop_range (offset_of (grid_of config d) (s + Z.of_nat n))
                     (offset_of (grid_of config d) (s + Z.of_nat n + 1)))
                  ltac:(intros; apply edges_of_vertex_length)) as Hlen.
    fold (edges_of_chunk (grid_of config d) (s + Z.of_nat n)) in Hlen.
    pose proof (loop_range_length _ _ Hmono) as Hl.
    lia.
Qed.

End Participants.

Lemma emitted_source_range
    {LPFloat : Type} {R : Randomness LPFloat} {C : CubeRoot} {M : Memory}
    (OUTPUT_EDGES : bool) (config : PGeneratorConfig LPFloat) (rank size d : Z)
    (Hvalid : valid_grid config d)
    (Hfit63 : cfg_grid_x config * cfg_grid_y config * cfg_grid_z config < 2 ^ 63)
    (Hsize : 1 <= size) (Hrank : 0 <= rank < size) (u v : Z)
    (Hin : In (u, v) (Grid3D.emitted_by OUTPUT_EDGES config rank size)) :
  Grid3D.vertex_range_of OUTPUT_EDGES config rank size
  = Some (first_vertex config size d rank, first_vertex config size d (rank + 1) - 1)
  /\ first_vertex config size d rank <= u <= first_vertex config size d (rank + 1) - 1.
Proof.
  pose proof (k_range config d Hvalid) as Hk.
  pose proof (grid_of_wf config d Hvalid) as Hwf.
  assert (Hfit : cfg_grid_x config * cfg_grid_y config * cfg_grid_z config
                 < SInt.modulus) by (unfold SInt.modulus; lia).
  pose proof (emitted_by_resizable OUTPUT_EDGES config size rank u v Hin) as Halloc.
  split; [apply (vertex_range_exact OUTPUT_EDGES config size d Hvalid Hfit Hsize
                   Halloc rank Hrank)|].
  destruct (emitted_by_inv OUTPUT_EDGES config size d Hvalid Hfit63 Hsize
              rank u v Hrank Hin)
    as (c & direction & Hc & [_ Hu] & _).
  pose proof (start_chunk_bounds (cfg_k config) rank size Hsize
                ltac:(lia) ltac:(lia)) as Hb0.
  pose proof (start_chunk_bounds (cfg_k config) (rank + 1) size Hsize
                ltac:(lia) ltac:(lia)) as Hb1.
  unfold first_vertex.
  pose proof (offset_mono (grid_of config d) Hwf
                (start_chunk_of (cfg_k config) rank size) c
                ltac:(lia) ltac:(lia)
                ltac:(cbn [grid_of Grid3D.total_chunks_]; lia)).
  pose proof (offset_mono (grid_of config d) Hwf (c + 1)
                (start_chunk_of (cfg_k config) (rank + 1) size)
                ltac:(lia) ltac:(lia)
                ltac:(cbn [grid_of Grid3D.total_chunks_]; lia)).
  lia.
Qed.

(** X3. Every edge that a participant hands to the callback starts at one
    of its own vertices: the source lies in the range that
    [GetVertexRange()] reports for this participant (grid of [k = d^3]
    chunks on which [chunks_per_dim_] comes out as [d], [X, Y, Z >= 1],
    [X*Y*Z < 2^63], rank in [[0, P)]). *)
Theorem emitted_source_in_own_range
    {LPFloat : Type} {R : Randomness LPFloat} {C : CubeRoot} {M : Memory}
    (OUTPUT_EDGES : bool) (config : PGeneratorConfig LPFloat) (rank size d : Z)
    (Hvalid : valid_grid config d)
    (Hfit63 : cfg_grid_x config * cfg_grid_y config * cfg_grid_z config < 2 ^ 63)
    (Hsize : 1 <= size) (Hrank : 0 <= rank < size) (u v : Z)
    (Hin : In (u, v) (Grid3D.emitted_by OUTPUT_EDGES config rank size)) :
  exists first last,
    Grid3D.vertex_range_of OUTPUT_EDGES config rank size = Some (first, last)
    /\ first <= u <= last.
Proof.
  destruct (emitted_source_range OUTPUT_EDGES config rank size d Hvalid Hfit63
              Hsize Hrank u v Hin) as [Hrange Hu].
  exists (first_vertex config size d rank), (first_vertex config size d (rank + 1) - 1).
  split; [exact Hrange | exact Hu].
Qed.

Lemma emitted_source_in_own_range_witness :
  exists first last,
    Grid3D.vertex_range_of (R := certain) (C := exact_cube_root) (M := ample)
      true grid_3x3x3 1 3 = Some (first, last)
    /\ first <= 16 <= last.
Proof.
  assert (Hfit : cfg_grid_x grid_3x3x3 * cfg_grid_y grid_3x3x3
                 * cfg_grid_z grid_3x3x3 < 2 ^ 63)
    by (vm_compute; reflexivity).
  assert (Hsize : 1 <= 3) by lia.
  assert (Hrank : 0 <= 1 < 3) by lia.
  assert (Hin : In (16, 13) (Grid3D.emitted_by
                             (R := certain) (C := exact_cube_root) (M := ample)
                             true grid_3x3x3 1 3))
    by (vm_compute; left; reflexivity).
  exact (emitted_source_in_own_range
           (R := certain) (C := exact_cube_root) (M := ample) true grid_3x3x3 1 3 2
           grid_3x3x3_valid Hfit Hsize Hrank 16 13 Hin).
Defined.

(** X4. On a grid of [k = d^3] chunks on which [chunks_per_dim_] comes
    out as [d], with [X*Y*Z < 2^63] and no chunk empty ([d <= X, Y, Z]),
    every edge handed to the callback ends at a vertex of the grid: its
    target is below [X*Y*Z]. *)
Theorem emitted_target_is_vertex
    {LPFloat : Type} {R : Randomness LPFloat} {C : CubeRoot} {M : Memory}
    (OUTPUT_EDGES : bool) (config : PGeneratorConfig LPFloat) (rank size d : Z)
    (Hvalid : valid_grid config d)
    (Hfit63 : cfg_grid_x config * cfg_grid_y config * cfg_grid_z config < 2 ^ 63)
    (Hcells : d <= cfg_grid_x config /\ d <= cfg_grid_y config
              /\ d <= cfg_grid_z config)
    (Hsize : 1 <= size) (Hrank : 0 <= rank < size) (u v : Z)
    (Hin : In (u, v) (Grid3D.emitted_by OUTPUT_EDGES config rank size)) :
  0 <= v < cfg_grid_x config * cfg_grid_y config * cfg_grid_z config.
Proof.
  pose proof (grid_of_wf config d Hvalid) as Hwf.
  destruct (emitted_by_inv OUTPUT_EDGES config size d Hvalid Hfit63 Hsize
              rank u v Hrank Hin)
    as (c & direction & _ & Hu & Ht & _).
  destruct (target_symmetric (grid_of config d) Hwf Hfit63 Hcells c u v direction
              Hu Ht) as (c' & Hv & _).
  destruct (in_chunk_facts (grid_of config d) Hwf c' v Hv)
    as (_ & _ & _ & Hlv & _ & Hoff & Htop).
  cbv zeta in Hlv, Htop. cbn [grid_of Grid3D.total_x_ Grid3D.total_y_
                              Grid3D.total_z_] in Htop.
  lia.
Qed.

(** On three participants, rank 1 reports the edge [(16, 13)], whose
    target belongs to rank 0. *)
Lemma emitted_target_is_vertex_witness :
  In (16, 13) (Grid3D.emitted_by (R := certain) (C := exact_cube_root) (M := ample)
                 true grid_3x3x3 1 3)
  /\ 0 <= 13 < 3 * 3 * 3.
Proof.
  assert (Hfit : cfg_grid_x grid_3x3x3 * cfg_grid_y grid_3x3x3
                 * cfg_grid_z grid_3x3x3 < 2 ^ 63)
    by (vm_compute; reflexivity).
  assert (Hcells : 2 <= cfg_grid_x grid_3x3x3 /\ 2 <= cfg_grid_y grid_3x3x3
                   /\ 2 <= cfg_grid_z grid_3x3x3)
    by (cbn; lia).
  assert (Hsize : 1 <= 3) by lia.
  assert (Hrank : 0 <= 1 < 3) by lia.
  assert (Hin : In (16, 13) (Grid3D.emitted_by
                             (R := certain) (C := exact_cube_root) (M := ample)
                             true grid_3x3x3 1 3))
    by (vm_compute; left; reflexivity).
  split; [exact Hin|].
  exact (emitted_target_is_vertex
           (R := certain) (C := exact_cube_root) (M := ample) true grid_3x3x3 1 3 2
           grid_3x3x3_valid Hfit Hcells Hsize Hrank 16 13 Hin).
Defined.

(** X5. On a grid of [k = d^3] chunks on which [chunks_per_dim_] comes
    out as [d], with [X*Y*Z < 2^63] and a sink that can be allocated, a
    participant hands at most six edges per owned vertex to the callback:
    the length of its edge list is at most six times the number of
    vertices in its range. *)
Theorem emitted_at_most_six_per_vertex
    {LPFloat : Type} {R : Randomness LPFloat} {C : CubeRoot} {M : Memory}
    (OUTPUT_EDGES : bool) (config : PGeneratorConfig LPFloat) (rank size d : Z)
    (Hvalid : valid_grid config d)
    (Hfit63 : cfg_grid_x config * cfg_grid_y config * cfg_grid_z config < 2 ^ 63)
    (Hsize : 1 <= size) (Hrank : 0 <= rank < size)
    (Halloc : resizable (cfg_dist_size config) = true) :
  exists first last,
    Grid3D.vertex_range_of OUTPUT_EDGES config rank size = Some (first, last)
    /\ Z.of_nat (length (Grid3D.emitted_by OUTPUT_EDGES config rank size))
       <= 6 * (last + 1 - first).
Proof.
  pose proof (k_range config d Hvalid) as Hk.
  assert (Hfit : cfg_grid_x config * cfg_grid_y config * cfg_grid_z config
                 < SInt.modulus) by (unfold SInt.modulus; lia).
  exists (first_vertex config size d rank), (first_vertex config size d (rank + 1) - 1).
  split; [apply (vertex_range_exact OUTPUT_EDGES config size d Hvalid Hfit Hsize
                   Halloc rank Hrank)|].
  rewrite (emitted_by_chunks OUTPUT_EDGES config size d Hvalid Hfit63 Hsize Halloc
             rank Hrank).
  pose proof (start_chunk_bounds (cfg_k config) rank size Hsize
                ltac:(lia) ltac:(lia)) as Hb0.
  pose proof (start_chunk_bounds (cfg_k config) (rank + 1) size Hsize
                ltac:(lia) ltac:(lia)) as Hb1.
  pose proof (start_chunk_step config size d Hvalid Hsize rank Hrank) as Hstep.
  pose proof (edges_of_chunks_length config d Hvalid
                (start_chunk_of (cfg_k config) rank size)
                (Z.to_nat (start_chunk_of (cfg_k config) (rank + 1) size
                           - start_chunk_of (cfg_k config) rank size))
                ltac:(lia) ltac:(lia)) as Hlen.
  replace (start_chunk_of (cfg_k config) rank size
           + Z.of_nat (Z.to_nat (start_chunk_of (cfg_k config) (rank + 1) size
                                 - start_chunk_of (cfg_k config) rank size)))
    with (start_chunk_of (cfg_k config) (rank + 1) size) in Hlen by lia.
  unfold first_vertex. lia.
Qed.

Lemma emitted_at_most_six_per_vertex_witness :
  exists first last,
    Grid3D.vertex_range_of (R := certain) (C := exact_cube_root) (M := ample)
      true grid_3x3x3 1 3 = Some (first, last)
    /\ Z.of_nat (length (Grid3D.emitted_by
                           (R := certain) (C := exact_cube_root) (M := ample)
                           true grid_3x3x3 1 3))
       <= 6 * (last + 1 - first).
Proof.
  assert (Hfit : cfg_grid_x grid_3x3x3 * cfg_grid_y grid_3x3x3
                 * cfg_grid_z grid_3x3x3 < 2 ^ 63)
    by (vm_compute; reflexivity).
  assert (Hsize : 1 <= 3) by lia.
  assert (Hrank : 0 <= 1 < 3) by lia.
  exact (emitted_at_most_six_per_vertex
           (R := certain) (C := exact_cube_root) (M := ample) true grid_3x3x3 1 3 2
           grid_3x3x3_valid Hfit Hsize Hrank eq_refl).
Defined.

(** X6. On a grid of [k = d^3] chunks on which [chunks_per_dim_] comes
    out as [d], with [X*Y*Z < 2^63], the generated graph does not depend
    on the number [P >= 1] of participants, nor on the output mode: the
    lists of all [P] participants, concatenated by rank, are the list that
    a single participant produces. *)
Theorem aggregated_independent_of_participants
    {LPFloat : Type} {R : Randomness LPFloat} {C : CubeRoot} {M : Memory}
    (OUTPUT_EDGES OUTPUT_EDGES' : bool) (config : PGeneratorConfig LPFloat)
    (size d : Z)
    (Hvalid : valid_grid config d)
    (Hfit63 : cfg_grid_x config * cfg_grid_y config * cfg_grid_z config < 2 ^ 63)
    (Hsize : 1 <= size) :
  Grid3D.aggregated OUTPUT_EDGES config size
  = Grid3D.aggregated OUTPUT_EDGES' config 1.
Proof.
  destruct (resizable (cfg_dist_size config)) eqn:Halloc.
  - rewrite (aggregated_chunks OUTPUT_EDGES config size d Hvalid Hfit63 Hsize Halloc).
    rewrite (aggregated_chunks OUTPUT_EDGES' config 1 d Hvalid Hfit63 ltac:(lia)
               Halloc).
    reflexivity.
  - rewrite (aggregated_not_resizable OUTPUT_EDGES config size Halloc).
    rewrite (aggregated_not_resizable OUTPUT_EDGES' config 1 Halloc).
    reflexivity.
Qed.

Lemma aggregated_independent_of_participants_witness :
  Grid3D.aggregated (R := certain) (C := exact_cube_root) (M := ample)
    true grid_3x3x3 3
  = Grid3D.aggregated (R := certain) (C := exact_cube_root) (M := ample)
      false grid_3x3x3 1.
Proof.
  assert (Hfit : cfg_grid_x grid_3x3x3 * cfg_grid_y grid_3x3x3
                 * cfg_grid_z grid_3x3x3 < 2 ^ 63)
    by (vm_compute; reflexivity).
  assert (Hsize : 1 <= 3) by lia.
  exact (aggregated_independent_of_participants
           (R := certain) (C := exact_cube_root) (M := ample) true false
           grid_3x3x3 3 2 grid_3x3x3_valid Hfit Hsize).
Defined.

(** ** The sink of a generator run *)

(** [NumberOfEdges()]: [return io_.NumEdges();] *)
Definition NumberOfEdges (out : Grid3D.output) : Z :=
  GeneratorIO.NumEdges (Grid3D.io_ out).

(** The sink calls that one callback invocation [(u, v)] comes with in
    [GenerateEdge]: [PushEdge(u, v)] under [OUTPUT_EDGES], else
    [UpdateDist(u); UpdateDist(v)]. *)
Definition sink_after (OUTPUT_EDGES : bool) (io : GeneratorIO.t)
    (es : list (Z * Z)) : GeneratorIO.t :=
  if OUTPUT_EDGES
  then GeneratorIO.PushEdge_all io es
  else GeneratorIO.UpdateDist_all io (flat_map (fun e => [fst e; snd e]) es).

Section SinkOfRun.
Context {LPFloat : Type} {R : Randomness LPFloat} {C : CubeRoot} {M : Memory}.
Variable OUTPUT_EDGES : bool.
Variable g : Grid3D.t LPFloat.
Variable io0 : GeneratorIO.t.

Definition tracked (out : Grid3D.output) : Prop :=
  Grid3D.io_ out = sink_after OUTPUT_EDGES io0 (Grid3D.emitted out).

Lemma GenerateEdge_tracked (out : Grid3D.output) (u v : Z) :
  tracked out -> tracked (Grid3D.GenerateEdge OUTPUT_EDGES g out u v).
Proof.
  unfold tracked, Grid3D.GenerateEdge, sink_after. intros H.
  destruct (Grid3D.edge_accepted g u v); [|exact H].
  cbn [Grid3D.io_ Grid3D.emitted]. rewrite H.
  destruct OUTPUT_EDGES.
  - unfold GeneratorIO.PushEdge_all. rewrite fold_left_app. reflexivity.
  - unfold GeneratorIO.UpdateDist_all. rewrite flat_map_app, fold_left_app.
    reflexivity.
Qed.

(** A query makes at most one callback invocation. *)
Lemma QueryInDirection_cases (out : Grid3D.output) (c u : Z)
    (direction : Grid3D.Direction) :
  Grid3D.QueryInDirection OUTPUT_EDGES g out c u direction = out
  \/ exists v,
       Grid3D.QueryInDirection OUTPUT_EDGES g out c u direction
       = Grid3D.GenerateEdge OUTPUT_EDGES g out u v.
Proof.
  unfold Grid3D.QueryInDirection. cbv zeta.
  destruct (Grid3D.Decode g c) as [[chunk_x chunk_y] chunk_z].
  destruct (Grid3D.chunk_extents g c) as [[xs ys] zs].
  destruct (Grid3D.IsLocalVertex _ _ _ _ _ _).
  - right. eexists. reflexivity.
  - destruct (negb _).
    + left. reflexivity.
    + right. eexists. reflexivity.
Qed.

Lemma QueryInDirection_tracked (out : Grid3D.output) (c u : Z)
    (direction : Grid3D.Direction) :
  tracked out -> tracked (Grid3D.QueryInDirection OUTPUT_EDGES g out c u direction).
Proof.
  intros H. destruct (QueryInDirection_cases out c u direction) as [->|[v ->]].
  - exact H.
  - apply GenerateEdge_tracked. exact H.
Qed.

Lemma fold_left_tracked {A : Type} (f : Grid3D.output -> A -> Grid3D.output)
    (l : list A) :
  (forall o i, tracked o -> tracked (f o i)) ->
  forall o, tracked o -> tracked (fold_left f l o).
Proof.
  intros Hf. induction l as [|i l IH]; intros o Ho; [exact Ho|].
  cbn [fold_left]. apply IH, Hf, Ho.
Qed.

Lemma GenerateChunk_tracked (out : Grid3D.output) (c : Z) :
  tracked out -> tracked (Grid3D.GenerateChunk OUTPUT_EDGES g out c).
Proof.
  unfold Grid3D.GenerateChunk. cbv zeta. apply fold_left_tracked.
  intros o i Ho. unfold Grid3D.GenerateEdges. cbv zeta.
  repeat apply QueryInDirection_tracked. exact Ho.
Qed.

End SinkOfRun.

Lemma NumEdges_sink_after (OUTPUT_EDGES : bool) (dist_size : Z)
    (es : list (Z * Z)) :
  (OUTPUT_EDGES = true \/ 2 * Z.of_nat (length es) < SInt.modulus) ->
  GeneratorIO.NumEdges (sink_after OUTPUT_EDGES (GeneratorIO.create dist_size) es)
  = Z.of_nat (length es).
Proof.
  intros H. unfold sink_after, GeneratorIO.NumEdges.
  destruct OUTPUT_EDGES.
  - rewrite PushEdge_all_edges. cbn [GeneratorIO.create GeneratorIO.edges_ app].
    destruct es as [|e es]; [reflexivity|].
    destruct (Z.ltb_spec 0 (Z.of_nat (length (e :: es)))) as [_|Hle];
      [reflexivity|]. cbn [length] in Hle. lia.
  - destruct H as [H|H]; [discriminate|].
    rewrite UpdateDist_all_edges. cbn [GeneratorIO.create GeneratorIO.edges_ length].
    change (0 <? Z.of_nat 0) with false. cbv iota.
    rewrite UpdateDist_all_count
      by (cbn [GeneratorIO.create GeneratorIO.local_num_edges_];
          unfold SInt.in_range, SInt.modulus; lia).
    cbn [GeneratorIO.create GeneratorIO.local_num_edges_].
    assert (E : length (flat_map (fun e : Z * Z => [fst e; snd e]) es)
                = (2 * length es)%nat).
    { clear. induction es as [|e es IH]; [reflexivity|].
      cbn [flat_map app length]. rewrite IH. lia. }
    rewrite E, wrap_small by lia.
    rewrite Nat2Z.inj_mul. change (Z.of_nat 2) with 2.
    rewrite Z.mul_comm. apply Z.div_mul. lia.
Qed.

Lemma Generate_tracked {LPFloat : Type} {R : Randomness LPFloat} {C : CubeRoot}
    (OUTPUT_EDGES : bool) (gen : Grid3D.unstarted) (rank size : Z)
    (g : Grid3D.t LPFloat) (out : Grid3D.output) :
  Grid3D.Generate OUTPUT_EDGES gen rank size = Some (g, out) ->
  tracked OUTPUT_EDGES (Grid3D.initial_io_ gen) out.
Proof.
  unfold Grid3D.Generate.
  destruct (Grid3D.Init (Grid3D.config_ gen) rank size) as [g'|]; [|discriminate].
  destruct (Grid3D.owned_chunks (cfg_k (Grid3D.config_ gen)) rank size)
    as [[num start] end_].
  intros Hrun. injection Hrun as _ <-.
  apply fold_left_tracked.
  - intros o i Ho. apply GenerateChunk_tracked. exact Ho.
  - unfold tracked, sink_after. cbn [Grid3D.io_ Grid3D.emitted].
    destruct OUTPUT_EDGES; reflexivity.
Qed.

(** X7. The sink follows the callback.  After [Generate()], whatever the
    configuration, the sink is the freshly constructed one after one
    [PushEdge(u, v)] per callback invocation, in order (under
    [OUTPUT_EDGES]), or after [UpdateDist(u); UpdateDist(v)] per
    invocation (otherwise); hence [NumberOfEdges()] is the number of
    callback invocations, in count-only mode as long as twice this number
    fits 64 bits. *)
Theorem sink_tracks_callbacks
    {LPFloat : Type} {R : Randomness LPFloat} {C : CubeRoot} {M : Memory}
    (OUTPUT_EDGES : bool) (config : PGeneratorConfig LPFloat) (rank size : Z)
    (gen : Grid3D.unstarted) (g : Grid3D.t LPFloat) (out : Grid3D.output)
    (Hgen : Grid3D.construct config = Grid3D.Constructed _ gen)
    (Hrun : Grid3D.Generate OUTPUT_EDGES gen rank size = Some (g, out)) :
  Grid3D.io_ out
  = sink_after OUTPUT_EDGES (GeneratorIO.create (cfg_dist_size config))
               (Grid3D.emitted out)
  /\ (OUTPUT_EDGES = true
      \/ 2 * Z.of_nat (length (Grid3D.emitted out)) < SInt.modulus ->
      NumberOfEdges out = Z.of_nat (length (Grid3D.emitted out))).
Proof.
  pose proof (Generate_tracked OUTPUT_EDGES gen rank size g out Hrun) as Ht.
  unfold Grid3D.construct, GeneratorIO.construct in Hgen.
  destruct (resizable (cfg_dist_size config)); [|discriminate Hgen].
  injection Hgen as <-.
  unfold tracked in Ht. cbn [Grid3D.initial_io_] in Ht.
  split; [exact Ht|].
  intros H. unfold NumberOfEdges. rewrite Ht.
  apply NumEdges_sink_after. exact H.
Qed.

Lemma sink_tracks_callbacks_witness :
  exists g out,
    Grid3D.Generate (R := certain) (C := exact_cube_root) false
      (Grid3D.mkUnstarted grid_2x1x1 (GeneratorIO.create 10)) 0 1 = Some (g, out)
    /\ Grid3D.io_ out
       = sink_after false (GeneratorIO.create 10) (Grid3D.emitted out).
Proof.
  destruct (Grid3D.Generate (R := certain) (C := exact_cube_root) false
              (Grid3D.mkUnstarted grid_2x1x1 (GeneratorIO.create 10)) 0 1)
    as [[g out]|] eqn:E.
  - exists g, out. split; [reflexivity|].
    exact (proj1 (sink_tracks_callbacks
                    (R := certain) (C := exact_cube_root) (M := ample)
                    false grid_2x1x1 0 1 _ g out eq_refl E)).
  - vm_compute in E. discriminate E.
Defined.

(** ** Interleaved calls on the edge sink *)

(** A call of one of the two recording methods of [GeneratorIO]. *)
Inductive sink_call : Type :=
| CallPushEdge (u v : Z)
| CallUpdateDist (node_id : Z).

Definition run_call (io : GeneratorIO.t) (c : sink_call) : GeneratorIO.t :=
  match c with
  | CallPushEdge u v => GeneratorIO.PushEdge io u v
  | CallUpdateDist node_id => GeneratorIO.UpdateDist io node_id
  end.

Definition run_calls (io : GeneratorIO.t) (cs : list sink_call) : GeneratorIO.t :=
  fold_left run_call cs io.

(** The arguments of the [PushEdge] calls, in order. *)
Definition pushed (cs : list sink_call) : list (Z * Z) :=
  flat_map (fun c => match c with
                     | CallPushEdge u v => [(u, v)]
                     | CallUpdateDist _ => []
                     end) cs.

(** How many of the calls are [UpdateDist(v)]. *)
Definition updates_of (v : Z) (cs : list sink_call) : Z :=
  Z.of_nat (length (List.filter (fun c => match c with
                                     | CallUpdateDist id => id =? v
                                     | CallPushEdge _ _ => false
                                     end) cs)).

Section SinkCalls.
  Import GeneratorIO.

Lemma run_calls_edges (cs : list sink_call) : forall io,
  edges_ (run_calls io cs) = edges_ io ++ pushed cs.
Proof.
  induction cs as [|c cs IH]; intros io.
  - cbn. rewrite app_nil_r. reflexivity.
  - change (run_calls io (c :: cs)) with (run_calls (run_call io c) cs).
    rewrite IH. destruct c as [u v|id]; cbn [run_call pushed flat_map].
    + cbn [PushEdge edges_]. rewrite <- app_assoc. reflexivity.
    + cbn [UpdateDist edges_ app]. reflexivity.
Qed.

Lemma run_calls_count (cs : list sink_call) : forall io,
  SInt.in_range (local_num_edges_ io) ->
  local_num_edges_ (run_calls io cs)
  = SInt.wrap (local_num_edges_ io + Z.of_nat (length cs)).
Proof.
  induction cs as [|c cs IH]; intros io Hio.
  - cbn [run_calls fold_left length]. change (Z.of_nat 0) with 0.
    rewrite Z.add_0_r, wrap_small; [reflexivity | exact Hio].
  - change (run_calls io (c :: cs)) with (run_calls (run_call io c) cs).
    assert (E : local_num_edges_ (run_call io c) = SInt.add (local_num_edges_ io) 1)
      by (destruct c; reflexivity).
    rewrite IH by (rewrite E; apply wrap_range).
    rewrite E. unfold SInt.add, SInt.wrap. cbn [length].
    rewrite Nat2Z.inj_succ. Z.mod_equality.
Qed.

Lemma run_calls_dist_length (cs : list sink_call) : forall io,
  length (dist_ (run_calls io cs)) = length (dist_ io).
Proof.
  induction cs as [|c cs IH]; intros io; [reflexivity|].
  change (run_calls io (c :: cs)) with (run_calls (run_call io c) cs).
  rewrite IH. destruct c as [u v|id]; [reflexivity|].
  cbn [run_call UpdateDist dist_].
  destruct (id <? _); [apply length_alter | reflexivity].
Qed.

Lemma run_calls_dist (cs : list sink_call) : forall io (v : Z) (c0 : Z),
  Forall (fun c => match c with
                   | CallUpdateDist id => 0 <= id
                   | CallPushEdge _ _ => True
                   end) cs ->
  0 <= v ->
  dist_ io !! Z.to_nat v = Some (SInt.wrap c0) ->
  dist_ (run_calls io cs) !! Z.to_nat v = Some (SInt.wrap (c0 + updates_of v cs)).
Proof.
  induction cs as [|c cs IH]; intros io v c0 Hcs Hv Hc0.
  - cbn [run_calls fold_left]. unfold updates_of. cbn [List.filter length].
    change (Z.of_nat 0) with 0. rewrite Z.add_0_r. exact Hc0.
  - change (run_calls io (c :: cs)) with (run_calls (run_call io c) cs).
    inversion Hcs as [|c' cs' Hc Hcs' E]; subst c' cs'.
    destruct c as [a b|id].
    + rewrite (IH _ v c0 Hcs' Hv) by exact Hc0. reflexivity.
    + unfold updates_of. cbn [List.filter].
      destruct (Z.eqb_spec id v) as [->|Hne].
      * cbn [length]. rewrite Nat2Z.inj_succ.
        fold (updates_of v cs).
        destruct (Z.ltb_spec v (Z.of_nat (length (dist_ io)))) as [Hlt|Hge].
        -- rewrite (IH _ v (c0 + 1) Hcs' Hv).
           ++ f_equal. f_equal. lia.
           ++ cbn [run_call UpdateDist dist_].
              apply Z.ltb_lt in Hlt. rewrite Hlt.
              rewrite list_lookup_alter_eq, Hc0. cbn [fmap option_fmap option_map].
              f_equal. unfold SInt.add, SInt.wrap. Z.mod_equality.
        -- apply lookup_lt_Some in Hc0. lia.
      * fold (updates_of v cs). apply (IH _ v c0 Hcs' Hv).
        cbn [run_call UpdateDist dist_].
        destruct (id <? _); [|exact Hc0].
        rewrite list_lookup_alter_ne by lia. exact Hc0.
Qed.

End SinkCalls.

(** X8. Any interleaving of [PushEdge] and [UpdateDist] calls on a fresh
    sink, fewer than [2^64] in all: the edge list holds the pushed pairs in
    call order, [local_num_edges_] counts the calls of both kinds, and
    [NumEdges()] is the number of [PushEdge] calls as soon as there is one
    (the [UpdateDist] calls are then ignored), and half the number of
    [UpdateDist] calls, rounded down, when there is none. *)
Theorem NumEdges_of_interleaved_calls (dist_size : Z) (cs : list sink_call)
    (Hlen : Z.of_nat (length cs) < SInt.modulus) :
  let io := run_calls (GeneratorIO.create dist_size) cs in
  GeneratorIO.edges_ io = pushed cs
  /\ GeneratorIO.local_num_edges_ io = Z.of_nat (length cs)
  /\ GeneratorIO.NumEdges io
     = if 0 <? Z.of_nat (length (pushed cs))
       then Z.of_nat (length (pushed cs))
       else Z.of_nat (length cs) / 2.
Proof.
  cbv zeta.
  assert (He : GeneratorIO.edges_ (run_calls (GeneratorIO.create dist_size) cs)
               = pushed cs) by (rewrite run_calls_edges; reflexivity).
  assert (Hn : GeneratorIO.local_num_edges_
                 (run_calls (GeneratorIO.create dist_size) cs)
               = Z.of_nat (length cs)).
  { rewrite run_calls_count
      by (cbn [GeneratorIO.create GeneratorIO.local_num_edges_];
          unfold SInt.in_range, SInt.modulus; lia).
    cbn [GeneratorIO.create GeneratorIO.local_num_edges_].
    apply wrap_small. lia. }
  split; [exact He|]. split; [exact Hn|].
  unfold GeneratorIO.NumEdges. rewrite He, Hn. reflexivity.
Qed.

Lemma NumEdges_of_interleaved_calls_witness :
  GeneratorIO.NumEdges
    (run_calls (GeneratorIO.create 4)
       [CallUpdateDist 1; CallPushEdge 2 3; CallUpdateDist 2; CallUpdateDist 7]) = 1.
Proof.
  assert (Hlen : Z.of_nat (length [CallUpdateDist 1; CallPushEdge 2 3;
                                   CallUpdateDist 2; CallUpdateDist 7])
                 < SInt.modulus) by (vm_compute; reflexivity).
  exact (proj2 (proj2 (NumEdges_of_interleaved_calls 4 _ Hlen))).
Defined.

(** X9. The histogram of a sink that starts fresh with [dist_size]
    entries keeps its length through any calls, and its entry [v] (for
    [v < dist_size]) is the number of [UpdateDist(v)] calls made, in 64-bit
    arithmetic; [PushEdge] calls and [UpdateDist] calls for other ids
    leave it alone. *)
Theorem histogram_counts_updates (dist_size v : Z) (cs : list sink_call)
    (Hids : Forall (fun c => match c with
                             | CallUpdateDist id => 0 <= id
                             | CallPushEdge _ _ => True
                             end) cs)
    (Hv : 0 <= v < dist_size) :
  let io := run_calls (GeneratorIO.create dist_size) cs in
  Z.of_nat (length (GeneratorIO.dist_ io)) = dist_size
  /\ GeneratorIO.dist_ io !! Z.to_nat v = Some (SInt.wrap (updates_of v cs)).
Proof.
  cbv zeta. split.
  - rewrite run_calls_dist_length. cbn [GeneratorIO.create GeneratorIO.dist_].
    rewrite length_replicate. lia.
  - apply (run_calls_dist cs _ v 0 Hids ltac:(lia)).
    cbn [GeneratorIO.create GeneratorIO.dist_].
    rewrite lookup_replicate_2 by lia. reflexivity.
Qed.

Lemma histogram_counts_updates_witness :
  GeneratorIO.dist_
    (run_calls (GeneratorIO.create 4)
       [CallUpdateDist 1; CallPushEdge 2 3; CallUpdateDist 1; CallUpdateDist 7])
    !! 1%nat = Some 2.
Proof.
  assert (Hids : Forall (fun c => match c with
                                  | CallUpdateDist id => 0 <= id
                                  | CallPushEdge _ _ => True
                                  end)
                   [CallUpdateDist 1; CallPushEdge 2 3; CallUpdateDist 1;
                    CallUpdateDist 7]).
  { repeat (apply List.Forall_cons; [first [exact I | lia]|]). apply List.Forall_nil. }
  assert (Hv : 0 <= 1 < 4) by lia.
  exact (proj2 (histogram_counts_updates 4 1 _ Hids Hv)).
Defined.

(** * The library interface ([library/kagen.h]) *)

From stdpp Require Import sorting.
Local Open Scope Z_scope.

(** ** The order of edges

[EdgeList] is [std::vector<std::tuple<SInt, SInt>>]; [std::is_sorted] and
[std::sort] compare tuples with [operator<], the lexicographic order. *)

Definition tuple_lt (a b : Z * Z) : bool :=
  (fst a <? fst b) || ((fst a =? fst b) && (snd a <? snd b)).

(** [std::is_sorted(first, last)]: no element is less than its
    predecessor. *)
Fixpoint is_sorted (l : list (Z * Z)) : bool :=
  match l with
  | [] => true
  | a :: tl =>
      match tl with
      | [] => true
      | b :: _ => negb (tuple_lt b a) && is_sorted tl
      end
  end.

(** [a] may stand before [b] in a sorted range. *)
Definition tuple_le (a b : Z * Z) : Prop := tuple_lt b a = false.

#[local] Instance tuple_le_dec (a b : Z * Z) : Decision (tuple_le a b).
Proof. unfold tuple_le. apply _. Defined.

(** [std::sort] is external to the modelled files.  It returns the sorted
    permutation of its input, which is unique for this order (two tuples
    that compare equal are equal); it is computed here by merge sort. *)
Definition std_sort (l : list (Z * Z)) : list (Z * Z) := merge_sort tuple_le l.

Section TupleOrder.

Lemma tuple_le_spec (a b : Z * Z) :
  tuple_le a b <-> fst a < fst b \/ (fst a = fst b /\ snd a <= snd b).
Proof.
  unfold tuple_le, tuple_lt.
  destruct (Z.ltb_spec (fst b) (fst a)), (Z.eqb_spec (fst b) (fst a)),
    (Z.ltb_spec (snd b) (snd a)); cbn; split; intros; try discriminate; lia.
Qed.

#[local] Instance tuple_le_total : Total tuple_le.
Proof. intros a b. rewrite !tuple_le_spec. lia. Qed.

#[local] Instance tuple_le_trans : Transitive tuple_le.
Proof. intros a b c. rewrite !tuple_le_spec. lia. Qed.

#[local] Instance tuple_le_antisym : AntiSymm (=) tuple_le.
Proof.
  intros [a1 a2] [b1 b2]. rewrite !tuple_le_spec. cbn [fst snd].
  intros H1 H2. f_equal; lia.
Qed.

Lemma is_sorted_Sorted (l : list (Z * Z)) :
  is_sorted l = true <-> Sorted tuple_le l.
Proof.
  induction l as [|a [|b l] IH].
  - split; [constructor | reflexivity].
  - split; [repeat constructor | reflexivity].
  - change (is_sorted (a :: b :: l))
      with (negb (tuple_lt b a) && is_sorted (b :: l)).
    rewrite andb_true_iff, negb_true_iff, IH. split.
    + intros [Hab Hs]. constructor; [exact Hs|]. constructor. exact Hab.
    + intros Hs. inversion Hs as [|? ? Hs' Hhd]; subst.
      inversion Hhd; subst. split; assumption.
Qed.

Lemma std_sort_Sorted (l : list (Z * Z)) : Sorted tuple_le (std_sort l).
Proof. apply Sorted_merge_sort. exact tuple_le_total. Qed.

Lemma std_sort_Permutation (l : list (Z * Z)) : std_sort l ≡ₚ l.
Proof. apply merge_sort_Permutation. Qed.

Lemma std_sort_sorted_id (l : list (Z * Z)) :
  Sorted tuple_le l -> std_sort l = l.
Proof.
  intros Hs. apply (Sorted_unique tuple_le); [apply std_sort_Sorted | exact Hs|].
  apply std_sort_Permutation.
Qed.

Lemma std_sort_perm (l l' : list (Z * Z)) : l ≡ₚ l' -> std_sort l = std_sort l'.
Proof.
  intros Hp. apply (Sorted_unique tuple_le); try apply std_sort_Sorted.
  rewrite !std_sort_Permutation. exact Hp.
Qed.

(** The range that the scan loops read: sorted unless it already was. *)
Lemma sorted_if_needed (l : list (Z * Z)) :
  (if is_sorted l then l else std_sort l) = std_sort l.
Proof.
  destruct (is_sorted l) eqn:E; [|reflexivity].
  symmetry. apply std_sort_sorted_id, is_sorted_Sorted, E.
Qed.

End TupleOrder.

(** ** [BuildCSR] *)

(** [KaGenResult]: the edge list of a participant and its vertex range
    [[first, second)]. *)
Record KaGenResult : Type := mkResult {
  edges : list (Z * Z);
  vertex_range : Z * Z
}.

(** [KaGenResultCSR<IDX>], with [IDX] wide enough to hold the values
    stored ([IDX = SInt]). *)
Record KaGenResultCSR : Type := mkCSR {
  xadj : list Z;
  adjncy : list Z
}.

(** [while (target > cur_vertex) { csr.xadj[++cur_vertex] = cur_edge; }]
    The write is in bounds as long as an entry follows [cur_vertex];
    [room] counts the entries that follow, and [None] is the write past
    the end of [xadj]. *)
Fixpoint fill_xadj (room : nat) (xadj : list Z) (cur_vertex target cur_edge : Z)
  : option (list Z * Z) :=
  if cur_vertex <? target
  then
    match room with
    | O => None
    | S room' =>
        let cur_vertex' := SInt.add cur_vertex 1 in
        fill_xadj room' (<[Z.to_nat cur_vertex' := cur_edge]> xadj)
                  cur_vertex' target cur_edge
    end
  else Some (xadj, cur_vertex).

Definition room_after (xadj : list Z) (cur_vertex : Z) : nat :=
  (length xadj - 1 - Z.to_nat cur_vertex)%nat.

(** The loop variables of [BuildCSR]. *)
Record cursor : Type := mkCursor {
  c_xadj : list Z;
  c_adjncy : list Z;
  cur_vertex : Z;
  cur_edge : Z
}.

(** One iteration of [for (const auto& [from, to]: graph.edges)]. *)
Definition edge_step (first : Z) (st : option cursor) (e : Z * Z) : option cursor :=
  match st with
  | None => None
  | Some s =>
      let '(from, to) := e in
      match fill_xadj (room_after (c_xadj s) (cur_vertex s)) (c_xadj s)
                      (cur_vertex s) (SInt.sub from first) (cur_edge s) with
      | None => None
      | Some (xadj', cur_vertex') =>
          Some (mkCursor xadj'
                  (<[Z.to_nat (cur_edge s) := to]> (c_adjncy s))
                  cur_vertex' (SInt.add (cur_edge s) 1))
      end
  end.

(** [BuildCSR<IDX>(graph)] *)
Definition BuildCSR (graph : KaGenResult) : option KaGenResultCSR :=
  let edges := if is_sorted (edges graph) then edges graph
               else std_sort (edges graph) in
  let first := fst (vertex_range graph) in
  let num_local_nodes := SInt.sub (snd (vertex_range graph)) first in
  let num_local_edges := Z.of_nat (length edges) in
  let xadj0 := replicate (Z.to_nat (SInt.add num_local_nodes 1)) 0 in
  let adjncy0 := replicate (Z.to_nat num_local_edges) 0 in
  match fold_left (edge_step first) edges (Some (mkCursor xadj0 adjncy0 0 0)) with
  | None => None
  | Some s =>
      match fill_xadj (room_after (c_xadj s) (cur_vertex s)) (c_xadj s)
                      (cur_vertex s) num_local_nodes (cur_edge s) with
      | None => None
      | Some (xadj', _) => Some (mkCSR xadj' (c_adjncy s))
      end
  end.

(** [BuildVertexDistribution<IDX>(graph, idx_mpi_type, comm)]: every
    participant sets entry [rank + 1] to the end of its vertex range, and
    the all-gather fills in the entries of the others; [graphs] lists the
    participants by rank. *)
Definition BuildVertexDistribution (graphs : list KaGenResult) : list Z :=
  0 :: map (fun graph => snd (vertex_range graph)) graphs.

Section FillXadj.

Lemma fill_xadj_spec (room : nat) : forall (xs : list Z) (cur target ce : Z),
  0 <= cur -> room = room_after xs cur ->
  cur < Z.of_nat (length xs) -> target < Z.of_nat (length xs) ->
  Z.of_nat (length xs) <= SInt.modulus ->
  exists xs',
    fill_xadj room xs cur target ce = Some (xs', Z.max cur target)
    /\ length xs' = length xs
    /\ forall j : Z, 0 <= j ->
         xs' !! Z.to_nat j
         = if (cur <? j) && (j <=? target) then Some ce else xs !! Z.to_nat j.
Proof.
  induction room as [|room IH]; intros xs cur target ce Hcur Hroom Hlen Ht Hmod;
    unfold room_after in Hroom; cbn [fill_xadj];
    destruct (Z.ltb_spec cur target) as [Hlt|Hge].
  - lia.
  - exists xs. rewrite Z.max_l by lia. repeat split.
    intros j Hj. destruct (Z.ltb_spec cur j), (Z.leb_spec j target); cbn; try reflexivity.
    lia.
  - cbv zeta.
    assert (E : SInt.add cur 1 = cur + 1) by (apply wrap_small; lia).
    rewrite E.
    destruct (IH (<[Z.to_nat (cur + 1) := ce]> xs) (cur + 1) target ce)
      as (xs' & Hfill & Hl & Hlook);
      rewrite ?length_insert; unfold room_after; rewrite ?length_insert; try lia.
    exists xs'. rewrite Hfill. split; [f_equal; f_equal; lia|].
    split; [rewrite Hl; apply length_insert|]. intros j Hj. rewrite (Hlook j Hj).
    destruct (Z.ltb_spec (cur + 1) j), (Z.leb_spec j target), (Z.ltb_spec cur j);
      cbn [andb];
      first [ reflexivity
            | exfalso; lia
            | assert (j = cur + 1) as -> by lia;
              apply list_lookup_insert_eq; lia
            | apply list_lookup_insert_ne; lia ].
  - exists xs. rewrite Z.max_l by lia. repeat split.
    intros j Hj. destruct (Z.ltb_spec cur j), (Z.leb_spec j target); cbn; try reflexivity.
    lia.
Qed.

(** A target past the last entry makes the loop write past the end. *)
Lemma fill_xadj_overflow (room : nat) : forall (xs : list Z) (cur target ce : Z),
  0 <= cur -> room = room_after xs cur ->
  cur < Z.of_nat (length xs) -> Z.of_nat (length xs) <= target ->
  Z.of_nat (length xs) <= SInt.modulus ->
  fill_xadj room xs cur target ce = None.
Proof.
  induction room as [|room IH]; intros xs cur target ce Hcur Hroom Hlen Ht Hmod;
    unfold room_after in Hroom; cbn [fill_xadj];
    destruct (Z.ltb_spec cur target) as [Hlt|Hge]; try lia; try reflexivity.
  cbv zeta.
  assert (E : SInt.add cur 1 = cur + 1) by (apply wrap_small; lia).
  rewrite E. apply IH; rewrite ?length_insert; unfold room_after;
    rewrite ?length_insert; lia.
Qed.

End FillXadj.

(** How many edges of [l] start below vertex [b]. *)
Definition count_lt (l : list (Z * Z)) (b : Z) : Z :=
  Z.of_nat (length (List.filter (fun e => fst e <? b) l)).

Lemma count_lt_app (l l' : list (Z * Z)) (b : Z) :
  count_lt (l ++ l') b = count_lt l b + count_lt l' b.
Proof. unfold count_lt. rewrite List.filter_app, length_app. lia. Qed.

Lemma count_lt_all (l : list (Z * Z)) (b : Z) :
  Forall (fun e => fst e < b) l -> count_lt l b = Z.of_nat (length l).
Proof.
  unfold count_lt. induction 1 as [|e l He Hl IH]; [reflexivity|].
  cbn [List.filter]. apply Z.ltb_lt in He. rewrite He. cbn [length]. lia.
Qed.

Lemma count_lt_none (l : list (Z * Z)) (b : Z) :
  Forall (fun e => b <= fst e) l -> count_lt l b = 0.
Proof.
  unfold count_lt. induction 1 as [|e l He Hl IH]; [reflexivity|].
  cbn [List.filter]. apply Z.ltb_ge in He. rewrite He. exact IH.
Qed.

Lemma count_lt_perm (l l' : list (Z * Z)) (b : Z) :
  l ≡ₚ l' -> count_lt l b = count_lt l' b.
Proof.
  intros Hp. unfold count_lt. f_equal.
  induction Hp as [|x l1 l2 Hp IH|x y l1|l1 l2 l3 Hp1 IH1 Hp2 IH2].
  - reflexivity.
  - cbn [List.filter]. destruct (fst x <? b); cbn [length]; lia.
  - cbn [List.filter]. destruct (fst x <? b), (fst y <? b); reflexivity.
  - lia.
Qed.

Section Scan.
Variables first second : Z.
Hypothesis Hfirst : 0 <= first <= second.
Hypothesis Hsecond : second - first + 1 < SInt.modulus.

(** The state after the edges [p], with [q] still to come. *)
Record scanned (p q : list (Z * Z)) (s : cursor) : Prop := mkScanned {
  sc_edge : cur_edge s = Z.of_nat (length p);
  sc_vertex : 0 <= cur_vertex s <= second - first;
  sc_done : Forall (fun e => fst e - first <= cur_vertex s) p;
  sc_todo : Forall (fun e => cur_vertex s <= fst e - first) q;
  sc_length : Z.of_nat (length (c_xadj s)) = second - first + 1;
  sc_xadj : forall j, 0 <= j <= cur_vertex s ->
              c_xadj s !! Z.to_nat j = Some (count_lt p (first + j));
  sc_adjncy : c_adjncy s = map snd p ++ replicate (length q) 0
}.

Lemma scan_step (p q : list (Z * Z)) (e : Z * Z) (s : cursor) :
  scanned p (e :: q) s ->
  first <= fst e <= second ->
  Forall (fun e' => fst e <= fst e') q ->
  Z.of_nat (length p) + 1 < SInt.modulus ->
  exists s', edge_step first (Some s) e = Some s' /\ scanned (p ++ [e]) q s'.
Proof.
  intros [He Hv Hdone Htodo Hlen Hx Ha] Hrange Hsorted Hfit.
  destruct e as [from to]. cbn [fst] in *. unfold edge_step.
  assert (Esub : SInt.sub from first = from - first)
    by (apply wrap_small; unfold SInt.modulus in *; lia).
  rewrite Esub.
  pose proof (Forall_inv Htodo) as Hcv. cbn [fst] in Hcv.
  destruct (fill_xadj_spec (room_after (c_xadj s) (cur_vertex s)) (c_xadj s)
              (cur_vertex s) (from - first) (cur_edge s)
              ltac:(lia) eq_refl ltac:(lia) ltac:(lia) ltac:(lia))
    as (xs' & Hfill & Hl & Hlook).
  rewrite Hfill, Z.max_r by lia.
  eexists. split; [reflexivity|].
  constructor; cbn [cur_edge cur_vertex c_xadj c_adjncy].
  - rewrite He, length_app. cbn [length]. unfold SInt.add.
    rewrite wrap_small by lia. lia.
  - lia.
  - apply Forall_app. split.
    + eapply Forall_impl; [exact Hdone|]. cbv beta. intros a Ha'. lia.
    + constructor; [cbn [fst]; lia | constructor].
  - eapply Forall_impl; [exact Hsorted|]. cbv beta. intros a Ha'. lia.
  - rewrite Hl. exact Hlen.
  - intros j Hj. rewrite (Hlook j ltac:(lia)).
    rewrite count_lt_app.
    replace (count_lt [(from, to)] (first + j)) with 0
      by (symmetry; apply count_lt_none; constructor; [cbn [fst]; lia | constructor]).
    rewrite Z.add_0_r.
    destruct (Z.ltb_spec (cur_vertex s) j) as [Hlt|Hge];
      destruct (Z.leb_spec j (from - first)) as [Hle|Hgt]; cbn [andb]; try lia.
    + rewrite He. f_equal. symmetry. apply count_lt_all.
      eapply Forall_impl; [exact Hdone|]. cbv beta. intros a Ha'. lia.
    + apply Hx. lia.
  - rewrite Ha, He, Nat2Z.id. cbn [length replicate].
    rewrite map_app, <- app_assoc. cbn [map app].
    rewrite insert_app_r_alt by (rewrite length_map; lia).
    rewrite length_map, Nat.sub_diag. reflexivity.
Qed.

Lemma scan_prefix (q : list (Z * Z)) : forall (p r : list (Z * Z)) (s : cursor),
  scanned p (q ++ r) s ->
  StronglySorted tuple_le (q ++ r) ->
  Forall (fun e => first <= fst e <= second) q ->
  Z.of_nat (length (p ++ q)) < SInt.modulus ->
  exists s', fold_left (edge_step first) q (Some s) = Some s'
             /\ scanned (p ++ q) r s'.
Proof.
  induction q as [|e q IH]; intros p r s Hs Hsorted Hrange Hfit.
  - exists s. rewrite app_nil_r. split; [reflexivity | exact Hs].
  - cbn [app] in Hs, Hsorted.
    apply StronglySorted_inv in Hsorted as [Hsorted He].
    apply Forall_cons in Hrange as [Hr Hrange].
    rewrite length_app in Hfit. cbn [length] in Hfit.
    destruct (scan_step p (q ++ r) e s Hs Hr) as (s1 & Hstep & Hs1); [|lia|].
    { eapply Forall_impl; [exact He|]. cbv beta. intros a Ha.
      apply tuple_le_spec in Ha. lia. }
    cbn [fold_left]. rewrite Hstep.
    destruct (IH (p ++ [e]) r s1 Hs1 Hsorted Hrange) as (s' & Hfold & Hs').
    { rewrite !length_app. cbn [length]. lia. }
    exists s'. split; [exact Hfold|]. rewrite <- app_assoc in Hs'. exact Hs'.
Qed.

End Scan.

Lemma fold_edge_step_None (first : Z) (l : list (Z * Z)) :
  fold_left (edge_step first) l None = None.
Proof. induction l as [|e l IH]; [reflexivity|]. cbn [fold_left edge_step]. exact IH. Qed.

Lemma std_sort_range (P : Z * Z -> Prop) (l : list (Z * Z)) :
  Forall P l -> Forall P (std_sort l).
Proof.
  intros H. rewrite List.Forall_forall in *. intros e He. apply H.
  apply (Permutation_in _ (std_sort_Permutation l)). exact He.
Qed.

Lemma std_sort_length (l : list (Z * Z)) : length (std_sort l) = length l.
Proof. apply Permutation_length, std_sort_Permutation. Qed.

Lemma std_sort_StronglySorted (l : list (Z * Z)) :
  StronglySorted tuple_le (std_sort l).
Proof. apply Sorted_StronglySorted; [apply tuple_le_trans | apply std_sort_Sorted]. Qed.

(** The start of a scan. *)
Lemma scanned_start (first second : Z) (q : list (Z * Z)) :
  0 <= first <= second -> second - first + 1 < SInt.modulus ->
  Forall (fun e => first <= fst e) q ->
  scanned first second [] q
    (mkCursor (replicate (Z.to_nat (SInt.add (SInt.sub second first) 1)) 0)
              (replicate (Z.to_nat (Z.of_nat (length q))) 0) 0 0).
Proof.
  intros Hf Hs Hq.
  assert (E : SInt.add (SInt.sub second first) 1 = second - first + 1).
  { unfold SInt.add, SInt.sub. rewrite (wrap_small (second - first)) by lia.
    apply wrap_small. lia. }
  rewrite E, Nat2Z.id.
  constructor; cbn [cur_edge cur_vertex c_xadj c_adjncy length map app].
  - reflexivity.
  - lia.
  - constructor.
  - eapply Forall_impl; [exact Hq|]. cbv beta. intros a Ha. lia.
  - rewrite length_replicate. lia.
  - intros j Hj. assert (j = 0) as -> by lia.
    rewrite lookup_replicate_2 by lia. reflexivity.
  - reflexivity.
Qed.

Lemma BuildCSR_scan (es : list (Z * Z)) (first second : Z)
    (Hfirst : 0 <= first <= second)
    (Hsecond : second - first + 1 < SInt.modulus)
    (Hrange : Forall (fun e => first <= fst e <= second) es)
    (Hlen : Z.of_nat (length es) < SInt.modulus) :
  exists csr,
    BuildCSR (mkResult es (first, second)) = Some csr
    /\ adjncy csr = map snd (std_sort es)
    /\ Z.of_nat (length (xadj csr)) = second - first + 1
    /\ forall j, 0 <= j <= second - first ->
         xadj csr !! Z.to_nat j = Some (count_lt (std_sort es) (first + j)).
Proof.
  unfold BuildCSR. cbn [edges vertex_range fst snd]. cbv zeta.
  rewrite sorted_if_needed.
  pose proof (std_sort_range _ es Hrange) as Hr.
  pose proof (std_sort_length es) as Hl.
  assert (Hlow : Forall (fun e => first <= fst e) (std_sort es))
    by (eapply Forall_impl; [exact Hr|]; cbv beta; intros a Ha; lia).
  pose proof (scanned_start first second (std_sort es) Hfirst Hsecond Hlow) as Hs0.
  pose proof (std_sort_StronglySorted es) as Hss.
  rewrite <- (app_nil_r (std_sort es)) in Hs0 at 1.
  rewrite <- (app_nil_r (std_sort es)) in Hss.
  destruct (scan_prefix first second Hsecond (std_sort es) [] [] _ Hs0 Hss Hr)
    as (s & Hfold & Hs).
  { cbn [app]. rewrite Hl. exact Hlen. }
  rewrite Hfold. cbn [app] in Hs.
  destruct Hs as [He Hv Hdone _ Hlen' Hx Ha].
  assert (Esub : SInt.sub second first = second - first)
    by (apply wrap_small; lia).
  rewrite Esub.
  destruct (fill_xadj_spec (room_after (c_xadj s) (cur_vertex s)) (c_xadj s)
              (cur_vertex s) (second - first) (cur_edge s)
              ltac:(lia) eq_refl ltac:(lia) ltac:(lia) ltac:(lia))
    as (xs' & Hfill & Hl' & Hlook).
  rewrite Hfill. eexists. split; [reflexivity|]. cbn [xadj adjncy].
  split; [rewrite Ha; cbn [length replicate]; apply app_nil_r|].
  split; [rewrite Hl'; exact Hlen'|].
  intros j Hj. rewrite (Hlook j ltac:(lia)).
  destruct (Z.ltb_spec (cur_vertex s) j) as [Hlt|Hge];
    destruct (Z.leb_spec j (second - first)) as [Hle|Hgt]; cbn [andb]; try lia.
  - rewrite He. f_equal. symmetry. apply count_lt_all.
    eapply Forall_impl; [exact Hdone|]. cbv beta. intros a Ha'. lia.
  - apply Hx. lia.
Qed.

(** X10. [BuildCSR] on edges whose sources lie in the vertex range
    [[first, second]] (the list shorter than [2^64]): it returns, [adjncy]
    holds the targets in sorted edge order, [xadj] has one entry per
    local vertex and one more, and entry [j] is the number of edges that
    start below vertex [first + j]; so [xadj[0] = 0], [xadj] never
    decreases, and [xadj[j+1] - xadj[j]] is the out-degree of
    [first + j]. *)
Theorem BuildCSR_offsets (es : list (Z * Z)) (first second : Z)
    (Hfirst : 0 <= first <= second)
    (Hsecond : second - first + 1 < SInt.modulus)
    (Hrange : Forall (fun e => first <= fst e <= second) es)
    (Hlen : Z.of_nat (length es) < SInt.modulus) :
  exists csr,
    BuildCSR (mkResult es (first, second)) = Some csr
    /\ adjncy csr = map snd (std_sort es)
    /\ Z.of_nat (length (xadj csr)) = second - first + 1
    /\ forall j, 0 <= j <= second - first ->
         xadj csr !! Z.to_nat j = Some (count_lt es (first + j)).
Proof.
  destruct (BuildCSR_scan es first second Hfirst Hsecond Hrange Hlen)
    as (csr & Hb & Ha & Hl & Hx).
  exists csr. split; [exact Hb|]. split; [exact Ha|]. split; [exact Hl|].
  intros j Hj. rewrite (Hx j Hj). f_equal.
  apply count_lt_perm, std_sort_Permutation.
Qed.

Lemma BuildCSR_offsets_witness :
  exists csr,
    BuildCSR (mkResult [(5, 4); (4, 5); (4, 9); (6, 5)] (4, 7)) = Some csr
    /\ adjncy csr = map snd (std_sort [(5, 4); (4, 5); (4, 9); (6, 5)])
    /\ Z.of_nat (length (xadj csr)) = 7 - 4 + 1
    /\ forall j, 0 <= j <= 7 - 4 ->
         xadj csr !! Z.to_nat j
         = Some (count_lt [(5, 4); (4, 5); (4, 9); (6, 5)] (4 + j)).
Proof.
  assert (Hfirst : 0 <= 4 <= 7) by lia.
  assert (Hsecond : 7 - 4 + 1 < SInt.modulus) by (vm_compute; reflexivity).
  assert (Hrange : Forall (fun e : Z * Z => 4 <= fst e <= 7)
                     [(5, 4); (4, 5); (4, 9); (6, 5)]).
  { repeat (apply List.Forall_cons; [cbn [fst]; lia|]). apply List.Forall_nil. }
  assert (Hlen : Z.of_nat (length [(5, 4); (4, 5); (4, 9); (6, 5)]) < SInt.modulus)
    by (vm_compute; reflexivity).
  exact (BuildCSR_offsets _ 4 7 Hfirst Hsecond Hrange Hlen).
Defined.

(** X11. [BuildCSR] reads the edge list as a multiset: permuting the
    edges does not change the result, nor whether there is one. *)
Theorem BuildCSR_of_permutation (es es' : list (Z * Z)) (range : Z * Z)
    (Hperm : es ≡ₚ es') :
  BuildCSR (mkResult es range) = BuildCSR (mkResult es' range).
Proof.
  unfold BuildCSR. cbn [edges vertex_range]. cbv zeta.
  rewrite !sorted_if_needed, (std_sort_perm es es' Hperm). reflexivity.
Qed.

Lemma BuildCSR_of_permutation_witness :
  BuildCSR (mkResult [(5, 4); (4, 5)] (4, 7))
  = BuildCSR (mkResult [(4, 5); (5, 4)] (4, 7)).
Proof.
  exact (BuildCSR_of_permutation [(5, 4); (4, 5)] [(4, 5); (5, 4)] (4, 7)
           (perm_swap (4, 5) (5, 4) [])).
Defined.

Lemma split_at_first_above (second : Z) (l : list (Z * Z)) :
  Exists (fun e => second < fst e) l ->
  exists p e r, l = p ++ e :: r
                /\ Forall (fun a => fst a <= second) p /\ second < fst e.
Proof.
  induction l as [|a l IH]; intros H; [inversion H|].
  destruct (Z_lt_dec second (fst a)) as [Ha|Ha].
  - exists [], a, l. repeat split; [constructor | exact Ha].
  - inversion H as [? ? Hbad|? ? Hrest]; subst; [lia|].
    destruct (IH Hrest) as (p & e & r & -> & Hp & He).
    exists (a :: p), e, r. repeat split; [|exact He].
    constructor; [lia | exact Hp].
Qed.

Lemma SInt_sub_borrow (a b : Z) :
  0 <= a < b -> b < SInt.modulus -> SInt.sub a b = a - b + SInt.modulus.
Proof.
  intros Ha Hb. unfold SInt.sub, SInt.wrap.
  rewrite <- (Z_mod_plus_full (a - b) 1 SInt.modulus).
  rewrite Z.mul_1_l. apply Z.mod_small. lia.
Qed.

(** X12. [BuildCSR] does not check the edges against the vertex range.
    An edge whose source is below [first] or above [second] takes the
    loop that fills [xadj] past the end of the vector; the model returns
    [None] for this write out of bounds.  A source equal to [second]
    still fits: its target is stored, at the end of [adjncy], beyond the
    slice of every local vertex. *)
Theorem BuildCSR_source_out_of_range (es : list (Z * Z)) (first second : Z)
    (Hfirst : 0 <= first <= second)
    (Hsecond : second - first + 1 < SInt.modulus)
    (Hsecond' : second < SInt.modulus)
    (Hids : Forall (fun e => 0 <= fst e < SInt.modulus) es)
    (Hlen : Z.of_nat (length es) < SInt.modulus)
    (Hbad : Exists (fun e => fst e < first \/ second < fst e) es) :
  BuildCSR (mkResult es (first, second)) = None.
Proof.
  unfold BuildCSR. cbn [edges vertex_range fst snd]. cbv zeta.
  rewrite sorted_if_needed.
  pose proof (std_sort_range _ es Hids) as Hids'.
  pose proof (std_sort_length es) as Hl.
  pose proof (std_sort_StronglySorted es) as Hss.
  assert (Hbad' : Exists (fun e => fst e < first \/ second < fst e) (std_sort es)).
  { apply List.Exists_exists in Hbad as (e & He & Hb).
    apply List.Exists_exists. exists e. split; [|exact Hb].
    apply (Permutation_in _ (Permutation_sym (std_sort_Permutation es))). exact He. }
  assert (E : SInt.add (SInt.sub second first) 1 = second - first + 1).
  { unfold SInt.add, SInt.sub. rewrite (wrap_small (second - first)) by lia.
    apply wrap_small. lia. }
  rewrite <- Hl in Hlen.
  set (sorted := std_sort es) in *. clearbody sorted. clear Hbad Hids Hl.
  assert (Eo : forall (s : cursor) (e : Z * Z) (r : list (Z * Z)),
             0 <= cur_vertex s <= second - first ->
             Z.of_nat (length (c_xadj s)) = second - first + 1 ->
             second - first + 1 <= SInt.sub (fst e) first ->
             fold_left (edge_step first) (e :: r) (Some s) = None).
  { intros s [from to] r Hv Hxl Ht. cbn [fold_left edge_step fst] in *.
    rewrite fill_xadj_overflow by (try reflexivity; lia).
    apply fold_edge_step_None. }
  destruct (List.Exists_dec (fun e => fst e < first) sorted
              (fun e => Z_lt_dec (fst e) first)) as [Hlow|Hlow].
  - (* the least source is below the range *)
    destruct sorted as [|h r]; [inversion Hlow|].
    assert (Hh : fst h < first).
    { apply StronglySorted_inv in Hss as [_ Hle].
      inversion Hlow as [? ? Hb|? ? Hb]; subst; [exact Hb|].
      apply List.Exists_exists in Hb as (e & He & Hb).
      rewrite List.Forall_forall in Hle. specialize (Hle e He).
      apply tuple_le_spec in Hle. lia. }
    apply Forall_inv in Hids'.
    rewrite (Eo _ h r); cbn [cur_vertex c_xadj]; [reflexivity | lia | |].
    + rewrite E, length_replicate. lia.
    + rewrite SInt_sub_borrow by lia. lia.
  - (* all sources are at least [first], one is above [second] *)
    assert (Hge : Forall (fun e => first <= fst e) sorted).
    { apply List.Forall_forall. intros e He.
      destruct (Z_lt_dec (fst e) first) as [Hlt|]; [|lia].
      exfalso. apply Hlow. apply List.Exists_exists. exists e. split; assumption. }
    assert (Habove : Exists (fun e => second < fst e) sorted).
    { apply List.Exists_exists in Hbad' as (e & He & Hb).
      apply List.Exists_exists. exists e. split; [exact He|].
      rewrite List.Forall_forall in Hge. specialize (Hge e He). lia. }
    destruct (split_at_first_above second sorted Habove)
      as (p & e & r & -> & Hp & He).
    pose proof (scanned_start first second (p ++ e :: r) Hfirst Hsecond Hge) as Hs0.
    destruct (scan_prefix first second Hsecond p [] (e :: r) _ Hs0 Hss)
      as (s & Hfold & Hs).
    { apply List.Forall_forall. intros a Ha.
      rewrite List.Forall_forall in Hge, Hp.
      split; [apply Hge, in_or_app; left; exact Ha | apply Hp, Ha]. }
    { cbn [app]. rewrite length_app in Hlen. lia. }
    rewrite fold_left_app, Hfold.
    destruct Hs as [_ Hv _ _ Hxl _ _].
    rewrite (Eo s e r Hv Hxl); [reflexivity|].
    apply Forall_app in Hids' as [_ Hids']. apply Forall_inv in Hids'.
    unfold SInt.sub. rewrite wrap_small by lia. lia.
Qed.

Lemma BuildCSR_source_out_of_range_witness :
  BuildCSR (mkResult [(5, 4); (8, 5)] (4, 7)) = None.
Proof.
  assert (Hfirst : 0 <= 4 <= 7) by lia.
  assert (Hsecond : 7 - 4 + 1 < SInt.modulus) by (vm_compute; reflexivity).
  assert (Hsecond' : 7 < SInt.modulus) by (vm_compute; reflexivity).
  assert (Hids : Forall (fun e : Z * Z => 0 <= fst e < SInt.modulus)
                   [(5, 4); (8, 5)]).
  { repeat (apply List.Forall_cons;
            [cbn [fst]; unfold SInt.modulus; lia|]). apply List.Forall_nil. }
  assert (Hlen : Z.of_nat (length [(5, 4); (8, 5)]) < SInt.modulus)
    by (vm_compute; reflexivity).
  assert (Hbad : Exists (fun e : Z * Z => fst e < 4 \/ 7 < fst e) [(5, 4); (8, 5)]).
  { apply List.Exists_cons_tl, List.Exists_cons_hd. right. cbn [fst]. lia. }
  exact (BuildCSR_source_out_of_range _ 4 7 Hfirst Hsecond Hsecond' Hids Hlen Hbad).
Defined.

(** In a sorted edge list the edges of one source are consecutive. *)
Lemma sorted_slice (b : Z) (l : list (Z * Z)) :
  StronglySorted tuple_le l ->
  take (Z.to_nat (count_lt l (b + 1) - count_lt l b))
       (drop (Z.to_nat (count_lt l b)) l)
  = List.filter (fun e => fst e =? b) l.
Proof.
  induction 1 as [|e l Hs IH Hle]; [reflexivity|].
  assert (Hle' : Forall (fun a => fst e <= fst a) l).
  { eapply Forall_impl; [exact Hle|]. cbv beta. intros a Ha.
    apply tuple_le_spec in Ha. lia. }
  unfold count_lt in *. cbn [List.filter].
  destruct (Z.ltb_spec (fst e) b) as [Hlt|Hge].
  - assert (Hlt1 : (fst e <? b + 1) = true) by (apply Z.ltb_lt; lia).
    assert (Hne : (fst e =? b) = false) by (apply Z.eqb_neq; lia).
    rewrite Hlt1, Hne. cbn [length]. rewrite !Nat2Z.inj_succ.
    rewrite Z2Nat.inj_succ by lia. cbn [drop].
    rewrite <- IH. f_equal. lia.
  - fold (count_lt l b) in *. fold (count_lt l (b + 1)) in *.
    rewrite (count_lt_none l b) in *
      by (eapply Forall_impl; [exact Hle'|]; cbv beta; intros; lia).
    change (Z.to_nat 0) with 0%nat in *. cbn [drop] in *.
    rewrite Z.sub_0_r in *.
    destruct (Z.eqb_spec (fst e) b) as [Heq|Hne].
    + assert (Hlt1 : (fst e <? b + 1) = true) by (apply Z.ltb_lt; lia).
      rewrite Hlt1. cbn [length]. rewrite Nat2Z.inj_succ.
      fold (count_lt l (b + 1)).
      rewrite Z2Nat.inj_succ by (unfold count_lt; lia). cbn [take].
      f_equal. exact IH.
    + assert (Hlt1 : (fst e <? b + 1) = false) by (apply Z.ltb_ge; lia).
      rewrite Hlt1. fold (count_lt l (b + 1)).
      rewrite (count_lt_none l (b + 1)) in *
        by (eapply Forall_impl; [exact Hle'|]; cbv beta; intros; lia).
      change (Z.to_nat 0) with 0%nat in *. cbn [take] in *. exact IH.
Qed.

(** X13. The result of [BuildCSR] as an adjacency structure: for a local
    vertex [first + v], the entries of [adjncy] from position [xadj[v]]
    up to [xadj[v+1]] are the targets of the edges that start at this
    vertex, in increasing order of the sorted edge list. *)
Theorem BuildCSR_neighbours (es : list (Z * Z)) (first second v : Z)
    (Hfirst : 0 <= first <= second)
    (Hsecond : second - first + 1 < SInt.modulus)
    (Hrange : Forall (fun e => first <= fst e <= second) es)
    (Hlen : Z.of_nat (length es) < SInt.modulus)
    (Hv : 0 <= v < second - first) :
  exists csr x0 x1,
    BuildCSR (mkResult es (first, second)) = Some csr
    /\ xadj csr !! Z.to_nat v = Some x0
    /\ xadj csr !! Z.to_nat (v + 1) = Some x1
    /\ take (Z.to_nat (x1 - x0)) (drop (Z.to_nat x0) (adjncy csr))
       = map snd (List.filter (fun e => fst e =? first + v) (std_sort es)).
Proof.
  destruct (BuildCSR_scan es first second Hfirst Hsecond Hrange Hlen)
    as (csr & Hb & Ha & _ & Hx).
  exists csr, (count_lt (std_sort es) (first + v)),
    (count_lt (std_sort es) (first + (v + 1))).
  split; [exact Hb|]. split; [apply Hx; lia|]. split; [apply Hx; lia|].
  rewrite Ha, skipn_map, firstn_map. f_equal.
  replace (first + (v + 1)) with (first + v + 1) by lia.
  apply sorted_slice, std_sort_StronglySorted.
Qed.

Lemma BuildCSR_neighbours_witness :
  exists csr x0 x1,
    BuildCSR (mkResult [(5, 4); (4, 9); (4, 5); (6, 5)] (4, 7)) = Some csr
    /\ xadj csr !! Z.to_nat 0 = Some x0
    /\ xadj csr !! Z.to_nat (0 + 1) = Some x1
    /\ take (Z.to_nat (x1 - x0)) (drop (Z.to_nat x0) (adjncy csr))
       = map snd (List.filter (fun e => fst e =? 4 + 0)
                    (std_sort [(5, 4); (4, 9); (4, 5); (6, 5)])).
Proof.
  assert (Hfirst : 0 <= 4 <= 7) by lia.
  assert (Hsecond : 7 - 4 + 1 < SInt.modulus) by (vm_compute; reflexivity).
  assert (Hrange : Forall (fun e : Z * Z => 4 <= fst e <= 7)
                     [(5, 4); (4, 9); (4, 5); (6, 5)]).
  { repeat (apply List.Forall_cons; [cbn [fst]; lia|]). apply List.Forall_nil. }
  assert (Hlen : Z.of_nat (length [(5, 4); (4, 9); (4, 5); (6, 5)]) < SInt.modulus)
    by (vm_compute; reflexivity).
  assert (Hv : 0 <= 0 < 7 - 4) by lia.
  exact (BuildCSR_neighbours _ 4 7 0 Hfirst Hsecond Hrange Hlen Hv).
Defined.

(** ** [BuildVertexDistribution] *)

(** The vertex ranges of the participants, by rank, are consecutive
    half-open intervals beginning at [start]. *)
Fixpoint consecutive_from (start : Z) (graphs : list KaGenResult) : Prop :=
  match graphs with
  | [] => True
  | graph :: rest =>
      fst (vertex_range graph) = start
      /\ consecutive_from (snd (vertex_range graph)) rest
  end.

Lemma distribution_lookup (graphs : list KaGenResult) :
  forall (start : Z) (r : nat) (graph : KaGenResult),
  consecutive_from start graphs ->
  graphs !! r = Some graph ->
  (start :: map (fun graph0 => snd (vertex_range graph0)) graphs) !! r
  = Some (fst (vertex_range graph))
  /\ (start :: map (fun graph0 => snd (vertex_range graph0)) graphs) !! S r
     = Some (snd (vertex_range graph)).
Proof.
  induction graphs as [|a graphs IH]; intros start r graph Hc Hr; [discriminate|].
  destruct Hc as [Ha Hc]. destruct r as [|r].
  - injection Hr as <-. cbn. rewrite Ha. split; reflexivity.
  - cbn [lookup list_lookup] in Hr. cbn [map].
    exact (IH (snd (vertex_range a)) r graph Hc Hr).
Qed.

(** X14. When the vertex ranges of the participants are consecutive
    half-open intervals that start at 0, the distribution has one entry
    per participant and one more, entry [r] is the first vertex of
    participant [r] and entry [r + 1] the end of its range, so that their
    difference is its number of vertices. *)
Theorem BuildVertexDistribution_contiguous (graphs : list KaGenResult) (r : nat)
    (graph : KaGenResult)
    (Hranges : consecutive_from 0 graphs)
    (Hr : graphs !! r = Some graph) :
  length (BuildVertexDistribution graphs) = S (length graphs)
  /\ BuildVertexDistribution graphs !! r = Some (fst (vertex_range graph))
  /\ BuildVertexDistribution graphs !! S r = Some (snd (vertex_range graph)).
Proof.
  unfold BuildVertexDistribution. split.
  - cbn [length]. rewrite length_map. reflexivity.
  - exact (distribution_lookup graphs 0 r graph Hranges Hr).
Qed.

Lemma BuildVertexDistribution_contiguous_witness :
  BuildVertexDistribution
    [mkResult [] (0, 4); mkResult [(4, 5)] (4, 9); mkResult [] (9, 11)] !! 1%nat
  = Some 4
  /\ BuildVertexDistribution
       [mkResult [] (0, 4); mkResult [(4, 5)] (4, 9); mkResult [] (9, 11)] !! 2%nat
     = Some 9.
Proof.
  assert (Hranges : consecutive_from 0
            [mkResult [] (0, 4); mkResult [(4, 5)] (4, 9); mkResult [] (9, 11)])
    by (cbn; repeat split).
  exact (proj2 (BuildVertexDistribution_contiguous _ 1 (mkResult [(4, 5)] (4, 9))
                  Hranges eq_refl)).
Defined.

(** * Statistics ([kagen/tools/statistics.cpp])

The participants of a communicator are listed by rank; a reduction reads
the value of every participant and leaves its result on the root.
Floating-point arithmetic is external to the modelled files: the
quotient [1.0 * a / b] of two integers in [LPFloat] is taken as a
function. *)

From stdpp Require Import gmap.
Local Open Scope Z_scope.

Class FloatDivision (LPFloat : Type) : Type := {
  fdiv : Z -> Z -> LPFloat
}.

(** [std::log2] is external as well: [log2_bin deg] is the value of
    [std::log2(deg) + 1] after its conversion to [SInt]. *)
Class Logarithm : Type := {
  log2_bin : Z -> Z
}.

(** [assert] ([<cassert>]) expands to nothing when the file is compiled
    with [NDEBUG] defined; otherwise it evaluates its condition and calls
    [abort()] when it is false.  Which of the two builds runs is a
    parameter. *)
Class Build : Type := {
  NDEBUG : bool
}.

Module Statistics.

(** [ReduceSum(value, comm)]: [MPI_Reduce] with [MPI_SUM] on
    [MPI_UNSIGNED_LONG_LONG]. *)
Definition ReduceSum (values : list Z) : Z := fold_left SInt.add values 0.

(** [ReduceMin(value, comm)]: [MPI_MIN]; a communicator has at least one
    participant. *)
Definition ReduceMin (values : list Z) : Z :=
  match values with
  | [] => 0
  | v :: rest => fold_left Z.min rest v
  end.

(** [ReduceMax(value, comm)]: [MPI_MAX]. *)
Definition ReduceMax (values : list Z) : Z :=
  match values with
  | [] => 0
  | v :: rest => fold_left Z.max rest v
  end.

(** One iteration of the loop of [ComputeNumberOfGhostNodes]:
    [if (to < vertex_range.first || to >= vertex_range.second)
       ghost_nodes.insert(to);] *)
Definition ghost_step (vertex_range : Z * Z) (ghost_nodes : gset Z) (e : Z * Z)
  : gset Z :=
  let '(from, to) := e in
  if (to <? fst vertex_range) || (snd vertex_range <=? to)
  then ghost_nodes ∪ {[to]}
  else ghost_nodes.

(** The set [ghost_nodes] at the end of the loop. *)
Definition ghost_nodes_of (edges : list (Z * Z)) (vertex_range : Z * Z) : gset Z :=
  fold_left (ghost_step vertex_range) edges ∅.

(** [ComputeNumberOfGhostNodes(edges, vertex_range, comm)], on the
    root. *)
Definition ComputeNumberOfGhostNodes (world : list (list (Z * Z) * (Z * Z))) : Z :=
  ReduceSum
    (map (fun pe => Z.of_nat (size (ghost_nodes_of (fst pe) (snd pe)))) world).

(** [assert(cond)]: nothing under [NDEBUG], where the condition is not
    evaluated; otherwise [abort()] when the condition is false, [None]. *)
Definition assert_ {B : Build} (cond : bool) : option unit :=
  if NDEBUG then Some tt else if cond then Some tt else None.

(** The variables of the scan in [ReduceDegreeStatistics]. *)
Record degree_scan : Type := mkDegreeScan {
  min : Z;
  sum : Z;
  max : Z;
  cur_from : Z;
  cur_degree : Z
}.

(** The lambda [update]:
    [min = std::min(min, deg); max = std::max(max, deg); sum += deg;] *)
Definition update (s : degree_scan) (deg : Z) : degree_scan :=
  mkDegreeScan (Z.min (min s) deg) (SInt.add (sum s) deg) (Z.max (max s) deg)
               (cur_from s) (cur_degree s).

(** One iteration of [for (const auto& [from, to]: edges)]. *)
Definition degree_step (s : degree_scan) (e : Z * Z) : degree_scan :=
  let '(from, to) := e in
  if from =? cur_from s
  then mkDegreeScan (min s) (sum s) (max s) (cur_from s)
                    (SInt.add (cur_degree s) 1)
  else
    let s := update s (cur_degree s) in
    let min' := if negb (SInt.add (cur_from s) 1 =? from) then 0 else min s in
    mkDegreeScan min' (sum s) (max s) from 1.

(** [ReduceDegreeStatistics] after its assertion and up to the
    reductions: [(min, sum, max)].  [edges.front()] on an empty vector is
    undefined: [None]. *)
Definition scan_degrees (edges : list (Z * Z)) : option (Z * Z * Z) :=
  match edges with
  | [] => None
  | front :: _ =>
      let s :=
        fold_left degree_step edges
                  (mkDegreeScan (SInt.modulus - 1) 0 0 (fst front) 0) in
      let s := update s (cur_degree s) in
      Some (min s, sum s, max s)
  end.

(** The local part of [ReduceDegreeStatistics]:
    [assert(std::is_sorted(edges.begin(), edges.end()));] and the scan.
    [None] is a run without a value: aborted by the assertion, or
    undefined. *)
Definition local_degrees {B : Build} (edges : list (Z * Z))
  : option (Z * Z * Z) :=
  match assert_ (is_sorted edges) with
  | None => None
  | Some _ => scan_degrees edges
  end.

Fixpoint all_local_degrees {B : Build} (world : list (list (Z * Z)))
  : option (list (Z * Z * Z)) :=
  match world with
  | [] => Some []
  | edges :: rest =>
      match local_degrees edges, all_local_degrees rest with
      | Some l, Some ls => Some (l :: ls)
      | _, _ => None
      end
  end.

(** [DegreeStatistics]: what the callers bind as
    [[min_degree, mean_degree, max_degree]]. *)
Record DegreeStatistics (LPFloat : Type) : Type := mkDegreeStatistics {
  min_degree : Z;
  mean_degree : LPFloat;
  max_degree : Z
}.

Arguments mkDegreeStatistics {LPFloat}.
Arguments min_degree {LPFloat}.
Arguments mean_degree {LPFloat}.
Arguments max_degree {LPFloat}.

(** [ReduceDegreeStatistics(edges, global_num_nodes, comm)], on the
    root. *)
Definition ReduceDegreeStatistics
    {LPFloat : Type} {F : FloatDivision LPFloat} {B : Build}
    (world : list (list (Z * Z))) (global_num_nodes : Z)
  : option (DegreeStatistics LPFloat) :=
  match all_local_degrees world with
  | None => None
  | Some locals =>
      let global_min := ReduceMin (map (fun l => fst (fst l)) locals) in
      let global_sum := ReduceSum (map (fun l => snd (fst l)) locals) in
      let global_max := ReduceMax (map snd locals) in
      Some (mkDegreeStatistics global_min (fdiv global_sum global_num_nodes)
                               global_max)
  end.

(** [++bins[i]] *)
Definition increment (bins : list Z) (i : Z) : list Z :=
  alter (fun c => SInt.add c 1) (Z.to_nat i) bins.

(** The lambda [yield]:
    [const SInt bin = std::log2(deg) + 1; ++bins[bin];]
    An index past the end of [bins] is a write out of bounds: [None]. *)
Definition yield {L : Logarithm} (bins : list Z) (deg : Z) : option (list Z) :=
  let bin := log2_bin deg in
  if bin <? Z.of_nat (length bins) then Some (increment bins bin) else None.

(** [passes] runs of the body [++bins[0];]. *)
Fixpoint count_skipped (passes : nat) (bins : list Z) : list Z :=
  match passes with
  | O => bins
  | S passes' => count_skipped passes' (increment bins 0)
  end.

(** [while (++cur_from < bound) { ++bins[0]; }]
    After the first increment the test holds [bound - cur_from] times
    (not at all when [cur_from] has reached [bound]), and [cur_from] goes
    up by one with each test.  The result is the vector and the final
    [cur_from]. *)
Definition skip_to (bins : list Z) (cur_from bound : Z) : list Z * Z :=
  let cur_from := SInt.add cur_from 1 in
  let passes := Z.to_nat (bound - cur_from) in
  (count_skipped passes bins, cur_from + Z.of_nat passes).

(** The variables of the scan in [ComputeDegreeBins]. *)
Record bin_scan : Type := mkBinScan {
  bins : list Z;
  bin_from : Z;
  bin_degree : Z
}.

(** One iteration of [for (const auto& [from, to]: edges)]. *)
Definition bin_step {L : Logarithm} (st : option bin_scan) (e : Z * Z)
  : option bin_scan :=
  match st with
  | None => None
  | Some s =>
      let '(from, to) := e in
      if from =? bin_from s
      then Some (mkBinScan (bins s) (bin_from s) (SInt.add (bin_degree s) 1))
      else
        match yield (bins s) (bin_degree s) with
        | None => None
        | Some bins' =>
            let '(bins'', cur_from') := skip_to bins' (bin_from s) from in
            Some (mkBinScan bins'' cur_from' 1)
        end
  end.

(** [ComputeDegreeBins] after its assertion and up to the reduction: the
    vector [bins]; [std::numeric_limits<SInt>::digits] is 64. *)
Definition scan_bins {L : Logarithm}
    (edges : list (Z * Z)) (vertex_range : Z * Z) : option (list Z) :=
  match edges with
  | [] => None
  | front :: _ =>
      match fold_left bin_step edges
                      (Some (mkBinScan (replicate 64 0) (fst front) 0)) with
      | None => None
      | Some s =>
          match yield (bins s) (bin_degree s) with
          | None => None
          | Some bins' =>
              Some (fst (skip_to bins' (bin_from s) (snd vertex_range)))
          end
      end
  end.

(** The local part of [ComputeDegreeBins]:
    [assert(std::is_sorted(edges.begin(), edges.end()));] and the scan. *)
Definition local_degree_bins {L : Logarithm} {B : Build}
    (edges : list (Z * Z)) (vertex_range : Z * Z) : option (list Z) :=
  match assert_ (is_sorted edges) with
  | None => None
  | Some _ => scan_bins edges vertex_range
  end.

(** [ComputeDegreeBins(edges, vertex_range, comm)], on the root:
    [MPI_Reduce] with [MPI_SUM] over the entries. *)
Fixpoint ComputeDegreeBins {L : Logarithm} {B : Build}
    (world : list (list (Z * Z) * (Z * Z))) : option (list Z) :=
  match world with
  | [] => Some (replicate 64 0)
  | pe :: rest =>
      match local_degree_bins (fst pe) (snd pe), ComputeDegreeBins rest with
      | Some local, Some others => Some (zip_with SInt.add local others)
      | _, _ => None
      end
  end.

End Statistics.

Section GhostNodes.
  Import Statistics.

Lemma ghost_nodes_fold (es : list (Z * Z)) (range : Z * Z) : forall (s : gset Z) (v : Z),
  v ∈ fold_left (ghost_step range) es s
  <-> v ∈ s \/ ((exists u, In (u, v) es) /\ (v < fst range \/ snd range <= v)).
Proof.
  induction es as [|[from to] es IH]; intros s v.
  - cbn [fold_left]. split; [intros H; left; exact H|].
    intros [H|[[u Hu] _]]; [exact H | destruct Hu].
  - cbn [fold_left]. rewrite IH. unfold ghost_step.
    destruct (Z.ltb_spec to (fst range)) as [Hlo|Hlo];
      destruct (Z.leb_spec (snd range) to) as [Hhi|Hhi]; cbn [orb];
      rewrite ?elem_of_union, ?elem_of_singleton; split.
    all: try (intros [[H| ->]|[[u Hu] Hv]];
              [left; exact H
              | right; split; [exists from; left; reflexivity | lia]
              | right; split; [exists u; right; exact Hu | exact Hv]]).
    all: try (intros [H|[[u [Hu|Hu]] Hv]];
              [left; left; exact H
              | injection Hu as _ ->; left; right; reflexivity
              | right; split; [exists u; exact Hu | exact Hv]]).
    + intros [H|[[u Hu] Hv]];
        [left; exact H | right; split; [exists u; right; exact Hu | exact Hv]].
    + intros [H|[[u [Hu|Hu]] Hv]];
        [left; exact H
        | injection Hu as _ ->; lia
        | right; split; [exists u; exact Hu | exact Hv]].
Qed.

Lemma ghost_nodes_size (es : list (Z * Z)) (range : Z * Z) : forall (s : gset Z),
  (size (fold_left (ghost_step range) es s) <= size s + length es)%nat.
Proof.
  induction es as [|[from to] es IH]; intros s; [cbn; lia|].
  cbn [fold_left length]. etransitivity; [apply IH|]. unfold ghost_step.
  destruct ((to <? fst range) || (snd range <=? to)); [|lia].
  assert (Hsub : ({[to]} : gset Z) ∖ s ⊆ {[to]}) by apply subseteq_difference_l, reflexivity.
  pose proof (size_union_alt s {[to]}) as Hu.
  pose proof (subseteq_size _ _ Hsub) as Hd.
  rewrite size_singleton in Hd. lia.
Qed.

End GhostNodes.

(** X15. [ComputeNumberOfGhostNodes] counts, for a participant, every
    vertex outside its range [[first, second)] that is the target of one
    of its edges, once however many edges lead to it: the set it builds
    holds exactly these vertices, so its size is at most the number of
    edges, and for a single participant the value on the root is that
    size. *)
Theorem ghost_nodes_are_outside_targets (es : list (Z * Z)) (range : Z * Z)
    (Hlen : Z.of_nat (length es) < SInt.modulus) :
  (forall v, v ∈ Statistics.ghost_nodes_of es range
             <-> (exists u, In (u, v) es) /\ (v < fst range \/ snd range <= v))
  /\ (size (Statistics.ghost_nodes_of es range) <= length es)%nat
  /\ Statistics.ComputeNumberOfGhostNodes [(es, range)]
     = Z.of_nat (size (Statistics.ghost_nodes_of es range)).
Proof.
  pose proof (ghost_nodes_size es range ∅) as Hs. rewrite size_empty in Hs.
  fold (Statistics.ghost_nodes_of es range) in Hs.
  split; [|split; [exact Hs|]].
  - intros v. unfold Statistics.ghost_nodes_of. rewrite ghost_nodes_fold.
    split; [intros [H|H]; [|exact H] | intros H; right; exact H].
    apply not_elem_of_empty in H. destruct H.
  - unfold Statistics.ComputeNumberOfGhostNodes, Statistics.ReduceSum.
    cbn [map fold_left fst snd].
    unfold SInt.add. rewrite Z.add_0_l. apply wrap_small. lia.
Qed.

Lemma ghost_nodes_are_outside_targets_witness :
  Statistics.ComputeNumberOfGhostNodes [([(4, 9); (5, 9); (5, 6); (6, 2)], (4, 8))]
  = Z.of_nat (size (Statistics.ghost_nodes_of [(4, 9); (5, 9); (5, 6); (6, 2)] (4, 8))).
Proof.
  assert (Hlen : Z.of_nat (length [(4, 9); (5, 9); (5, 6); (6, 2)]) < SInt.modulus)
    by (vm_compute; reflexivity).
  exact (proj2 (proj2 (ghost_nodes_are_outside_targets _ (4, 8) Hlen))).
Defined.

(** ** The degree scan *)

(** The out-degree of [v] in an edge list. *)
Definition outdeg (es : list (Z * Z)) (v : Z) : Z :=
  Z.of_nat (length (List.filter (fun e => fst e =? v) es)).

(** Two consecutive edges whose sources skip a vertex. *)
Definition has_gap (es : list (Z * Z)) : Prop :=
  exists l1 a b l2, es = l1 ++ a :: b :: l2 /\ fst a + 1 < fst b.

Section DegreeScan.
  Import Statistics.

Lemma outdeg_snoc (p : list (Z * Z)) (e : Z * Z) (v : Z) :
  outdeg (p ++ [e]) v = outdeg p v + (if fst e =? v then 1 else 0).
Proof.
  unfold outdeg. rewrite List.filter_app, length_app. cbn [List.filter].
  destruct (fst e =? v); cbn [length]; lia.
Qed.

Lemma outdeg_nonneg (p : list (Z * Z)) (v : Z) : 0 <= outdeg p v.
Proof. unfold outdeg. lia. Qed.

Lemma outdeg_le_length (p : list (Z * Z)) (v : Z) :
  outdeg p v <= Z.of_nat (length p).
Proof. unfold outdeg. pose proof (List.filter_length_le (fun e => fst e =? v) p). lia. Qed.

Lemma outdeg_above (p : list (Z * Z)) (b v : Z) :
  Forall (fun e => fst e <= b) p -> b < v -> outdeg p v = 0.
Proof.
  intros H Hv. unfold outdeg. induction H as [|e p He Hp IH]; [reflexivity|].
  cbn [List.filter]. destruct (Z.eqb_spec (fst e) v); [lia | exact IH].
Qed.

Lemma has_gap_snoc (p : list (Z * Z)) (a e : Z * Z) :
  has_gap ((p ++ [a]) ++ [e]) <-> has_gap (p ++ [a]) \/ fst a + 1 < fst e.
Proof.
  split.
  - intros (l1 & x & y & l2 & E & Hg).
    destruct l2 as [|z l2 _] using rev_ind.
    + right.
      change (l1 ++ [x; y]) with (l1 ++ [x] ++ [y]) in E.
      rewrite app_assoc in E. apply app_inj_tail in E as [E ->].
      apply app_inj_tail in E as [_ ->]. exact Hg.
    + left. exists l1, x, y, l2. split; [|exact Hg].
      change (l1 ++ x :: y :: l2 ++ [z]) with (l1 ++ (x :: y :: l2) ++ [z]) in E.
      rewrite app_assoc in E. apply app_inj_tail in E as [E _]. exact E.
  - intros [(l1 & x & y & l2 & E & Hg)|Hg].
    + exists l1, x, y, (l2 ++ [e]). split; [|exact Hg].
      rewrite E, <- app_assoc. reflexivity.
    + exists p, a, e, []. split; [|exact Hg]. rewrite <- app_assoc. reflexivity.
Qed.

(** The state of the scan after a non-empty sorted prefix [p]. *)
Record scan_inv (p : list (Z * Z)) (s : degree_scan) : Prop := mkScanInv {
  i_from0 : 0 <= cur_from s;
  i_last : exists p0 a, p = p0 ++ [a] /\ fst a = cur_from s;
  i_le : Forall (fun e => fst e <= cur_from s) p;
  i_deg : cur_degree s = outdeg p (cur_from s);
  i_sum : sum s + cur_degree s = Z.of_nat (length p);
  i_sum0 : 0 <= sum s;
  i_max_ub : forall v, v < cur_from s -> outdeg p v <= max s;
  i_max_at : max s = 0 \/ exists v, v < cur_from s /\ outdeg p v = max s;
  i_max0 : 0 <= max s;
  i_min_lb : forall v, v < cur_from s -> 1 <= outdeg p v -> min s <= outdeg p v;
  i_min0 : min s = 0 \/ 1 <= min s;
  i_gap : min s = 0 <-> has_gap p
}.

Lemma scan_inv_first (e : Z * Z) :
  0 <= fst e ->
  scan_inv [e] (degree_step (mkDegreeScan (SInt.modulus - 1) 0 0 (fst e) 0) e).
Proof.
  destruct e as [from to]. intros H0. unfold degree_step. cbn [fst cur_from] in *.
  rewrite Z.eqb_refl. cbn [min sum max cur_from cur_degree].
  constructor; cbn [min sum max cur_from cur_degree length].
  - exact H0.
  - exists [], (from, to). split; reflexivity.
  - constructor; [cbn [fst]; lia | constructor].
  - unfold outdeg. cbn [List.filter fst]. rewrite Z.eqb_refl. reflexivity.
  - reflexivity.
  - lia.
  - intros v Hv. unfold outdeg. cbn [List.filter fst].
    destruct (Z.eqb_spec from v); [lia | cbn; lia].
  - left. reflexivity.
  - lia.
  - intros v Hv. unfold outdeg. cbn [List.filter fst].
    destruct (Z.eqb_spec from v); [lia | cbn; lia].
  - right. unfold SInt.modulus. lia.
  - split; [unfold SInt.modulus; lia|].
    intros (l1 & a & b & l2 & E & _).
    apply (f_equal (@length _)) in E. rewrite length_app in E. cbn [length] in E. lia.
Qed.

Lemma scan_inv_step (p : list (Z * Z)) (s : degree_scan) (e : Z * Z) :
  scan_inv p s ->
  cur_from s <= fst e < SInt.modulus ->
  Z.of_nat (length p) + 1 < SInt.modulus ->
  scan_inv (p ++ [e]) (degree_step s e).
Proof.
  intros [Hf0 (p0 & a & Hp & Ha) Hle Hdeg Hsum Hsum0 Hub Hat Hmax0 Hlb Hmin0 Hgap]
         He Hfit.
  destruct e as [from to]. cbn [fst] in He. unfold degree_step.
  pose proof (outdeg_nonneg p (cur_from s)) as Hd0.
  destruct (Z.eqb_spec from (cur_from s)) as [->|Hne].
  - (* the same source again *)
    assert (E : SInt.add (cur_degree s) 1 = cur_degree s + 1)
      by (apply wrap_small; lia).
    rewrite E.
    constructor; cbn [min sum max cur_from cur_degree].
    + exact Hf0.
    + exists p, (cur_from s, to). split; reflexivity.
    + apply Forall_app. split; [exact Hle|].
      constructor; [cbn [fst]; lia | constructor].
    + rewrite outdeg_snoc. cbn [fst]. rewrite Z.eqb_refl. lia.
    + rewrite length_app. cbn [length]. lia.
    + exact Hsum0.
    + intros v Hv. rewrite outdeg_snoc. cbn [fst].
      destruct (Z.eqb_spec (cur_from s) v); [lia|]. rewrite Z.add_0_r. apply Hub, Hv.
    + destruct Hat as [H0|(v & Hv & Hm)]; [left; exact H0|].
      right. exists v. split; [exact Hv|]. rewrite outdeg_snoc. cbn [fst].
      destruct (Z.eqb_spec (cur_from s) v); lia.
    + exact Hmax0.
    + intros v Hv. rewrite outdeg_snoc. cbn [fst].
      destruct (Z.eqb_spec (cur_from s) v); [lia|]. rewrite Z.add_0_r. apply Hlb, Hv.
    + exact Hmin0.
    + rewrite Hgap, Hp, has_gap_snoc. cbn [fst]. rewrite Ha.
      split; [intros H; left; exact H | intros [H|H]; [exact H | lia]].
  - (* a later source *)
    cbv zeta. unfold update. cbn [min sum max cur_from cur_degree].
    assert (E1 : SInt.add (cur_from s) 1 = cur_from s + 1).
    { apply wrap_small. lia. }
    assert (E2 : SInt.add (sum s) (cur_degree s) = Z.of_nat (length p))
      by (unfold SInt.add; rewrite Hsum; apply wrap_small; lia).
    rewrite E1, E2.
    assert (Hcd : 1 <= cur_degree s).
    { rewrite Hdeg, Hp, outdeg_snoc, Ha, Z.eqb_refl.
      pose proof (outdeg_nonneg p0 (cur_from s)). lia. }
    assert (Hold : forall v, v < from ->
              outdeg (p ++ [(from, to)]) v = outdeg p v).
    { intros v Hv. rewrite outdeg_snoc. cbn [fst].
      destruct (Z.eqb_spec from v); lia. }
    assert (Hcases : forall v, v < from ->
              v < cur_from s \/ (v = cur_from s /\ outdeg p v = cur_degree s)
              \/ (cur_from s < v /\ outdeg p v = 0)).
    { intros v Hv. destruct (Z.lt_trichotomy v (cur_from s)) as [H|[H|H]].
      - left. exact H.
      - right. left. subst v. split; [reflexivity | symmetry; exact Hdeg].
      - right. right. split; [exact H|]. apply (outdeg_above p (cur_from s)); assumption. }
    constructor; cbn [min sum max cur_from cur_degree].
    + lia.
    + exists p, (from, to). split; reflexivity.
    + apply Forall_app. split.
      * eapply Forall_impl; [exact Hle|]. cbv beta. intros x Hx. lia.
      * constructor; [cbn [fst]; lia | constructor].
    + rewrite outdeg_snoc. cbn [fst]. rewrite Z.eqb_refl.
      rewrite (outdeg_above p (cur_from s)) by (assumption || lia). reflexivity.
    + rewrite length_app. cbn [length]. lia.
    + lia.
    + intros v Hv. rewrite (Hold v Hv).
      destruct (Hcases v Hv) as [H|[[-> H]|[_ H]]].
      * specialize (Hub v H). lia.
      * lia.
      * lia.
    + right. destruct (Z.max_spec (max s) (cur_degree s)) as [[Hlt ->]|[Hge ->]].
      * exists (cur_from s). split; [lia|]. rewrite Hold by lia. symmetry. exact Hdeg.
      * destruct Hat as [H0|(v & Hv & Hm)]; [lia|].
        exists v. split; [lia|]. rewrite Hold by lia. exact Hm.
    + lia.
    + intros v Hv Hpos. rewrite (Hold v Hv) in *.
      destruct (negb (cur_from s + 1 =? from)); [lia|].
      destruct (Hcases v Hv) as [H|[[-> H]|[_ H]]].
      * specialize (Hlb v H Hpos). lia.
      * lia.
      * lia.
    + destruct (negb (cur_from s + 1 =? from)); [left; reflexivity|]. lia.
    + rewrite Hp, has_gap_snoc, <- Hp, <- Hgap. cbn [fst]. rewrite Ha.
      destruct (Z.eqb_spec (cur_from s + 1) from) as [Heq|Hneq]; cbn [negb].
      * split; [intros H; left; lia | intros [H|H]; lia].
      * split; [intros _; right; lia | reflexivity].
Qed.

Lemma scan_inv_all (q : list (Z * Z)) : forall (p : list (Z * Z)) (s : degree_scan),
  scan_inv p s ->
  Forall (fun e => cur_from s <= fst e) q ->
  StronglySorted tuple_le q ->
  Forall (fun e => fst e < SInt.modulus) q ->
  Z.of_nat (length (p ++ q)) < SInt.modulus ->
  scan_inv (p ++ q) (fold_left degree_step q s).
Proof.
  induction q as [|e q IH]; intros p s Hs Hge Hsorted Hids Hfit.
  - rewrite app_nil_r. exact Hs.
  - apply StronglySorted_inv in Hsorted as [Hsorted Hle].
    apply Forall_cons in Hge as [Hge0 Hge]. apply Forall_cons in Hids as [Hid Hids].
    rewrite length_app in Hfit. cbn [length] in Hfit.
    cbn [fold_left].
    replace (p ++ e :: q) with ((p ++ [e]) ++ q) by (rewrite <- app_assoc; reflexivity).
    apply IH.
    + apply scan_inv_step; [exact Hs | lia | lia].
    + assert (Ecf : cur_from (degree_step s e) = fst e).
      { destruct e as [from to]. unfold degree_step. cbn [fst].
        destruct (Z.eqb_spec from (cur_from s)) as [->|]; reflexivity. }
      rewrite Ecf. eapply Forall_impl; [exact Hle|]. cbv beta. intros x Hx.
      apply tuple_le_spec in Hx. lia.
    + exact Hsorted.
    + exact Hids.
    + rewrite !length_app. cbn [length]. lia.
Qed.

End DegreeScan.

Section Assertions.
  Import Statistics.
  Context {B : Build}.

Lemma assert_holds (cond : bool) : cond = true -> assert_ cond = Some tt.
Proof. intros ->. unfold assert_. destruct NDEBUG; reflexivity. Qed.

Lemma assert_off (cond : bool) : NDEBUG = true -> assert_ cond = Some tt.
Proof. intros H. unfold assert_. rewrite H. reflexivity. Qed.

Lemma assert_fails (cond : bool) :
  NDEBUG = false -> cond = false -> assert_ cond = None.
Proof. intros H ->. unfold assert_. rewrite H. reflexivity. Qed.

Lemma local_degrees_passed (es : list (Z * Z)) :
  NDEBUG = true \/ is_sorted es = true -> local_degrees es = scan_degrees es.
Proof.
  intros [H|H]; unfold local_degrees;
    [rewrite (assert_off _ H) | rewrite (assert_holds _ H)]; reflexivity.
Qed.

Lemma local_degree_bins_passed {L : Logarithm} (es : list (Z * Z)) (range : Z * Z) :
  NDEBUG = true \/ is_sorted es = true ->
  local_degree_bins es range = scan_bins es range.
Proof.
  intros [H|H]; unfold local_degree_bins;
    [rewrite (assert_off _ H) | rewrite (assert_holds _ H)]; reflexivity.
Qed.

End Assertions.

Section DegreeResults.
  Import Statistics.
  Context {B : Build}.

Lemma scan_inv_degree (p : list (Z * Z)) (s : degree_scan) :
  scan_inv p s -> 1 <= cur_degree s.
Proof.
  intros [_ (p0 & a & Hp & Ha) _ Hdeg _ _ _ _ _ _ _ _].
  rewrite Hdeg, Hp, outdeg_snoc, Ha, Z.eqb_refl.
  pose proof (outdeg_nonneg p0 (cur_from s)). lia.
Qed.

(** Whatever the order of the edges, the scan counts each of them
    once. *)
Lemma degree_sum (l : list (Z * Z)) : forall s : degree_scan,
  0 <= sum s -> 0 <= cur_degree s ->
  sum s + cur_degree s + Z.of_nat (length l) < SInt.modulus ->
  sum (fold_left degree_step l s) + cur_degree (fold_left degree_step l s)
  = sum s + cur_degree s + Z.of_nat (length l)
  /\ 0 <= sum (fold_left degree_step l s)
  /\ 0 <= cur_degree (fold_left degree_step l s).
Proof.
  induction l as [|[from to] l IH]; intros s Hs Hc Hfit.
  - cbn [fold_left length]. lia.
  - cbn [fold_left length] in *. rewrite Nat2Z.inj_succ in *.
    assert (Hstep : sum (degree_step s (from, to)) + cur_degree (degree_step s (from, to))
                    = sum s + cur_degree s + 1
                    /\ 0 <= sum (degree_step s (from, to))
                    /\ 0 <= cur_degree (degree_step s (from, to))).
    { unfold degree_step, update. destruct (from =? cur_from s);
        cbn [sum cur_degree]; unfold SInt.add; rewrite wrap_small by lia; lia. }
    destruct Hstep as (E & H1 & H2).
    destruct (IH (degree_step s (from, to)) H1 H2 ltac:(lia)) as (E' & H1' & H2').
    lia.
Qed.

Lemma local_degrees_sum (es : list (Z * Z)) :
  NDEBUG = true \/ is_sorted es = true ->
  es <> [] -> Z.of_nat (length es) < SInt.modulus ->
  exists mn mx, local_degrees es = Some (mn, Z.of_nat (length es), mx).
Proof.
  intros Hpass Hne Hlen. rewrite (local_degrees_passed es Hpass).
  destruct es as [|front es']; [congruence|].
  unfold scan_degrees. cbv zeta.
  set (s0 := mkDegreeScan (SInt.modulus - 1) 0 0 (fst front) 0).
  destruct (degree_sum (front :: es') s0) as (E & H1 & H2);
    cbn [sum cur_degree s0]; try lia.
  cbn [sum cur_degree s0] in E.
  eexists _, _. unfold update. cbn [min sum max]. f_equal. f_equal. f_equal.
  unfold SInt.add. rewrite wrap_small by lia. lia.
Qed.

Lemma ReduceSum_from (values : list Z) : forall acc,
  0 <= acc -> Forall (fun v => 0 <= v) values ->
  acc + fold_right Z.add 0 values < SInt.modulus ->
  fold_left SInt.add values acc = acc + fold_right Z.add 0 values.
Proof.
  induction values as [|v values IH]; intros acc Hacc Hv Hfit.
  - cbn [fold_left fold_right]. lia.
  - apply Forall_cons in Hv as [Hv0 Hv]. cbn [fold_left fold_right] in *.
    assert (Hrest : 0 <= fold_right Z.add 0 values).
    { clear -Hv. induction Hv; cbn [fold_right]; lia. }
    assert (E : SInt.add acc v = acc + v) by (apply wrap_small; lia).
    rewrite E, IH by (try assumption; lia). lia.
Qed.

Lemma all_local_degrees_sums (world : list (list (Z * Z))) :
  NDEBUG = true \/ Forall (fun es => is_sorted es = true) world ->
  Forall (fun es => es <> []) world ->
  Z.of_nat (length (concat world)) < SInt.modulus ->
  exists locals,
    all_local_degrees world = Some locals
    /\ map (fun l => snd (fst l)) locals
       = map (fun es => Z.of_nat (length es)) world.
Proof.
  induction world as [|es world IH]; intros Hpass Hne Hfit.
  - exists []. split; reflexivity.
  - apply Forall_cons in Hne as [Hne0 Hne].
    cbn [concat] in Hfit. rewrite length_app in Hfit.
    assert (Hpass0 : NDEBUG = true \/ is_sorted es = true).
    { destruct Hpass as [H|H]; [left; exact H|].
      right. apply Forall_cons in H as [H _]. exact H. }
    assert (Hpass' : NDEBUG = true
                     \/ Forall (fun es => is_sorted es = true) world).
    { destruct Hpass as [H|H]; [left; exact H|].
      right. apply Forall_cons in H as [_ H]. exact H. }
    destruct (local_degrees_sum es Hpass0 Hne0 ltac:(lia)) as (mn & mx & El).
    destruct (IH Hpass' Hne ltac:(lia)) as (locals & Ea & Em).
    exists ((mn, Z.of_nat (length es), mx) :: locals).
    cbn [all_local_degrees]. rewrite El, Ea. split; [reflexivity|].
    cbn [map fst snd]. rewrite Em. reflexivity.
Qed.

Lemma sum_of_lengths (world : list (list (Z * Z))) :
  fold_right Z.add 0 (map (fun es => Z.of_nat (length es)) world)
  = Z.of_nat (length (concat world)).
Proof.
  induction world as [|es world IH]; [reflexivity|].
  cbn [map fold_right concat]. rewrite IH, length_app. lia.
Qed.

End DegreeResults.

(** X16. The degree scan of [ReduceDegreeStatistics] on a participant:
    for a non-empty edge list that is sorted (as the function asserts),
    with fewer than [2^64] edges and sources that are 64-bit values, the
    sum is the number of edges, the maximum is the largest out-degree,
    which some vertex has, the minimum is at most the out-degree of
    every vertex that has an edge, and it is zero exactly when two
    consecutive sources skip a vertex.  A vertex without edges before
    the first source or after the last one does not make the minimum
    zero. *)
Theorem local_degrees_of_sorted {B : Build} (es : list (Z * Z))
    (Hsorted : is_sorted es = true)
    (Hne : es <> [])
    (Hids : Forall (fun e => 0 <= fst e < SInt.modulus) es)
    (Hlen : Z.of_nat (length es) < SInt.modulus) :
  exists mn sm mx,
    Statistics.local_degrees es = Some (mn, sm, mx)
    /\ sm = Z.of_nat (length es)
    /\ (forall v, outdeg es v <= mx)
    /\ (exists v, outdeg es v = mx)
    /\ (forall v, 1 <= outdeg es v -> mn <= outdeg es v)
    /\ (mn = 0 <-> has_gap es).
Proof.
  rewrite (local_degrees_passed es (or_intror Hsorted)).
  destruct es as [|front q]; [congruence|].
  apply is_sorted_Sorted in Hsorted.
  apply (@Sorted_StronglySorted _ tuple_le tuple_le_trans) in Hsorted.
  apply StronglySorted_inv in Hsorted as [Hsorted Hle].
  apply Forall_cons in Hids as [Hid Hids].
  unfold Statistics.scan_degrees. cbv zeta. cbn [fold_left].
  set (s1 := Statistics.degree_step _ front).
  assert (Hs1 : scan_inv [front] s1) by (apply scan_inv_first; lia).
  assert (Ecf : Statistics.cur_from s1 = fst front).
  { subst s1. destruct front as [from to]. unfold Statistics.degree_step.
    cbn [fst Statistics.cur_from]. rewrite Z.eqb_refl. reflexivity. }
  pose proof (scan_inv_all q [front] s1 Hs1) as Hall.
  cbn [app] in Hall.
  specialize (Hall ltac:(rewrite Ecf; eapply Forall_impl; [exact Hle|];
                          cbv beta; intros x Hx; apply tuple_le_spec in Hx; lia)
                   Hsorted
                   ltac:(eapply Forall_impl; [exact Hids|]; cbv beta; intros; lia)
                   Hlen).
  set (s := fold_left Statistics.degree_step q s1) in *.
  pose proof (scan_inv_degree _ _ Hall) as Hcd.
  destruct Hall as [Hf0 _ Hle' Hdeg Hsum Hsum0 Hub Hat Hmax0 Hlb Hmin0 Hgap].
  eexists _, _, _. split; [reflexivity|].
  unfold Statistics.update. cbn [Statistics.min Statistics.sum Statistics.max].
  assert (Hcases : forall v,
            v < Statistics.cur_from s
            \/ (v = Statistics.cur_from s
                /\ outdeg (front :: q) v = Statistics.cur_degree s)
            \/ (Statistics.cur_from s < v /\ outdeg (front :: q) v = 0)).
  { intros v. destruct (Z.lt_trichotomy v (Statistics.cur_from s)) as [H|[H|H]].
    - left. exact H.
    - right. left. subst v. split; [reflexivity | symmetry; exact Hdeg].
    - right. right. split; [exact H|].
      apply (outdeg_above _ (Statistics.cur_from s)); assumption. }
  split; [unfold SInt.add; rewrite Hsum; apply wrap_small; lia|].
  split.
  { intros v. destruct (Hcases v) as [H|[[_ H]|[_ H]]];
      [specialize (Hub v H)| |]; lia. }
  split.
  { destruct (Z.max_spec (Statistics.max s) (Statistics.cur_degree s))
      as [[Hlt ->]|[Hge ->]].
    - exists (Statistics.cur_from s). symmetry. exact Hdeg.
    - destruct Hat as [H0|(v & _ & Hm)]; [lia|]. exists v. exact Hm. }
  split.
  { intros v Hv. destruct (Hcases v) as [H|[[_ H]|[_ H]]];
      [specialize (Hlb v H Hv)| |]; lia. }
  rewrite <- Hgap. lia.
Qed.

(** The two builds. *)
Definition release_build : Build := {| NDEBUG := true |}.
Definition debug_build : Build := {| NDEBUG := false |}.

Lemma local_degrees_of_sorted_witness :
  exists mn sm mx,
    Statistics.local_degrees (B := debug_build) [(4, 5); (4, 9); (6, 4)]
    = Some (mn, sm, mx)
    /\ sm = 3 /\ mx = 2 /\ mn = 0.
Proof.
  assert (Hsorted : is_sorted [(4, 5); (4, 9); (6, 4)] = true) by reflexivity.
  assert (Hne : [(4, 5); (4, 9); (6, 4)] <> []) by discriminate.
  assert (Hids : Forall (fun e : Z * Z => 0 <= fst e < SInt.modulus)
                   [(4, 5); (4, 9); (6, 4)]).
  { repeat (apply List.Forall_cons;
            [cbn [fst]; unfold SInt.modulus; lia|]). apply List.Forall_nil. }
  assert (Hlen : Z.of_nat (length [(4, 5); (4, 9); (6, 4)]) < SInt.modulus)
    by (vm_compute; reflexivity).
  destruct (local_degrees_of_sorted (B := debug_build) _ Hsorted Hne Hids Hlen)
    as (mn & sm & mx & E & Hsm & _).
  vm_compute in E. injection E as <- <- <-.
  exists 0, 3, 2. repeat split.
Defined.

(** X17. [ReduceDegreeStatistics] over all participants.  When every edge
    list passes the assertion (it is sorted, or the build has [NDEBUG]),
    every participant has an edge and there are fewer than [2^64] edges
    in all, the mean reported on the root is the quotient of the total
    number of edges by [global_num_nodes].  A participant with an empty
    edge list makes the function read the front of an empty vector, which
    is undefined; and in a build with assertions, an edge list that is
    not sorted aborts the program. *)
Theorem ReduceDegreeStatistics_mean
    {LPFloat : Type} {F : FloatDivision LPFloat} {B : Build}
    (world : list (list (Z * Z))) (global_num_nodes : Z) :
  (NDEBUG = true \/ Forall (fun es => is_sorted es = true) world ->
   Forall (fun es => es <> []) world ->
   Z.of_nat (length (concat world)) < SInt.modulus ->
   exists ds,
     Statistics.ReduceDegreeStatistics world global_num_nodes = Some ds
     /\ Statistics.mean_degree ds
        = fdiv (Z.of_nat (length (concat world))) global_num_nodes)
  /\ (In [] world ->
      Statistics.ReduceDegreeStatistics world global_num_nodes = None)
  /\ (NDEBUG = false ->
      Exists (fun es => is_sorted es = false) world ->
      Statistics.ReduceDegreeStatistics world global_num_nodes = None).
Proof.
  split; [|split].
  - intros Hpass Hne Hfit.
    destruct (all_local_degrees_sums world Hpass Hne Hfit) as (locals & Ea & Em).
    unfold Statistics.ReduceDegreeStatistics. rewrite Ea. cbv zeta.
    eexists. split; [reflexivity|]. cbn [Statistics.mean_degree].
    f_equal. unfold Statistics.ReduceSum. rewrite Em.
    rewrite ReduceSum_from.
    + rewrite sum_of_lengths. lia.
    + lia.
    + apply List.Forall_forall. intros v Hv. apply in_map_iff in Hv as (es & <- & _). lia.
    + rewrite sum_of_lengths. lia.
  - intros Hin. unfold Statistics.ReduceDegreeStatistics.
    assert (E : Statistics.all_local_degrees world = None).
    { induction world as [|es world IH]; [destruct Hin|].
      cbn [Statistics.all_local_degrees].
      destruct Hin as [->|Hin].
      - unfold Statistics.local_degrees.
        destruct (Statistics.assert_ (is_sorted [])); reflexivity.
      - rewrite (IH Hin). destruct (Statistics.local_degrees es); reflexivity. }
    rewrite E. reflexivity.
  - intros Hdebug Hex. unfold Statistics.ReduceDegreeStatistics.
    assert (E : Statistics.all_local_degrees world = None).
    { induction Hex as [es world Hes|es world Hex IH];
        cbn [Statistics.all_local_degrees].
      - unfold Statistics.local_degrees.
        rewrite (assert_fails _ Hdebug Hes). reflexivity.
      - rewrite IH. destruct (Statistics.local_degrees es); reflexivity. }
    rewrite E. reflexivity.
Qed.

(** A quotient kept as the pair of its operands. *)
Definition symbolic_quotient : FloatDivision (Z * Z) :=
  {| fdiv := fun a b => (a, b) |}.

(** Two participants with sorted lists, in a build with assertions. *)
Lemma ReduceDegreeStatistics_mean_witness :
  exists ds,
    Statistics.ReduceDegreeStatistics (F := symbolic_quotient) (B := debug_build)
      [[(0, 1)]; [(1, 2); (2, 0)]] 3 = Some ds
    /\ Statistics.mean_degree ds = (3, 3).
Proof.
  assert (Hpass : NDEBUG (Build := debug_build) = true
                  \/ Forall (fun es : list (Z * Z) => is_sorted es = true)
                       [[(0, 1)]; [(1, 2); (2, 0)]]).
  { right. repeat (apply List.Forall_cons; [reflexivity|]). apply List.Forall_nil. }
  assert (Hne : Forall (fun es : list (Z * Z) => es <> [])
                  [[(0, 1)]; [(1, 2); (2, 0)]]).
  { repeat (apply List.Forall_cons; [discriminate|]). apply List.Forall_nil. }
  assert (Hfit : Z.of_nat (length (concat [[(0, 1)]; [(1, 2); (2, 0)]]))
                 < SInt.modulus) by (vm_compute; reflexivity).
  exact (proj1 (ReduceDegreeStatistics_mean (F := symbolic_quotient) (B := debug_build)
                  [[(0, 1)]; [(1, 2); (2, 0)]] 3) Hpass Hne Hfit).
Defined.

(** ** The degree bins *)

(** The bin of a vertex: bin 0 without edges, else the one [yield]
    computes from its out-degree. *)
Definition degree_bin {L : Logarithm} (es : list (Z * Z)) (v : Z) : Z :=
  if outdeg es v =? 0 then 0 else log2_bin (outdeg es v).

(** How many vertices of [[lo, hi)] fall into bin [b]. *)
Definition vertices_in_bin {L : Logarithm} (es : list (Z * Z)) (lo hi b : Z) : Z :=
  Z.of_nat (length (List.filter (fun v => degree_bin es v =? b)
                                (Grid3D.loop_range lo hi))).

Section DegreeBins.
  Import Statistics.
  Context {L : Logarithm}.

Lemma increment_length (bs : list Z) (i : Z) : length (increment bs i) = length bs.
Proof. unfold increment. apply length_alter. Qed.

Lemma increment_lookup (bs : list Z) (i c : Z) (j : Z) :
  0 <= i -> 0 <= j -> bs !! Z.to_nat i = Some c ->
  increment bs i !! Z.to_nat j
  = if j =? i then Some (SInt.add c 1) else bs !! Z.to_nat j.
Proof.
  intros Hi Hj Hc. unfold increment. destruct (Z.eqb_spec j i) as [->|Hne].
  - rewrite list_lookup_alter_eq, Hc. reflexivity.
  - apply list_lookup_alter_ne. lia.
Qed.

Lemma count_skipped_length (n : nat) : forall bs,
  length (count_skipped n bs) = length bs.
Proof.
  induction n as [|n IH]; intros bs; [reflexivity|].
  cbn [count_skipped]. rewrite IH. apply increment_length.
Qed.

Lemma count_skipped_lookup (n : nat) : forall (bs : list Z) (c j : Z),
  0 <= j -> bs !! 0%nat = Some c -> 0 <= c -> c + Z.of_nat n < SInt.modulus ->
  count_skipped n bs !! Z.to_nat j
  = if j =? 0 then Some (c + Z.of_nat n) else bs !! Z.to_nat j.
Proof.
  induction n as [|n IH]; intros bs c j Hj Hc Hc0 Hfit.
  - cbn [count_skipped]. destruct (Z.eqb_spec j 0) as [->|]; [|reflexivity].
    change (Z.to_nat 0) with 0%nat. rewrite Hc. f_equal. lia.
  - cbn [count_skipped].
    assert (Hinc : increment bs 0 !! 0%nat = Some (c + 1)).
    { change 0%nat with (Z.to_nat 0).
      rewrite (increment_lookup bs 0 c 0) by (try lia; exact Hc).
      rewrite Z.eqb_refl. f_equal. apply wrap_small. lia. }
    rewrite (IH (increment bs 0) (c + 1) j Hj Hinc) by lia.
    destruct (Z.eqb_spec j 0) as [->|Hne]; [f_equal; lia|].
    rewrite (increment_lookup bs 0 c j) by (try lia; exact Hc).
    destruct (Z.eqb_spec j 0); [lia | reflexivity].
Qed.

Lemma vertices_in_bin_split (es : list (Z * Z)) (lo mid hi b : Z) :
  lo <= mid -> mid <= hi ->
  vertices_in_bin es lo hi b
  = vertices_in_bin es lo mid b + vertices_in_bin es mid hi b.
Proof.
  intros H1 H2. unfold vertices_in_bin.
  rewrite (loop_range_app lo mid hi H1 H2), List.filter_app, length_app. lia.
Qed.

Lemma vertices_in_bin_ext (es es' : list (Z * Z)) (lo hi b : Z) :
  (forall v, lo <= v < hi -> outdeg es v = outdeg es' v) ->
  vertices_in_bin es lo hi b = vertices_in_bin es' lo hi b.
Proof.
  intros H. unfold vertices_in_bin. f_equal. f_equal.
  apply List.filter_ext_in. intros v Hv. apply In_loop_range in Hv.
  unfold degree_bin. rewrite (H v Hv). reflexivity.
Qed.

Lemma vertices_in_bin_bounds (es : list (Z * Z)) (lo hi b : Z) :
  lo <= hi -> 0 <= vertices_in_bin es lo hi b <= hi - lo.
Proof.
  intros H. unfold vertices_in_bin.
  pose proof (List.filter_length_le (fun v => degree_bin es v =? b)
                (Grid3D.loop_range lo hi)) as Hle.
  pose proof (loop_range_length lo hi H). lia.
Qed.

Lemma vertices_in_bin_one (es : list (Z * Z)) (v b : Z) :
  vertices_in_bin es v (v + 1) b = if degree_bin es v =? b then 1 else 0.
Proof.
  unfold vertices_in_bin. rewrite loop_range_one. cbn [List.filter].
  destruct (degree_bin es v =? b); reflexivity.
Qed.

Lemma vertices_in_bin_isolated (es : list (Z * Z)) (lo hi b : Z) :
  lo <= hi -> (forall v, lo <= v < hi -> outdeg es v = 0) ->
  vertices_in_bin es lo hi b = if b =? 0 then hi - lo else 0.
Proof.
  intros Hle H. unfold vertices_in_bin.
  assert (E : List.filter (fun v => degree_bin es v =? b) (Grid3D.loop_range lo hi)
              = if b =? 0 then Grid3D.loop_range lo hi else []).
  { assert (Hall : forall v, In v (Grid3D.loop_range lo hi) -> degree_bin es v = 0).
    { intros v Hv. apply In_loop_range in Hv. unfold degree_bin.
      rewrite (H v Hv). reflexivity. }
    induction (Grid3D.loop_range lo hi) as [|v l IH].
    - destruct (b =? 0); reflexivity.
    - cbn [List.filter]. rewrite (Hall v) by (left; reflexivity).
      rewrite IH by (intros w Hw; apply Hall; right; exact Hw).
      rewrite (Z.eqb_sym 0 b). destruct (b =? 0); reflexivity. }
  rewrite E. destruct (b =? 0); [apply loop_range_length, Hle | reflexivity].
Qed.


Variable fs : Z.
Variable limit : Z.
Hypothesis Hlog : forall deg, 1 <= deg <= limit -> 1 <= log2_bin deg < 64.

(** The state of the scan after a non-empty sorted prefix [p] whose
    first source is [fs]. *)
Record bin_inv (p : list (Z * Z)) (s : bin_scan) : Prop := mkBinInv {
  b_from : 0 <= fs <= bin_from s;
  b_last : exists p0 a, p = p0 ++ [a] /\ fst a = bin_from s;
  b_le : Forall (fun e => fst e <= bin_from s) p;
  b_deg : bin_degree s = outdeg p (bin_from s);
  b_len : length (bins s) = 64%nat;
  b_bins : forall b, 0 <= b < 64 ->
             bins s !! Z.to_nat b = Some (vertices_in_bin p fs (bin_from s) b)
}.

Lemma bin_inv_degree (p : list (Z * Z)) (s : bin_scan) :
  bin_inv p s -> 1 <= bin_degree s <= Z.of_nat (length p).
Proof.
  intros [_ (p0 & a & Hp & Ha) _ Hdeg _ _]. split.
  - rewrite Hdeg, Hp, outdeg_snoc, Ha, Z.eqb_refl.
    pose proof (outdeg_nonneg p0 (bin_from s)). lia.
  - rewrite Hdeg. apply outdeg_le_length.
Qed.

(** Closing the run of the current source and skipping to [bound]. *)
Lemma close_run (p : list (Z * Z)) (s : bin_scan) (bound : Z) :
  bin_inv p s ->
  bin_from s < bound -> bound < SInt.modulus ->
  Z.of_nat (length p) <= limit ->
  exists bins1 bins2,
    yield (bins s) (bin_degree s) = Some bins1
    /\ skip_to bins1 (bin_from s) bound = (bins2, bound)
    /\ length bins2 = 64%nat
    /\ forall b, 0 <= b < 64 ->
         bins2 !! Z.to_nat b = Some (vertices_in_bin p fs bound b).
Proof.
  intros Hinv Hb Hmod Hlim.
  pose proof (bin_inv_degree p s Hinv) as Hcd.
  destruct Hinv as [Hf _ Hle Hdeg Hlen Hbins].
  pose proof (Hlog (bin_degree s) ltac:(lia)) as Hbin.
  set (cf := bin_from s) in *. set (bin := log2_bin (bin_degree s)) in *.
  assert (Hdb : degree_bin p cf = bin).
  { unfold degree_bin. rewrite <- Hdeg.
    destruct (Z.eqb_spec (bin_degree s) 0); [lia | reflexivity]. }
  assert (Hsplit : forall b,
            vertices_in_bin p fs bound b
            = vertices_in_bin p fs cf b + (if bin =? b then 1 else 0)
              + (if b =? 0 then bound - (cf + 1) else 0)).
  { intros b.
    rewrite (vertices_in_bin_split p fs cf bound b) by lia.
    rewrite (vertices_in_bin_split p cf (cf + 1) bound b) by lia.
    rewrite vertices_in_bin_one, Hdb.
    rewrite (vertices_in_bin_isolated p (cf + 1) bound b) by
      first [ lia
            | intros v Hv; apply (outdeg_above p cf); [exact Hle | lia] ].
    lia. }
  pose proof (fun b => vertices_in_bin_bounds p fs cf b ltac:(lia)) as Hvb.
  exists (increment (bins s) bin),
         (count_skipped (Z.to_nat (bound - (cf + 1))) (increment (bins s) bin)).
  split.
  { unfold yield. fold bin. cbv zeta. rewrite Hlen.
    destruct (Z.ltb_spec bin (Z.of_nat 64)) as [_|Hge]; [reflexivity | lia]. }
  split.
  { unfold skip_to. cbv zeta.
    assert (E : SInt.add cf 1 = cf + 1) by (apply wrap_small; lia).
    rewrite E. f_equal. lia. }
  split; [rewrite count_skipped_length, increment_length; exact Hlen|].
  intros b Hb64.
  assert (Hinc : forall j, 0 <= j < 64 ->
            increment (bins s) bin !! Z.to_nat j
            = Some (vertices_in_bin p fs cf j + (if bin =? j then 1 else 0))).
  { intros j Hj.
    rewrite (increment_lookup (bins s) bin _ j ltac:(lia) ltac:(lia)
               (Hbins bin ltac:(lia))).
    rewrite (Z.eqb_sym j bin).
    destruct (Z.eqb_spec bin j) as [->|Hne].
    - f_equal. apply wrap_small. specialize (Hvb j). lia.
    - rewrite (Hbins j Hj). f_equal. lia. }
  pose proof (Hinc 0 ltac:(lia)) as H0. change (Z.to_nat 0) with 0%nat in H0.
  destruct (Z.eqb_spec bin 0) as [Hz|_]; [lia|]. rewrite Z.add_0_r in H0.
  rewrite (count_skipped_lookup _ _ _ b ltac:(lia) H0)
    by (specialize (Hvb 0); lia).
  rewrite (Hsplit b).
  destruct (Z.eqb_spec b 0) as [->|Hne].
  - destruct (Z.eqb_spec bin 0); [lia|]. f_equal. lia.
  - rewrite (Hinc b Hb64). f_equal. lia.
Qed.

Lemma bin_inv_step (p : list (Z * Z)) (s : bin_scan) (e : Z * Z) :
  bin_inv p s ->
  bin_from s <= fst e < SInt.modulus ->
  Z.of_nat (length p) + 1 < SInt.modulus ->
  Z.of_nat (length p) <= limit ->
  exists s', bin_step (Some s) e = Some s' /\ bin_inv (p ++ [e]) s'.
Proof.
  intros Hinv He Hfit Hlim.
  pose proof (bin_inv_degree p s Hinv) as Hcd.
  destruct e as [from to]. cbn [fst] in He. unfold bin_step.
  destruct (Z.eqb_spec from (bin_from s)) as [->|Hne].
  - (* the same source again *)
    destruct Hinv as [Hf _ Hle Hdeg Hlen Hbins].
    eexists. split; [reflexivity|].
    constructor; cbn [bins bin_from bin_degree].
    + exact Hf.
    + exists p, (bin_from s, to). split; reflexivity.
    + apply Forall_app. split; [exact Hle|].
      constructor; [cbn [fst]; lia | constructor].
    + rewrite outdeg_snoc. cbn [fst]. rewrite Z.eqb_refl, <- Hdeg.
      apply wrap_small. lia.
    + exact Hlen.
    + intros b Hb. rewrite (Hbins b Hb). f_equal.
      apply vertices_in_bin_ext. intros v Hv. rewrite outdeg_snoc. cbn [fst].
      destruct (Z.eqb_spec (bin_from s) v); lia.
  - (* a later source *)
    destruct (close_run p s from Hinv ltac:(lia) ltac:(lia) Hlim)
      as (bins1 & bins2 & Hy & Hsk & Hlen2 & Hb2).
    rewrite Hy, Hsk. eexists. split; [reflexivity|].
    destruct Hinv as [Hf _ Hle Hdeg Hlen Hbins].
    constructor; cbn [bins bin_from bin_degree].
    + lia.
    + exists p, (from, to). split; reflexivity.
    + apply Forall_app. split.
      * eapply Forall_impl; [exact Hle|]. cbv beta. intros x Hx. lia.
      * constructor; [cbn [fst]; lia | constructor].
    + rewrite outdeg_snoc. cbn [fst]. rewrite Z.eqb_refl.
      rewrite (outdeg_above p (bin_from s)) by (assumption || lia). reflexivity.
    + exact Hlen2.
    + intros b Hb. rewrite (Hb2 b Hb). f_equal.
      apply vertices_in_bin_ext. intros v Hv. rewrite outdeg_snoc. cbn [fst].
      destruct (Z.eqb_spec from v); lia.
Qed.

Lemma bin_inv_all (q : list (Z * Z)) : forall (p : list (Z * Z)) (s : bin_scan),
  bin_inv p s ->
  Forall (fun e => bin_from s <= fst e) q ->
  StronglySorted tuple_le q ->
  Forall (fun e => fst e < SInt.modulus) q ->
  Z.of_nat (length (p ++ q)) < SInt.modulus ->
  Z.of_nat (length (p ++ q)) <= limit ->
  exists s', fold_left bin_step q (Some s) = Some s' /\ bin_inv (p ++ q) s'.
Proof.
  induction q as [|e q IH]; intros p s Hs Hge Hsorted Hids Hfit Hlim.
  - exists s. rewrite app_nil_r. split; [reflexivity | exact Hs].
  - apply StronglySorted_inv in Hsorted as [Hsorted Hle].
    apply Forall_cons in Hge as [Hge0 Hge]. apply Forall_cons in Hids as [Hid Hids].
    rewrite length_app in Hfit, Hlim. cbn [length] in Hfit, Hlim.
    destruct (bin_inv_step p s e Hs ltac:(lia) ltac:(lia) ltac:(lia))
      as (s1 & Hstep & Hs1).
    cbn [fold_left]. rewrite Hstep.
    replace (p ++ e :: q) with ((p ++ [e]) ++ q) by (rewrite <- app_assoc; reflexivity).
    apply IH.
    + exact Hs1.
    + destruct Hs1 as [_ (p0 & a & Hp & Ha) _ _ _ _].
      apply app_inj_tail in Hp as [_ <-]. rewrite <- Ha.
      eapply Forall_impl; [exact Hle|]. cbv beta. intros x Hx.
      apply tuple_le_spec in Hx. lia.
    + exact Hsorted.
    + exact Hids.
    + rewrite !length_app. cbn [length]. lia.
    + rewrite !length_app. cbn [length]. lia.
Qed.

End DegreeBins.

Section DegreeBinsResult.
  Import Statistics.
  Context {L : Logarithm}.

Lemma bin_inv_first (front : Z * Z) :
  0 <= fst front ->
  bin_inv (fst front) [front] (mkBinScan (replicate 64 0) (fst front) 1).
Proof.
  intros H0. constructor; cbn [bins bin_from bin_degree].
  - lia.
  - exists [], front. split; reflexivity.
  - constructor; [lia | constructor].
  - unfold outdeg. cbn [List.filter]. rewrite Z.eqb_refl. reflexivity.
  - apply length_replicate.
  - intros b Hb. rewrite lookup_replicate_2 by lia. f_equal.
    unfold vertices_in_bin, Grid3D.loop_range. rewrite Z.sub_diag. reflexivity.
Qed.

Lemma zip_with_add_zeros (bs : list Z) :
  length bs = 64%nat -> Forall (fun c => 0 <= c < SInt.modulus) bs ->
  zip_with SInt.add bs (replicate 64 0) = bs.
Proof.
  intros Hlen Hr. rewrite <- Hlen. clear Hlen.
  induction Hr as [|c bs Hc Hr IH]; [reflexivity|].
  cbn [length replicate zip_with]. rewrite IH. f_equal.
  unfold SInt.add. rewrite Z.add_0_r. apply wrap_small. exact Hc.
Qed.

End DegreeBinsResult.

(** X19. The degree bins of a participant, [ComputeDegreeBins] before the
    reduction: for a non-empty sorted edge list whose sources are below
    [second], with every out-degree sent by [yield] to a bin in
    [[1, 64)], entry [b] of the result is the number of vertices between
    the first source and [second] whose bin is [b], a vertex without
    edges falling into bin 0.  The vertices of the range that come before
    the first source are not counted at all.  With a single participant
    the reduction returns this vector. *)
Theorem local_degree_bins_of_sorted {L : Logarithm} {B : Build}
    (front : Z * Z) (rest : list (Z * Z)) (first second : Z)
    (Hsorted : is_sorted (front :: rest) = true)
    (Hids : Forall (fun e => 0 <= fst e < second) (front :: rest))
    (Hsecond : second < SInt.modulus)
    (Hlen : Z.of_nat (length (front :: rest)) < SInt.modulus)
    (Hlog : forall deg, 1 <= deg <= Z.of_nat (length (front :: rest)) ->
              1 <= log2_bin deg < 64) :
  exists bins,
    Statistics.local_degree_bins (front :: rest) (first, second) = Some bins
    /\ length bins = 64%nat
    /\ (forall b, 0 <= b < 64 ->
          bins !! Z.to_nat b
          = Some (vertices_in_bin (front :: rest) (fst front) second b))
    /\ Statistics.ComputeDegreeBins [(front :: rest, (first, second))] = Some bins.
Proof.
  pose proof (local_degree_bins_passed (front :: rest) (first, second)
                (or_intror Hsorted)) as Hpassed.
  apply is_sorted_Sorted in Hsorted.
  apply (@Sorted_StronglySorted _ tuple_le tuple_le_trans) in Hsorted.
  apply StronglySorted_inv in Hsorted as [Hsorted Hle].
  pose proof Hids as Hids0. apply Forall_cons in Hids0 as [Hid Hids'].
  set (limit := Z.of_nat (length (front :: rest))) in *.
  assert (Hstart : Statistics.bin_step
                     (Some (Statistics.mkBinScan (replicate 64 0) (fst front) 0)) front
                   = Some (Statistics.mkBinScan (replicate 64 0) (fst front) 1)).
  { destruct front as [from to]. unfold Statistics.bin_step.
    cbn [fst Statistics.bin_from Statistics.bins Statistics.bin_degree].
    rewrite Z.eqb_refl. reflexivity. }
  destruct (bin_inv_all (fst front) limit Hlog rest [front] _
              (bin_inv_first front ltac:(lia)))
    as (s & Hfold & Hinv).
  { cbn [Statistics.bin_from]. eapply Forall_impl; [exact Hle|]. cbv beta.
    intros x Hx. apply tuple_le_spec in Hx. lia. }
  { exact Hsorted. }
  { eapply Forall_impl; [exact Hids'|]. cbv beta. intros x Hx. lia. }
  { exact Hlen. }
  { cbn [app]. subst limit. lia. }
  cbn [app] in Hinv.
  assert (Hcf : Statistics.bin_from s < second).
  { destruct Hinv as [_ (p0 & a & Hp & Ha) _ _ _ _].
    rewrite List.Forall_forall in Hids.
    assert (Hin : In a (front :: rest))
      by (rewrite Hp; apply in_or_app; right; left; reflexivity).
    specialize (Hids a Hin). lia. }
  destruct (close_run (fst front) limit Hlog (front :: rest) s second Hinv Hcf Hsecond
              ltac:(subst limit; lia))
    as (bins1 & bins2 & Hy & Hsk & Hlen2 & Hb2).
  assert (Hlocal : Statistics.local_degree_bins (front :: rest) (first, second)
                   = Some bins2).
  { rewrite Hpassed. unfold Statistics.scan_bins. cbn [fold_left snd].
    rewrite Hstart, Hfold, Hy, Hsk. reflexivity. }
  exists bins2. split; [exact Hlocal|]. split; [exact Hlen2|]. split; [exact Hb2|].
  cbn [Statistics.ComputeDegreeBins fst snd]. rewrite Hlocal.
  rewrite zip_with_add_zeros; [reflexivity | exact Hlen2|].
  apply List.Forall_forall. intros c Hc.
  apply list_elem_of_In, list_elem_of_lookup_1 in Hc as [i Hi].
  pose proof (lookup_lt_Some _ _ _ Hi) as Hi64. rewrite Hlen2 in Hi64.
  specialize (Hb2 (Z.of_nat i) ltac:(lia)). rewrite Nat2Z.id, Hi in Hb2.
  injection Hb2 as ->.
  destruct Hinv as [Hf _ _ _ _ _].
  pose proof (vertices_in_bin_bounds (front :: rest) (fst front) second
                (Z.of_nat i) ltac:(lia)).
  lia.
Qed.

(** The binary logarithm rounded down, plus one. *)
Definition integer_log2 : Logarithm :=
  {| log2_bin := fun deg => Z.log2 deg + 1 |}.

Lemma local_degree_bins_of_sorted_witness :
  exists bins,
    Statistics.local_degree_bins (L := integer_log2) (B := debug_build)
      [(5, 4); (5, 9); (8, 5)] (4, 10) = Some bins
    /\ bins !! 0%nat = Some 3 /\ bins !! 1%nat = Some 1 /\ bins !! 2%nat = Some 1.
Proof.
  assert (Hsorted : is_sorted [(5, 4); (5, 9); (8, 5)] = true) by reflexivity.
  assert (Hids : Forall (fun e : Z * Z => 0 <= fst e < 10) [(5, 4); (5, 9); (8, 5)]).
  { repeat (apply List.Forall_cons; [cbn [fst]; lia|]). apply List.Forall_nil. }
  assert (Hsecond : 10 < SInt.modulus) by (vm_compute; reflexivity).
  assert (Hlen : Z.of_nat (length [(5, 4); (5, 9); (8, 5)]) < SInt.modulus)
    by (vm_compute; reflexivity).
  assert (Hlog : forall deg, 1 <= deg <= Z.of_nat (length [(5, 4); (5, 9); (8, 5)]) ->
                   1 <= log2_bin (Logarithm := integer_log2) deg < 64).
  { intros deg Hdeg. cbn [length] in Hdeg.
    assert (Hcases : deg = 1 \/ deg = 2 \/ deg = 3) by lia.
    destruct Hcases as [-> | [-> | ->]]; vm_compute; split; congruence. }
  destruct (local_degree_bins_of_sorted (L := integer_log2) (B := debug_build)
              (5, 4) [(5, 9); (8, 5)] 4 10 Hsorted Hids Hsecond Hlen Hlog)
    as (bins & Hb & _ & _ & _).
  exists bins. split; [exact Hb|].
  vm_compute in Hb. injection Hb as <-. repeat split.
Defined.

(** * The generator interface ([interface/kagen_interface.h]) *)

Module Interface.

(** The members of [class KaGen]. *)
Record KaGen (LPFloat : Type) : Type := mkKaGen {
  rank_ : Z;
  size_ : Z;
  config_ : PGeneratorConfig LPFloat
}.

Arguments mkKaGen {LPFloat}.
Arguments rank_ {LPFloat}.
Arguments size_ {LPFloat}.
Arguments config_ {LPFloat}.

Section Calls.
  Context {LPFloat : Type} {R : Randomness LPFloat} {C : CubeRoot} {M : Memory}.
  Variable OUTPUT_EDGES : bool.

(** The assignments at the head of [Generate3DGrid]:
    [config_.grid_x = grid_x; ... config_.k = (k == 0 ? config_.k : k);
     config_.seed = seed;] *)
Definition updated_config (kagen : KaGen LPFloat)
    (grid_x grid_y grid_z : Z) (p : LPFloat) (periodic : bool) (k seed : Z)
  : PGeneratorConfig LPFloat :=
  mkConfig (cfg_n (config_ kagen)) p
           (if k =? 0 then cfg_k (config_ kagen) else k) seed
           grid_x grid_y grid_z periodic
           (cfg_self_loops (config_ kagen)) (cfg_dist_size (config_ kagen)).

(** [Generate3DGrid(grid_x, grid_y, grid_z, p, periodic, k, seed, output)]
    on the participant [rank] of [size] in [MPI_COMM_WORLD]: the returned
    list, and the object afterwards ([Generate()] writes [config_.n]
    through its reference to the configuration).  The callback appends
    each edge; [edges.insert(begin(edges), gen.GetVertexRange())] then
    puts the vertex range in front. *)
Definition Generate3DGrid (kagen : KaGen LPFloat) (rank size : Z)
    (grid_x grid_y grid_z : Z) (p : LPFloat) (periodic : bool) (k seed : Z)
  : option (list (Z * Z) * KaGen LPFloat) :=
  let config := updated_config kagen grid_x grid_y grid_z p periodic k seed in
  match Grid3D.construct config with
  | Grid3D.Constructed _ gen =>
      match Grid3D.Generate OUTPUT_EDGES gen rank size with
      | Some (g, out) =>
          let config' :=
            mkConfig (Grid3D.config_n g) (cfg_p config) (cfg_k config)
                     (cfg_seed config) (cfg_grid_x config) (cfg_grid_y config)
                     (cfg_grid_z config) (cfg_periodic config)
                     (cfg_self_loops config) (cfg_dist_size config) in
          Some (Grid3D.GetVertexRange g :: Grid3D.emitted out,
                mkKaGen (rank_ kagen) (size_ kagen) config')
      | None => None
      end
  | Grid3D.Fatal _ => None
  end.

End Calls.

End Interface.

Lemma Generate_of_Init {LPFloat : Type} {R : Randomness LPFloat} {C : CubeRoot}
    (OUTPUT_EDGES : bool) (gen : Grid3D.unstarted) (rank size : Z)
    (g : Grid3D.t LPFloat) :
  Grid3D.Init (Grid3D.config_ gen) rank size = Some g ->
  exists out, Grid3D.Generate OUTPUT_EDGES gen rank size = Some (g, out).
Proof.
  intros Hinit. unfold Grid3D.Generate. rewrite Hinit.
  destruct (Grid3D.owned_chunks (cfg_k (Grid3D.config_ gen)) rank size)
    as [[num start] end_].
  eexists. reflexivity.
Qed.

Lemma run_results
    {LPFloat : Type} {R : Randomness LPFloat} {C : CubeRoot} {M : Memory}
    (OUTPUT_EDGES : bool) (config : PGeneratorConfig LPFloat) (rank size : Z) g out :
  resizable (cfg_dist_size config) = true ->
  Grid3D.Generate OUTPUT_EDGES
    (Grid3D.mkUnstarted config (GeneratorIO.create (cfg_dist_size config)))
    rank size = Some (g, out) ->
  Grid3D.vertex_range_of OUTPUT_EDGES config rank size = Some (Grid3D.GetVertexRange g)
  /\ Grid3D.emitted_by OUTPUT_EDGES config rank size = Grid3D.emitted out.
Proof.
  intros Halloc Hrun. unfold Grid3D.vertex_range_of, Grid3D.emitted_by.
  rewrite (construct_resizable config Halloc), Hrun. split; reflexivity.
Qed.

Lemma run_of_valid {LPFloat : Type} {R : Randomness LPFloat} {C : CubeRoot}
    (OUTPUT_EDGES : bool) (config : PGeneratorConfig LPFloat) (rank size d : Z) :
  valid_grid config d ->
  cfg_grid_x config * cfg_grid_y config * cfg_grid_z config < 2 ^ 63 ->
  exists g out,
    Grid3D.Generate OUTPUT_EDGES
      (Grid3D.mkUnstarted config (GeneratorIO.create (cfg_dist_size config)))
      rank size = Some (g, out)
    /\ Grid3D.config_n g
       = cfg_grid_x config * cfg_grid_y config * cfg_grid_z config.
Proof.
  intros Hvalid Hfit63.
  destruct (Init_valid config rank size d Hvalid) as (g & Hinit & _ & Hg).
  destruct (Generate_of_Init OUTPUT_EDGES
              (Grid3D.mkUnstarted config (GeneratorIO.create (cfg_dist_size config)))
              rank size g Hinit) as (out & Hrun).
  exists g, out. split; [exact Hrun|].
  rewrite (init_n _ _ _ _ _ Hg). apply wrap_small.
  destruct Hvalid as [_ _ _ _ Hx Hy Hz].
  assert (0 <= cfg_grid_x config * cfg_grid_y config)
    by (apply Z.mul_nonneg_nonneg; lia).
  assert (0 <= cfg_grid_x config * cfg_grid_y config * cfg_grid_z config)
    by (apply Z.mul_nonneg_nonneg; lia).
  unfold SInt.modulus. lia.
Qed.

Lemma run_ranges
    {LPFloat : Type} {R : Randomness LPFloat} {C : CubeRoot} {M : Memory}
    (OUTPUT_EDGES : bool) (config : PGeneratorConfig LPFloat) (rank size d : Z) g out :
  valid_grid config d ->
  cfg_grid_x config * cfg_grid_y config * cfg_grid_z config < 2 ^ 63 ->
  1 <= size -> 0 <= rank < size ->
  resizable (cfg_dist_size config) = true ->
  Grid3D.Generate OUTPUT_EDGES
    (Grid3D.mkUnstarted config (GeneratorIO.create (cfg_dist_size config)))
    rank size = Some (g, out) ->
  Grid3D.GetVertexRange g
  = (first_vertex config size d rank, first_vertex config size d (rank + 1) - 1)
  /\ forall u v, In (u, v) (Grid3D.emitted out) ->
       first_vertex config size d rank <= u
         <= first_vertex config size d (rank + 1) - 1.
Proof.
  intros Hvalid Hfit63 Hsize Hrank Halloc Hrun.
  assert (Hfit : cfg_grid_x config * cfg_grid_y config * cfg_grid_z config
                 < SInt.modulus) by (unfold SInt.modulus; lia).
  destruct (run_results OUTPUT_EDGES config rank size g out Halloc Hrun) as [Hv He].
  split.
  - pose proof (vertex_range_exact OUTPUT_EDGES config size d Hvalid Hfit Hsize
                  Halloc rank Hrank) as Hrng.
    rewrite Hv in Hrng. apply (inj Some) in Hrng. exact Hrng.
  - intros u v Hin. rewrite <- He in Hin.
    apply (emitted_source_range OUTPUT_EDGES config rank size d
             Hvalid Hfit63 Hsize Hrank u v Hin).
Qed.

(** X18. [Generate3DGrid] on participant [rank] of [P], for an effective
    chunk count ([k], or the one the object had when [k = 0]) that is a
    cube [d^3] on which [chunks_per_dim_] comes out as [d], dimensions
    [X, Y, Z >= 1] with [X*Y*Z < 2^63], and a sink that can be allocated.
    The list returned is not a plain edge list: its first element is the
    vertex range [(first, last)] that [GetVertexRange()] reports, and the
    elements after it are the edges handed to the callback, in order, each
    of which starts inside this range.  The object afterwards holds the
    arguments as its configuration, with the effective chunk count and
    with [n] overwritten by [X*Y*Z]. *)
Theorem Generate3DGrid_result
    {LPFloat : Type} {R : Randomness LPFloat} {C : CubeRoot} {M : Memory}
    (OUTPUT_EDGES : bool) (kagen : Interface.KaGen LPFloat) (rank size : Z)
    (grid_x grid_y grid_z : Z) (p : LPFloat) (periodic : bool) (k seed d : Z)
    (Hvalid : valid_grid
                (Interface.updated_config kagen grid_x grid_y grid_z p periodic
                   k seed) d)
    (Hfit63 : grid_x * grid_y * grid_z < 2 ^ 63)
    (Hsize : 1 <= size) (Hrank : 0 <= rank < size)
    (Halloc : resizable (cfg_dist_size (Interface.config_ kagen)) = true) :
  let config :=
    Interface.updated_config kagen grid_x grid_y grid_z p periodic k seed in
  exists first last,
    Interface.Generate3DGrid OUTPUT_EDGES kagen rank size
      grid_x grid_y grid_z p periodic k seed
    = Some ((first, last) :: Grid3D.emitted_by OUTPUT_EDGES config rank size,
            Interface.mkKaGen (Interface.rank_ kagen) (Interface.size_ kagen)
              (mkConfig (grid_x * grid_y * grid_z) p
                 (if k =? 0 then cfg_k (Interface.config_ kagen) else k) seed
                 grid_x grid_y grid_z periodic
                 (cfg_self_loops (Interface.config_ kagen))
                 (cfg_dist_size (Interface.config_ kagen))))
    /\ Grid3D.vertex_range_of OUTPUT_EDGES config rank size = Some (first, last)
    /\ (forall u v,
          In (u, v) (Grid3D.emitted_by OUTPUT_EDGES config rank size) ->
          first <= u <= last).
Proof.
  intros config.
  destruct (run_of_valid OUTPUT_EDGES config rank size d Hvalid Hfit63)
    as (g & out & Hrun & Hn).
  destruct (run_ranges OUTPUT_EDGES config rank size d g out Hvalid Hfit63 Hsize
              Hrank Halloc Hrun) as [Hr Hsrc].
  destruct (run_results OUTPUT_EDGES config rank size g out Halloc Hrun)
    as [Hv He].
  exists (first_vertex config size d rank), (first_vertex config size d (rank + 1) - 1).
  rewrite Hv, He, Hr. split; [|split; [reflexivity | exact Hsrc]].
  unfold Interface.Generate3DGrid. cbv zeta. fold config.
  rewrite (construct_resizable config Halloc), Hrun, Hr, Hn.
  reflexivity.
Qed.

Lemma Generate3DGrid_result_witness :
  exists first last,
    Interface.Generate3DGrid (R := certain) (C := exact_cube_root) (M := ample) true
      (Interface.mkKaGen 0 1 (mkConfig 100 tt 1 1 0 0 0 false false 10)) 0 1
      3 3 3 tt false 8 1
    = Some ((first, last)
              :: Grid3D.emitted_by (R := certain) (C := exact_cube_root) (M := ample)
                   true (mkConfig 100 tt 8 1 3 3 3 false false 10) 0 1,
            Interface.mkKaGen 0 1 (mkConfig 27 tt 8 1 3 3 3 false false 10))
    /\ Grid3D.vertex_range_of (R := certain) (C := exact_cube_root) (M := ample)
         true (mkConfig 100 tt 8 1 3 3 3 false false 10) 0 1
       = Some (first, last)
    /\ (forall u v,
          In (u, v) (Grid3D.emitted_by
                       (R := certain) (C := exact_cube_root) (M := ample)
                       true (mkConfig 100 tt 8 1 3 3 3 false false 10) 0 1) ->
          first <= u <= last).
Proof.
  assert (Hvalid : valid_grid (C := exact_cube_root)
            (Interface.updated_config
               (Interface.mkKaGen 0 1 (mkConfig 100 tt 1 1 0 0 0 false false 10))
               3 3 3 tt false 8 1) 2).
  { constructor;
      first [vm_compute; reflexivity | cbn; unfold SInt.modulus; lia]. }
  assert (Hfit63 : 3 * 3 * 3 < 2 ^ 63) by (vm_compute; reflexivity).
  assert (Hsize : 1 <= 1) by lia.
  assert (Hrank : 0 <= 0 < 1) by lia.
  exact (Generate3DGrid_result (R := certain) (C := exact_cube_root) (M := ample)
           true _ 0 1 3 3 3 tt false 8 1 2
           Hvalid Hfit63 Hsize Hrank eq_refl).
Defined.
